(** * Image search service: feature extraction, batch ingestion, search handler

    A shallow embedding of three parts of the repository:

    - package [models]   (the feature extractor: [ExtractFeatures] and the
      extractors and the normalisation it calls, [BatchExtractFeatures]),
    - package [main] of [test/main.go] (the batch inserter: discovery, the
      partition of the file list into batches, [processBatch], [worker], the
      collector, a whole run of [ProcessDataset]),
    - package [handlers] ([SearchImage] and its [top_k] validation,
      [findActualImageFile], [UploadImage]).

    Conventions.  Go's [int] is modelled by [Z]: every [int] of this code is a
    pixel coordinate, a pixel count, a list length or a list index, far from
    the 64-bit bounds.  A [uint32] colour channel is a [Z] reduced modulo
    [2^32].  Go's [float32] and [float64] are an interface ([FloatOps]) the
    extractor is written against, operation by operation; its instance over
    the real numbers gives the exact-arithmetic reading of the code, in which
    rounding is left out.  A run-time panic is an explicit outcome. *)

From Stdlib Require Import ZArith List String Ascii Bool Lia QArith.
From Stdlib Require Import Reals Lra.
From Stdlib Require Import SpecFloat.
From Stdlib Require Import DecimalString.
Import ListNotations.
Local Open Scope Z_scope.

(* ===================================================================== *)
(** * Go run-time conventions                                              *)
(* ===================================================================== *)

Module Go.

(** The outcome of a computation that may panic. *)
Inductive result (A : Type) : Type :=
| Ok (a : A)
| Panic (msg : string).
Arguments Ok {A} a.
Arguments Panic {A} msg.

Definition bind {A B : Type} (m : result A) (k : A -> result B) : result B :=
  match m with
  | Ok a => k a
  | Panic msg => Panic msg
  end.

(** [for _, a := range l { acc = f acc a }] with a body that may panic. *)
Fixpoint foldM {A B : Type} (f : B -> A -> result B) (l : list A) (acc : B)
  : result B :=
  match l with
  | [] => Ok acc
  | a :: l' => bind (f acc a) (foldM f l')
  end.

(** The values [lo, lo+1, ..., hi-1] a loop [for i := lo; i < hi; i++] visits. *)
Definition range (lo hi : Z) : list Z :=
  map (fun k => lo + Z.of_nat k) (seq 0 (Z.to_nat (hi - lo))).

(** [l[i]]: a panic when the index is out of range. *)
Definition index {A : Type} (l : list A) (i : Z) : result A :=
  if i <? 0 then Panic "index out of range"
  else match nth_error l (Z.to_nat i) with
       | Some a => Ok a
       | None => Panic "index out of range"
       end.

(** [l[i] = v] on a slice whose index is in range; out of range the slice is
    left as it is (the callers below only write in range, see
    [bin_of_range] and [spatial_index_range]). *)
Fixpoint set_nth {A : Type} (l : list A) (i : nat) (v : A) : list A :=
  match l, i with
  | [], _ => []
  | _ :: t, O => v :: t
  | a :: t, S k => a :: set_nth t k v
  end.

Definition set_at {A : Type} (l : list A) (i : Z) (v : A) : list A :=
  if i <? 0 then l else set_nth l (Z.to_nat i) v.

(** [make([]T, n)]: [n] zero values; a panic when [n] is negative. *)
Definition make {A : Type} (zero : A) (n : Z) : result (list A) :=
  if n <? 0 then Panic "makeslice: len out of range"
  else Ok (repeat zero (Z.to_nat n)).

(** [len(l)] *)
Definition len {A : Type} (l : list A) : Z := Z.of_nat (List.length l).

(** A [uint32] value. *)
Definition uint32 (z : Z) : Z := z mod 2 ^ 32.

(** Go's [error]: the message. *)
Definition error : Type := string.

End Go.

Import Go.

Declare Scope go_scope.
Delimit Scope go_scope with go.
Notation "x <- m ;; k" := (bind m (fun x => k))
  (at level 100, m at next level, right associativity) : go_scope.

(* ===================================================================== *)
(** * Floating point as an interface                                       *)
(* ===================================================================== *)

(** The operations on [float32] and [float64] the extractor uses.  The
    conversions are named after Go's: [float32_of_int n] is [float32(n)] and
    so on; [lit64 q] is the [float64] constant written as the decimal [q]. *)
Class FloatOps : Type := {
  float32 : Type;
  float64 : Type;
  float32_of_int : Z -> float32;
  add32 : float32 -> float32 -> float32;
  sub32 : float32 -> float32 -> float32;
  mul32 : float32 -> float32 -> float32;
  div32 : float32 -> float32 -> float32;
  float64_of_int : Z -> float64;
  lit64 : Q -> float64;
  add64 : float64 -> float64 -> float64;
  mul64 : float64 -> float64 -> float64;
  div64 : float64 -> float64 -> float64;
  sqrt64 : float64 -> float64;
  eqb64 : float64 -> float64 -> bool;
  float32_of_float64 : float64 -> float32;
  float64_of_float32 : float32 -> float64
}.

(** Exact arithmetic: both formats are the real numbers and no operation
    rounds. *)
Definition RealOps : FloatOps := {|
  float32 := R;
  float64 := R;
  float32_of_int := IZR;
  add32 := Rplus;
  sub32 := Rminus;
  mul32 := Rmult;
  div32 := Rdiv;
  float64_of_int := IZR;
  lit64 := Q2R;
  add64 := Rplus;
  mul64 := Rmult;
  div64 := Rdiv;
  sqrt64 := sqrt;
  eqb64 := fun x y => if Req_dec_T x y then true else false;
  float32_of_float64 := fun x => x;
  float64_of_float32 := fun x => x
|}.

(** IEEE 754 arithmetic, round to nearest even: [float32] is binary32
    (24 bits of precision) and [float64] is binary64 (53 bits), both as the
    Standard Library's [spec_float].  A compiler that fuses [x*y + z] may
    differ from it in the last bit. *)
Module IEEE.

Definition of_int (prec emax : Z) (n : Z) : spec_float :=
  binary_normalize prec emax n 0 false.

(** The conversion of a float to another format. *)
Definition convert (prec emax : Z) (x : spec_float) : spec_float :=
  match x with
  | S754_finite s m e => binary_normalize prec emax (cond_Zopp s (Zpos m)) e s
  | _ => x
  end.

Definition of_Q (prec emax : Z) (q : Q) : spec_float :=
  SFdiv prec emax (of_int prec emax (Qnum q)) (of_int prec emax (Zpos (Qden q))).

End IEEE.

Definition IEEEOps : FloatOps := {|
  float32 := spec_float;
  float64 := spec_float;
  float32_of_int := IEEE.of_int 24 128;
  add32 := SFadd 24 128;
  sub32 := SFsub 24 128;
  mul32 := SFmul 24 128;
  div32 := SFdiv 24 128;
  float64_of_int := IEEE.of_int 53 1024;
  lit64 := IEEE.of_Q 53 1024;
  add64 := SFadd 53 1024;
  mul64 := SFmul 53 1024;
  div64 := SFdiv 53 1024;
  sqrt64 := SFsqrt 53 1024;
  eqb64 := SFeqb;
  float32_of_float64 := IEEE.convert 24 128;
  float64_of_float32 := IEEE.convert 53 1024
|}.

(* ===================================================================== *)
(** * Package image (the part of Go's interface the extractor reads)       *)
(* ===================================================================== *)

Module image.

Record Point : Type := { X : Z; Y : Z }.

Record Rectangle : Type := { Min : Point; Max : Point }.

Definition Dx (r : Rectangle) : Z := X (Max r) - X (Min r).
Definition Dy (r : Rectangle) : Z := Y (Max r) - Y (Min r).

(** [color.Color]: what its method [RGBA()] returns, four [uint32]. *)
Record Color : Type := { red : Z; green : Z; blue : Z; alpha : Z }.

Definition RGBA (c : Color) : Z * Z * Z * Z :=
  (uint32 (red c), uint32 (green c), uint32 (blue c), uint32 (alpha c)).

(** [image.Image]: [Bounds()] and [At(x, y)]. *)
Record Image : Type := { Bounds : Rectangle; At : Z -> Z -> Color }.

End image.

Import image.

(* ===================================================================== *)
(** * Package models: the feature extractor                                *)
(* ===================================================================== *)

Module models.

(** [SimpleFeatureExtractor] *)
Record SimpleFeatureExtractor : Type := { Dimension : Z }.

Definition NewSimpleFeatureExtractor : SimpleFeatureExtractor :=
  {| Dimension := 512 |}.

Definition GetDimension (e : SimpleFeatureExtractor) : Z := Dimension e.

Section Extractor.

Context {FO : FloatOps}.

(** [utils.PreprocessImage]: package [utils] is not among the sources, so the
    extractor takes the function as a parameter. *)
Variable PreprocessImage : Image -> Z -> Image.

Definition zero32 : float32 := float32_of_int 0.
Definition zero64 : float64 := float64_of_int 0.

(** ** extractColorHistogram *)

(** [(c >> 8) / 16], then [if bin > 15 { bin = 15 }]. *)
Definition bin_of (c : Z) : Z :=
  let b := Z.shiftr c 8 / 16 in
  if 15 <? b then 15 else b.

(** [hist[i]++] *)
Definition incr (hist : list Z) (i : Z) : list Z :=
  set_at hist i (nth (Z.to_nat i) hist 0 + 1).

(** The three histograms after the loop over the pixels. *)
Definition histograms (img : Image) : list Z * list Z * list Z :=
  let bounds := Bounds img in
  let histR := repeat 0 16 in
  let histG := repeat 0 16 in
  let histB := repeat 0 16 in
  fold_left
    (fun hists y =>
       fold_left
         (fun '(histR, histG, histB) x =>
            let '(r, g, b, _) := RGBA (At img x y) in
            let rBin := bin_of r in
            let gBin := bin_of g in
            let bBin := bin_of b in
            (incr histR rBin, incr histG gBin, incr histB bBin))
         (range (X (Min bounds)) (X (Max bounds))) hists)
    (range (Y (Min bounds)) (Y (Max bounds)))
    (histR, histG, histB).

Definition extractColorHistogram (img : Image) : list float32 :=
  let bounds := Bounds img in
  let width := Dx bounds in
  let height := Dy bounds in
  let totalPixels := width * height in
  let '(histR, histG, histB) := histograms img in
  let features := repeat zero32 48 in
  fold_left
    (fun features i =>
       let features :=
         set_at features i
           (div32 (float32_of_int (nth (Z.to_nat i) histR 0))
                  (float32_of_int totalPixels)) in
       let features :=
         set_at features (i + 16)
           (div32 (float32_of_int (nth (Z.to_nat i) histG 0))
                  (float32_of_int totalPixels)) in
       set_at features (i + 32)
         (div32 (float32_of_int (nth (Z.to_nat i) histB 0))
                (float32_of_int totalPixels)))
    (range 0 16) features.

(** ** extractTextureFeatures *)

(** The grey value of one pixel:
    [float32(0.299*float64(r>>8) + 0.587*float64(g>>8) + 0.114*float64(b>>8))],
    then [gray / 255.0]. *)
Definition gray_of (c : Color) : float32 :=
  let '(r, g, b, _) := RGBA c in
  let gray :=
    float32_of_float64
      (add64
         (add64 (mul64 (lit64 (299 # 1000)) (float64_of_int (Z.shiftr r 8)))
                (mul64 (lit64 (587 # 1000)) (float64_of_int (Z.shiftr g 8))))
         (mul64 (lit64 (114 # 1000)) (float64_of_int (Z.shiftr b 8)))) in
  div32 gray (float32_of_int 255).

(** [grayImg[i][j] = v] *)
Definition set2 {A : Type} (g : list (list A)) (i j : Z) (v : A)
  : list (list A) :=
  set_at g i (set_at (nth (Z.to_nat i) g []) j v).

(** [grayImg[i][j]] *)
Definition index2 {A : Type} (g : list (list A)) (i j : Z) : result A :=
  (row <- index g i ;; index row j)%go.

(** The allocation of [grayImg] and the loop that fills it. *)
Definition grayscale (img : Image) : result (list (list float32)) :=
  let bounds := Bounds img in
  let width := Dx bounds in
  let height := Dy bounds in
  (grayImg <- make ([] : list float32) height ;;
   grayImg <- foldM
     (fun grayImg i =>
        row <- make zero32 width ;;
        Ok (set_at grayImg i row))
     (range 0 (len grayImg)) grayImg ;;
   Ok (fold_left
         (fun grayImg y =>
            fold_left
              (fun grayImg x =>
                 set2 grayImg (y - Y (Min bounds)) (x - X (Min bounds))
                   (gray_of (At img x y)))
              (range (X (Min bounds)) (X (Max bounds))) grayImg)
         (range (Y (Min bounds)) (Y (Max bounds))) grayImg))%go.

Definition sobelX : list (list Z) := [[-1; 0; 1]; [-2; 0; 2]; [-1; 0; 1]].
Definition sobelY : list (list Z) := [[-1; -2; -1]; [0; 0; 0]; [1; 2; 1]].

(** ** calculateEdgeStrength *)
Definition calculateEdgeStrength (grayImg : list (list float32))
  : result float32 :=
  let height := len grayImg in
  (row0 <- index grayImg 0 ;;
   let width := len row0 in
   totalEdgeStrength <- foldM
     (fun totalEdgeStrength y =>
        foldM
          (fun totalEdgeStrength x =>
             gxy <- foldM
               (fun gxy ky =>
                  foldM
                    (fun '(gx, gy) kx =>
                       pixel <- index2 grayImg (y + ky - 1) (x + kx - 1) ;;
                       sx <- index2 sobelX ky kx ;;
                       sy <- index2 sobelY ky kx ;;
                       Ok (add32 gx (mul32 pixel (float32_of_int sx)),
                           add32 gy (mul32 pixel (float32_of_int sy))))
                    (range 0 3) gxy)
               (range 0 3) (zero32, zero32) ;;
             let '(gx, gy) := gxy in
             let magnitude :=
               float32_of_float64
                 (sqrt64 (float64_of_float32
                            (add32 (mul32 gx gx) (mul32 gy gy)))) in
             Ok (add32 totalEdgeStrength magnitude))
          (range 1 (width - 1)) totalEdgeStrength)
     (range 1 (height - 1)) zero32 ;;
   Ok (div32 totalEdgeStrength
         (float32_of_int ((width - 2) * (height - 2)))))%go.

(** The sums [contrast] and [energy] after the loop over the pixel pairs. *)
Definition texture_sums (grayImg : list (list float32)) (width height : Z)
  : result (float32 * float32) :=
  foldM
    (fun sums y =>
       foldM
         (fun '(contrast, energy) x =>
            (p <- index2 grayImg y x ;;
             right <- index2 grayImg y (x + 1) ;;
             let diff := sub32 p right in
             let contrast := add32 contrast (mul32 diff diff) in
             below <- index2 grayImg (y + 1) x ;;
             let diff := sub32 p below in
             let contrast := add32 contrast (mul32 diff diff) in
             let energy := add32 energy (mul32 p p) in
             Ok (contrast, energy))%go)
         (range 0 (width - 1)) sums)
    (range 0 (height - 1)) (zero32, zero32).

Definition extractTextureFeatures (img : Image) : result (list float32) :=
  let bounds := Bounds img in
  let width := Dx bounds in
  let height := Dy bounds in
  (grayImg <- grayscale img ;;
   sums <- texture_sums grayImg width height ;;
   let '(contrast, energy) := sums in
   let pixelCount := float32_of_int ((width - 1) * (height - 1)) in
   let contrast := div32 contrast pixelCount in
   let energy := div32 energy (float32_of_int (width * height)) in
   let uniformity := energy in
   edgeStrength <- calculateEdgeStrength grayImg ;;
   Ok [contrast; energy; uniformity; edgeStrength])%go.

(** ** extractSpatialFeatures *)

(** The bounds [startX, endX, startY, endY] of grid cell [(gx, gy)]; Go's
    integer division truncates ([Z.quot]). *)
Definition cell_bounds (width height gx gy : Z) : Z * Z * Z * Z :=
  let gridSize := 4 in
  let cellWidth := Z.quot width gridSize in
  let cellHeight := Z.quot height gridSize in
  let startX := gx * cellWidth in
  let endX := (gx + 1) * cellWidth in
  let startY := gy * cellHeight in
  let endY := (gy + 1) * cellHeight in
  let endX := if width <? endX then width else endX in
  let endY := if height <? endY then height else endY in
  (startX, endX, startY, endY).

(** [totalR, totalG, totalB, count] after the loop over the pixels of one
    cell. *)
Definition cell_totals (img : Image) (startX endX startY endY : Z)
  : float64 * float64 * float64 * Z :=
  let bounds := Bounds img in
  fold_left
    (fun totals y =>
       fold_left
         (fun '(totalR, totalG, totalB, count) x =>
            let '(r, g, b, _) :=
              RGBA (At img (X (Min bounds) + x) (Y (Min bounds) + y)) in
            (add64 totalR (float64_of_int (Z.shiftr r 8)),
             add64 totalG (float64_of_int (Z.shiftr g 8)),
             add64 totalB (float64_of_int (Z.shiftr b 8)),
             count + 1))
         (range startX endX) totals)
    (range startY endY) (zero64, zero64, zero64, 0).

(** [float32(total / float64(count) / 255.0)] *)
Definition cell_mean (total : float64) (count : Z) : float32 :=
  float32_of_float64
    (div64 (div64 total (float64_of_int count)) (float64_of_int 255)).

Definition extractSpatialFeatures (img : Image) : list float32 :=
  let bounds := Bounds img in
  let width := Dx bounds in
  let height := Dy bounds in
  let gridSize := 4 in
  let features := repeat zero32 (Z.to_nat (gridSize * gridSize * 3)) in
  fold_left
    (fun features gy =>
       fold_left
         (fun features gx =>
            let '(startX, endX, startY, endY) :=
              cell_bounds width height gx gy in
            let '(totalR, totalG, totalB, count) :=
              cell_totals img startX endX startY endY in
            if 0 <? count then
              let idx := (gy * gridSize + gx) * 3 in
              let features := set_at features idx (cell_mean totalR count) in
              let features :=
                set_at features (idx + 1) (cell_mean totalG count) in
              set_at features (idx + 2) (cell_mean totalB count)
            else features)
         (range 0 gridSize) features)
    (range 0 gridSize) features.

(** ** l2Normalize *)

(** [norm] before the square root: the sum of [float64(f * f)]. *)
Definition sum_squares (features : list float32) : float64 :=
  fold_left
    (fun norm f => add64 norm (float64_of_float32 (mul32 f f)))
    features zero64.

Definition l2Normalize (features : list float32) : list float32 :=
  let norm := sum_squares features in
  let norm := sqrt64 norm in
  if eqb64 norm zero64 then features
  else map (fun f => float32_of_float64 (div64 (float64_of_float32 f) norm))
           features.

(** ** ExtractFeatures *)

(** [features[:n]] *)
Definition slice_to {A : Type} (l : list A) (n : Z) : result (list A) :=
  if (n <? 0) || (len l <? n) then Panic "slice bounds out of range"
  else Ok (firstn (Z.to_nat n) l).

(** The vector before normalisation: the three feature groups, cut or
    padded to [Dimension]. *)
Definition combined (e : SimpleFeatureExtractor) (processed : Image)
  : result (list float32) :=
  (let colorFeatures := extractColorHistogram processed in
   textureFeatures <- extractTextureFeatures processed ;;
   let spatialFeatures := extractSpatialFeatures processed in
   let features := colorFeatures ++ textureFeatures in
   let features := features ++ spatialFeatures in
   if Dimension e <? len features then slice_to features (Dimension e)
   else if len features <? Dimension e then
     padding <- make zero32 (Dimension e - len features) ;;
     Ok (features ++ padding)
   else Ok features)%go.

(** The two values Go returns: the vector and the error, here always [nil]. *)
Definition ExtractFeatures (e : SimpleFeatureExtractor) (img : Image)
  : result (list float32 * option error) :=
  (let processed := PreprocessImage img 224 in
   features <- combined e processed ;;
   Ok (l2Normalize features, None))%go.

End Extractor.

End models.

(* ===================================================================== *)
(** * Package main of test/main.go: the batch inserter                     *)
(* ===================================================================== *)

Module main.

(** [BatchResult] *)
Record BatchResult : Type := {
  Success : bool;
  ProcessedCount : Z;
  ErrorCount : Z;
  BatchID : string;
  Error : option error
}.

Section BatchInserter.

(** The element type of the vectors; the inserter only moves them. *)
Variable float32 : Type.

(** What the run has done to its surroundings so far. *)
Record World : Type := {
  uuid_calls : nat;                          (* identifiers handed out *)
  uploads : list (string * Image);           (* files written by SaveImage *)
  insert_calls : list (list string * list (list float32));
                                             (* the calls of client.Insert *)
  inserted : list (list string * list (list float32));
                                             (* rows accepted by client.Insert *)
  flushes : nat                              (* successful client.Flush calls *)
}.

(** The collaborators of the inserter whose code is outside the repository
    or outside its sources: the [uuid] and [filepath] packages, package
    [utils], the Milvus client, and the feature extractor behind the
    interface [models.FeatureExtractor].  An outcome may depend on the
    state of the world. *)
Record Env : Type := {
  uuid_String : nat -> string;               (* the k-th uuid.New().String() *)
  filepath_Join : string -> string -> string;
  filepath_Ext : string -> string;
  filepath_Dir : string -> string;
  UploadPath : string;                       (* config.Server.UploadPath *)
  MkdirAll : World -> string -> option error;
  LoadImageFromFile : World -> string -> Image + error;
  SaveImage : World -> Image -> string -> option error;
  ExtractFeatures : Image -> list float32 * option error;
  client_Insert : World -> list string -> list (list float32) -> option error;
  client_Flush : World -> option error
}.

Variable env : Env.

(** State passing over [World]. *)
Definition M (A : Type) : Type := World -> A * World.

Definition ret {A : Type} (a : A) : M A := fun w => (a, w).

Definition bindM {A B : Type} (m : M A) (k : A -> M B) : M B :=
  fun w => let '(a, w') := m w in k a w'.

Definition ask {A : Type} (f : World -> A) : M A := fun w => (f w, w).

Notation "x <~ m ;; k" := (bindM m (fun x => k))
  (at level 100, m at next level, right associativity).

(** [for _, a := range l] over a state-passing body. *)
Fixpoint forM {A B : Type} (f : B -> A -> M B) (l : list A) (acc : B) : M B :=
  match l with
  | [] => ret acc
  | a :: l' => acc' <~ f acc a ;; forM f l' acc'
  end.

(** [uuid.New().String()] *)
Definition uuid_New : M string :=
  fun w =>
    (uuid_String env (uuid_calls w),
     {| uuid_calls := S (uuid_calls w); uploads := uploads w;
        insert_calls := insert_calls w; inserted := inserted w;
        flushes := flushes w |}).

(** [utils.SaveImage]: on success the file is on disk. *)
Definition saveImage (img : Image) (destPath : string) : M (option error) :=
  fun w =>
    match SaveImage env w img destPath with
    | Some err => (Some err, w)
    | None =>
        (None,
         {| uuid_calls := uuid_calls w;
            uploads := uploads w ++ [(destPath, img)];
            insert_calls := insert_calls w; inserted := inserted w;
            flushes := flushes w |})
    end.

(** ** copyImageFile *)
Definition copyImageFile (srcPath destPath : string) : M (option error) :=
  mk <~ ask (fun w => MkdirAll env w (filepath_Dir env destPath)) ;;
  match mk with
  | Some err => ret (Some err)
  | None =>
      loaded <~ ask (fun w => LoadImageFromFile env w srcPath) ;;
      match loaded with
      | inr err => ret (Some err)
      | inl img => saveImage img destPath
      end
  end.

(** ** MilvusService.InsertVectors *)
Definition InsertVectors (imageIDs : list string)
  (vectors : list (list float32)) : M (option error) :=
  if negb (len imageIDs =? len vectors) then
    ret (Some "图片ID数量与向量数量不匹配"%string)
  else
    fun w =>
      let called :=
        {| uuid_calls := uuid_calls w; uploads := uploads w;
           insert_calls := insert_calls w ++ [(imageIDs, vectors)];
           inserted := inserted w; flushes := flushes w |} in
      match client_Insert env w imageIDs vectors with
      | Some err => (Some ("插入向量失败: " ++ err)%string, called)
      | None =>
          let w1 :=
            {| uuid_calls := uuid_calls called; uploads := uploads called;
               insert_calls := insert_calls called;
               inserted := inserted called ++ [(imageIDs, vectors)];
               flushes := flushes called |} in
          match client_Flush env w1 with
          | Some err => (Some ("刷新数据失败: " ++ err)%string, w1)
          | None =>
              (None,
               {| uuid_calls := uuid_calls w1; uploads := uploads w1;
                  insert_calls := insert_calls w1; inserted := inserted w1;
                  flushes := S (flushes w1) |})
          end
      end.

(** The local variables of [processBatch] its loop updates. *)
Record Locals : Type := {
  imageIDs : list string;
  vectors : list (list float32);
  successCount : Z;
  errorCount : Z
}.

(** [errorCount++; continue] *)
Definition item_failed (l : Locals) : Locals :=
  {| imageIDs := imageIDs l; vectors := vectors l;
     successCount := successCount l; errorCount := errorCount l + 1 |}.

(** One iteration of the loop of [processBatch]. *)
Definition process_item (l : Locals) (imagePath : string) : M Locals :=
  loaded <~ ask (fun w => LoadImageFromFile env w imagePath) ;;
  match loaded with
  | inr _ => ret (item_failed l)
  | inl img =>
      let '(features, err) := ExtractFeatures env img in
      match err with
      | Some _ => ret (item_failed l)
      | None =>
          imageID <~ uuid_New ;;
          let destPath :=
            filepath_Join env (UploadPath env)
              (imageID ++ filepath_Ext env imagePath)%string in
          copied <~ copyImageFile imagePath destPath ;;
          match copied with
          | Some _ => ret (item_failed l)
          | None =>
              ret {| imageIDs := imageIDs l ++ [imageID];
                     vectors := vectors l ++ [features];
                     successCount := successCount l + 1;
                     errorCount := errorCount l |}
          end
      end
  end.

(** ** processBatch (the log lines are left out) *)
Definition processBatch (imagePaths : list string) : M BatchResult :=
  u <~ uuid_New ;;
  let batchID := substring 0 8 u in
  l <~ forM process_item imagePaths
         {| imageIDs := []; vectors := []; successCount := 0;
            errorCount := 0 |} ;;
  let done :=
    {| Success := true; ProcessedCount := successCount l;
       ErrorCount := errorCount l; BatchID := batchID; Error := None |} in
  if 0 <? len (imageIDs l) then
    failed <~ InsertVectors (imageIDs l) (vectors l) ;;
    match failed with
    | Some err =>
        ret {| Success := false; ProcessedCount := 0;
               ErrorCount := len imagePaths; BatchID := batchID;
               Error := Some err |}
    | None => ret done
    end
  else ret done.

(** ** worker: one worker draining the job channel, batch after batch; the
    results in the order it sends them. *)
Fixpoint worker (jobs : list (list string)) : M (list BatchResult) :=
  match jobs with
  | [] => ret []
  | batch :: jobs' =>
      result <~ processBatch batch ;;
      results <~ worker jobs' ;;
      ret (result :: results)
  end.

End BatchInserter.

Arguments uuid_calls {float32} _.
Arguments uploads {float32} _.
Arguments insert_calls {float32} _.
Arguments inserted {float32} _.
Arguments flushes {float32} _.
Arguments uuid_String {float32} _ _.
Arguments filepath_Join {float32} _ _ _.
Arguments filepath_Ext {float32} _ _.
Arguments filepath_Dir {float32} _ _.
Arguments UploadPath {float32} _.
Arguments MkdirAll {float32} _ _ _.
Arguments LoadImageFromFile {float32} _ _ _.
Arguments SaveImage {float32} _ _ _ _.
Arguments ExtractFeatures {float32} _ _.
Arguments client_Insert {float32} _ _ _ _.
Arguments client_Flush {float32} _ _.
Arguments imageIDs {float32} _.
Arguments vectors {float32} _.
Arguments successCount {float32} _.
Arguments errorCount {float32} _.
Arguments item_failed {float32} _.
Arguments uuid_New {float32} _ _.
Arguments copyImageFile {float32} _ _ _ _.
Arguments InsertVectors {float32} _ _ _ _.
Arguments process_item {float32} _ _ _ _.
Arguments processBatch {float32} _ _ _.
Arguments worker {float32} _ _ _.
Arguments forM {float32 A B} _ _ _ _.

(** ** ProcessDataset: the loop that cuts the file list into batches *)

(** [imageFiles[i:end]] *)
Definition slice {A : Type} (l : list A) (i j : Z) : result (list A) :=
  if (i <? 0) || (j <? i) || (len l <? j) then
    Panic "slice bounds out of range"
  else Ok (firstn (Z.to_nat (j - i)) (skipn (Z.to_nat i) l)).

(** [totalBatches] *)
Definition totalBatches (imageFiles : list string) (batchSize : Z) : Z :=
  Z.quot (len imageFiles + batchSize - 1) batchSize.

(** The batches the loop [for i := 0; i < len(imageFiles); i += batchSize]
    sends to the job channel, in the order it sends them, from the
    iteration at [i] on.  [fuel] bounds the number of iterations: [None]
    when it runs out. *)
Fixpoint send_batches (fuel : nat) (imageFiles : list string)
  (batchSize i : Z) : option (result (list (list string))) :=
  match fuel with
  | O => None
  | S fuel' =>
      if i <? len imageFiles then
        let end_ := i + batchSize in
        let end_ := if len imageFiles <? end_ then len imageFiles else end_ in
        match slice imageFiles i end_ with
        | Panic msg => Some (Panic msg)
        | Ok batch =>
            match send_batches fuel' imageFiles batchSize (i + batchSize) with
            | Some (Ok rest) => Some (Ok (batch :: rest))
            | other => other
            end
        end
      else Some (Ok [])
  end.

Definition dispatch (fuel : nat) (imageFiles : list string) (batchSize : Z)
  : option (result (list (list string))) :=
  send_batches fuel imageFiles batchSize 0.

End main.

(* ===================================================================== *)
(** * Package strconv of Go's standard library: Atoi                       *)
(* ===================================================================== *)

Module strconv.

Definition is_digit (c : ascii) : bool :=
  let n := Z.of_nat (nat_of_ascii c) in (48 <=? n) && (n <=? 57).

Definition digit_value (c : ascii) : Z := Z.of_nat (nat_of_ascii c) - 48.

(** The value of a string of decimal digits, [None] on any other byte. *)
Fixpoint digits (s : string) (acc : Z) : option Z :=
  match s with
  | EmptyString => Some acc
  | String c s' =>
      if is_digit c then digits s' (acc * 10 + digit_value c) else None
  end.

Definition maxInt : Z := 2 ^ 63 - 1.
Definition minInt : Z := - 2 ^ 63.

(** [strconv.Atoi] as its documentation states it: [ParseInt(s, 10, 0)]
    converted to [int].  An optional sign, then one decimal digit or more;
    a value outside of [int] is a range error, returned with the nearest
    bound. *)
Definition Atoi (s : string) : Z * option error :=
  let syntaxError := (0, Some ("strconv.Atoi: invalid syntax")%string) in
  let '(neg, body) :=
    match s with
    | String "-"%char s' => (true, s')
    | String "+"%char s' => (false, s')
    | _ => (false, s)
    end in
  match body with
  | EmptyString => syntaxError
  | _ =>
      match digits body 0 with
      | None => syntaxError
      | Some n =>
          let v := if neg then - n else n in
          if maxInt <? v then
            (maxInt, Some ("strconv.Atoi: value out of range")%string)
          else if v <? minInt then
            (minInt, Some ("strconv.Atoi: value out of range")%string)
          else (v, None)
      end
  end.

End strconv.

(* ===================================================================== *)
(** * Package handlers: SearchImage                                        *)
(* ===================================================================== *)

Module handlers.

Definition StatusOK : Z := 200.
Definition StatusBadRequest : Z := 400.
Definition StatusInternalServerError : Z := 500.

(** [multipart.FileHeader], the fields the handler reads. *)
Record FileHeader : Type := { Filename : string; Size : Z }.

Section ImageHandler.

Variable float32 : Type.

(** [services.SearchResult] *)
Record SearchResult : Type := {
  ID : Z;
  Score : float32;
  ImageID : string;
  Distance : float32
}.

(** [SearchResultWithDetails] *)
Record SearchResultWithDetails : Type := {
  r_ImageID : string;
  r_Score : float32;
  r_Distance : float32;
  r_ImagePath : string;
  r_Similarity : string
}.

(** [SearchImageResponse] *)
Record SearchImageResponse : Type := {
  Success : bool;
  Message : string;
  Results : list SearchResultWithDetails;
  Total : Z
}.

(** The request as [gin.Context] gives it to the handler: the parsed query
    string (a key with its values, as [url.Values]) and the uploaded files. *)
Record Context : Type := {
  query : list (string * list string);
  FormFile : string -> FileHeader + error
}.

(** The calls the handler makes to its collaborators, in order. *)
Inductive Call : Type :=
| CallLoadImage (file : FileHeader)
| CallExtractFeatures (img : Image)
| CallSearchSimilar (queryVector : list float32) (topK : Z)
| CallStat (path : string).

(** The collaborators of the handler: package [utils], the feature
    extractor, the Milvus service, the file system; [calculateSimilarity]
    formats a [float32] and is taken as given. *)
Record Env : Type := {
  IsValidImageFormat : string -> bool;
  LoadImageFromMultipart : FileHeader -> Image + error;
  ExtractFeatures : Image -> list float32 * option error;
  SearchSimilar : list float32 -> Z -> list SearchResult + error;
  file_exists : string -> bool;              (* os.Stat succeeds *)
  filepath_Join : string -> string -> string;
  UploadPath : string;
  calculateSimilarity : float32 -> string;
  Sprint_error : error -> string             (* fmt's %v of an error *)
}.

Variable env : Env.

(** [c.GetQuery(key)]: the first value of the key and whether it is there. *)
Definition GetQuery (c : Context) (key : string) : string * bool :=
  match find (fun kv => String.eqb (fst kv) key) (query c) with
  | Some (_, values) => (hd ""%string values, true)
  | None => (""%string, false)
  end.

(** [c.DefaultQuery(key, defaultValue)] *)
Definition DefaultQuery (c : Context) (key defaultValue : string) : string :=
  let '(value, ok) := GetQuery c key in
  if ok then value else defaultValue.

(** ** findActualImageFile, with the [os.Stat] calls it makes *)
Fixpoint find_with_extension (imageID : string) (extensions : list string)
  : option string * list Call :=
  match extensions with
  | [] => (None, [])
  | ext :: rest =>
      let filename := (imageID ++ ext)%string in
      let fullPath := filepath_Join env (UploadPath env) filename in
      if file_exists env fullPath then (Some filename, [CallStat fullPath])
      else
        let '(found, calls) := find_with_extension imageID rest in
        (found, CallStat fullPath :: calls)
  end.

Definition findActualImageFile (imageID : string) : string * list Call :=
  let extensions :=
    [".jpg"; ".jpeg"; ".png"; ".bmp"; ".tiff"; ".gif"]%string in
  match find_with_extension imageID extensions with
  | (Some filename, calls) => (filename, calls)
  | (None, calls) => ((imageID ++ ".jpg")%string, calls)
  end.

(** The loop of [SearchImage] over the search results. *)
Fixpoint convert_results (searchResults : list SearchResult)
  : list SearchResultWithDetails * list Call :=
  match searchResults with
  | [] => ([], [])
  | result :: rest =>
      let similarity := calculateSimilarity env (Distance result) in
      let '(actualFilePath, calls) := findActualImageFile (ImageID result) in
      let '(results, calls') := convert_results rest in
      ({| r_ImageID := ImageID result; r_Score := Score result;
          r_Distance := Distance result; r_ImagePath := actualFilePath;
          r_Similarity := similarity |} :: results,
       calls ++ calls')
  end.

Definition failure (code : Z) (message : string)
  : Z * SearchImageResponse :=
  (code, {| Success := false; Message := message; Results := []; Total := 0 |}).

(** ** SearchImage: the status and the body given to [c.JSON], and the calls
    made on the way. *)
Definition SearchImage (c : Context)
  : (Z * SearchImageResponse) * list Call :=
  let topKStr := DefaultQuery c "top_k" "10" in
  let '(topK, err) := strconv.Atoi topKStr in
  if (match err with Some _ => true | None => false end)
     || (topK <=? 0) || (100 <? topK) then
    (failure StatusBadRequest "无效的top_k参数 (1-100)", [])
  else
    match FormFile c "image" with
    | inr _ => (failure StatusBadRequest "没有找到查询图像文件", [])
    | inl file =>
        if negb (IsValidImageFormat env (Filename file)) then
          (failure StatusBadRequest "不支持的图像格式", [])
        else
          match LoadImageFromMultipart env file with
          | inr err =>
              (failure StatusInternalServerError
                 ("加载查询图像失败: " ++ Sprint_error env err),
               [CallLoadImage file])
          | inl img =>
              let '(queryFeatures, err) := ExtractFeatures env img in
              match err with
              | Some err =>
                  (failure StatusInternalServerError
                     ("查询图像特征提取失败: " ++ Sprint_error env err),
                   [CallLoadImage file; CallExtractFeatures img])
              | None =>
                  match SearchSimilar env queryFeatures topK with
                  | inr err =>
                      (failure StatusInternalServerError
                         ("搜索失败: " ++ Sprint_error env err),
                       [CallLoadImage file; CallExtractFeatures img;
                        CallSearchSimilar queryFeatures topK])
                  | inl searchResults =>
                      let '(results, calls) :=
                        convert_results searchResults in
                      ((StatusOK,
                        {| Success := true; Message := "搜索完成";
                           Results := results; Total := len results |}),
                       [CallLoadImage file; CallExtractFeatures img;
                        CallSearchSimilar queryFeatures topK] ++ calls)
                  end
              end
          end
    end.

End ImageHandler.

Arguments ID {float32} _.
Arguments Score {float32} _.
Arguments ImageID {float32} _.
Arguments Distance {float32} _.
Arguments Success {float32} _.
Arguments Message {float32} _.
Arguments Results {float32} _.
Arguments Total {float32} _.
Arguments CallLoadImage {float32} _.
Arguments CallExtractFeatures {float32} _.
Arguments CallSearchSimilar {float32} _ _.
Arguments CallStat {float32} _.
Arguments IsValidImageFormat {float32} _ _.
Arguments LoadImageFromMultipart {float32} _ _.
Arguments ExtractFeatures {float32} _ _.
Arguments SearchSimilar {float32} _ _ _.
Arguments file_exists {float32} _ _.
Arguments filepath_Join {float32} _ _ _.
Arguments UploadPath {float32} _.
Arguments calculateSimilarity {float32} _ _.
Arguments Sprint_error {float32} _ _.
Arguments find_with_extension {float32} _ _ _.
Arguments findActualImageFile {float32} _ _.
Arguments convert_results {float32} _ _.
Arguments failure {float32} _ _.
Arguments SearchImage {float32} _ _.

End handlers.

(* ===================================================================== *)
(** * Facts: the run-time conventions                                      *)
(* ===================================================================== *)

Section GoFacts.

Context {A : Type}.

Lemma len_nonneg (l : list A) : 0 <= len l.
Proof. unfold len. lia. Qed.

Lemma len_app (l1 l2 : list A) : len (l1 ++ l2) = len l1 + len l2.
Proof. unfold len. rewrite length_app. lia. Qed.

Lemma len_nil : len ([] : list A) = 0.
Proof. reflexivity. Qed.

Lemma len_cons (a : A) (l : list A) : len (a :: l) = len l + 1.
Proof. unfold len. cbn [List.length]. lia. Qed.

Lemma length_range (lo hi : Z) : List.length (range lo hi) = Z.to_nat (hi - lo).
Proof. unfold range. now rewrite length_map, length_seq. Qed.

Lemma range_empty (lo hi : Z) : hi <= lo -> range lo hi = [].
Proof.
  intros H. unfold range. replace (Z.to_nat (hi - lo)) with 0%nat by lia.
  reflexivity.
Qed.

Lemma range_cons (lo hi : Z) : lo < hi -> range lo hi = lo :: range (lo + 1) hi.
Proof.
  intros H. unfold range.
  replace (Z.to_nat (hi - lo)) with (S (Z.to_nat (hi - (lo + 1)))) by lia.
  cbn [seq map]. f_equal; [lia|].
  rewrite <- seq_shift, map_map. apply map_ext. intros k. lia.
Qed.

Lemma range_snoc (lo hi : Z) : lo <= hi -> range lo (hi + 1) = range lo hi ++ [hi].
Proof.
  intros H. unfold range.
  replace (Z.to_nat (hi + 1 - lo)) with (Z.to_nat (hi - lo) + 1)%nat by lia.
  rewrite seq_app, map_app. cbn [seq map]. do 2 f_equal. lia.
Qed.

Lemma in_range (lo hi x : Z) : In x (range lo hi) <-> lo <= x < hi.
Proof.
  unfold range. rewrite in_map_iff. split.
  - intros (k & <- & Hk). apply in_seq in Hk. lia.
  - intros H. exists (Z.to_nat (x - lo)). split; [lia|]. apply in_seq. lia.
Qed.

Lemma slice_ok (l : list A) (i j : Z) :
  0 <= i <= j -> j <= len l ->
  main.slice l i j = Ok (firstn (Z.to_nat (j - i)) (skipn (Z.to_nat i) l)).
Proof.
  intros Hij Hj. unfold main.slice.
  destruct (i <? 0) eqn:E1; [lia|].
  destruct (j <? i) eqn:E2; [lia|].
  destruct (len l <? j) eqn:E3; [lia|]. reflexivity.
Qed.

End GoFacts.

(* ===================================================================== *)
(** * Facts: the partition into batches (ProcessDataset)                   *)
(* ===================================================================== *)

Section Partition.

Variable imageFiles : list string.
Variable batchSize : Z.
Hypothesis batchSize_pos : 0 < batchSize.

Let N := len imageFiles.

(** Batch number [k] of the loop that starts at [i], as a slice. *)
Definition batch_slice (i k : Z) : list string :=
  firstn (Z.to_nat (Z.min (i + (k + 1) * batchSize) N - (i + k * batchSize)))
         (skipn (Z.to_nat (i + k * batchSize)) imageFiles).

Lemma batch_slice_shift (i k : Z) :
  batch_slice (i + batchSize) k = batch_slice i (k + 1).
Proof.
  unfold batch_slice.
  replace (i + batchSize + (k + 1) * batchSize)
    with (i + (k + 1 + 1) * batchSize) by lia.
  replace (i + batchSize + k * batchSize) with (i + (k + 1) * batchSize) by lia.
  reflexivity.
Qed.

Lemma send_batches_spec (fuel : nat) :
  forall i, 0 <= i -> Z.max 0 (N - i) < Z.of_nat fuel ->
  exists batches,
    main.send_batches fuel imageFiles batchSize i = Some (Ok batches)
    /\ List.concat batches = skipn (Z.to_nat i) imageFiles
    /\ Forall (fun b => 0 < len b <= batchSize) batches
    /\ len batches = (if i <? N then (N - i + batchSize - 1) / batchSize else 0)
    /\ forall k, (k < List.length batches)%nat ->
         nth k batches [] = batch_slice i (Z.of_nat k).
Proof.
  induction fuel as [|fuel IH]; intros i Hi Hfuel; [lia|].
  cbn [main.send_batches]. fold N.
  destruct (i <? N) eqn:HiN.
  - apply Z.ltb_lt in HiN.
    set (end_ := if N <? i + batchSize then N else i + batchSize).
    assert (Hend : end_ = Z.min (i + batchSize) N).
    { unfold end_. destruct (N <? i + batchSize) eqn:E; lia. }
    rewrite slice_ok by (fold N; lia).
    destruct (IH (i + batchSize)) as (rest & Hrest & Hcat & Hall & Hlen & Hnth);
      [lia | lia |].
    rewrite Hrest. eexists. split; [reflexivity|].
    assert (Hskip : List.length (skipn (Z.to_nat i) imageFiles)
                    = Z.to_nat (N - i)).
    { rewrite length_skipn. unfold N, len. lia. }
    repeat split.
    + cbn [List.concat]. rewrite Hcat.
      destruct (Z.le_gt_cases (i + batchSize) N) as [Hle|Hgt].
      * replace (Z.to_nat (end_ - i)) with (Z.to_nat batchSize) by lia.
        replace (Z.to_nat (i + batchSize))
          with (Z.to_nat batchSize + Z.to_nat i)%nat by lia.
        rewrite <- skipn_skipn. apply firstn_skipn.
      * rewrite firstn_all2 by lia.
        rewrite (skipn_all2 (n := Z.to_nat (i + batchSize)))
          by (unfold N, len in *; lia).
        apply app_nil_r.
    + constructor; [|exact Hall].
      unfold len. rewrite length_firstn, Hskip. lia.
    + rewrite len_cons, Hlen.
      destruct (i + batchSize <? N) eqn:E.
      * replace (N - i + batchSize - 1)
          with ((N - (i + batchSize) + batchSize - 1) + 1 * batchSize) by lia.
        rewrite Z.div_add by lia. lia.
      * apply Z.ltb_ge in E.
        apply Z.div_unique with (r := N - i - 1); lia.
    + intros [|k] Hk.
      * cbn [nth]. unfold batch_slice. cbn [Z.of_nat].
        replace (i + (0 + 1) * batchSize) with (i + batchSize) by lia.
        replace (i + 0 * batchSize) with i by lia.
        now rewrite Hend.
      * cbn [nth List.length] in *. rewrite Hnth by lia.
        rewrite batch_slice_shift. f_equal. lia.
  - exists []. repeat split; try constructor.
    + cbn [List.concat]. symmetry. apply skipn_all2.
      apply Z.ltb_ge in HiN. unfold N, len in HiN. lia.
    + intros k Hk. cbn in Hk. lia.
Qed.

End Partition.

(** A discovered list of 230 paths, all different. *)
Definition files230 : list string :=
  map (fun k => String (ascii_of_nat k) ".jpg") (seq 0 230).

(** C4.  With a positive batch size [B], the loop of [ProcessDataset] ends and
    sends [totalBatches] batches, which is [ceil(N/B)]: the least [k] with
    [N <= k*B]; every batch is non-empty and has at most [B] paths; batch [k]
    is the slice [[k*B, min((k+1)*B, N))] of the list; the batches
    concatenated in the order sent are the list; and 230 files with [B = 50]
    give five batches of sizes 50, 50, 50, 50, 30. *)
Theorem dispatch_partitions_in_order
  (imageFiles : list string) (batchSize : Z) (fuel : nat) :
  0 < batchSize ->
  len imageFiles < Z.of_nat fuel ->
  exists batches,
    main.dispatch fuel imageFiles batchSize = Some (Ok batches)
    /\ len batches = main.totalBatches imageFiles batchSize
    /\ (len batches - 1) * batchSize < len imageFiles <= len batches * batchSize
    /\ Forall (fun b => 0 < len b <= batchSize) batches
    /\ (forall k, 0 <= k < len batches ->
          main.slice imageFiles (k * batchSize)
            (Z.min ((k + 1) * batchSize) (len imageFiles))
          = Ok (nth (Z.to_nat k) batches []))
    /\ List.concat batches = imageFiles
    /\ (len imageFiles = 230 -> batchSize = 50 ->
          map len batches = [50; 50; 50; 50; 30]).
Proof.
  intros HB Hfuel. pose proof (len_nonneg imageFiles) as HN.
  destruct (send_batches_spec imageFiles batchSize HB fuel 0)
    as (batches & Hrun & Hcat & Hall & Hlen & Hnth); [lia | lia |].
  exists batches. rewrite Z.sub_0_r in Hlen.
  assert (Hcount : len batches = (len imageFiles + batchSize - 1) / batchSize).
  { destruct (0 <? len imageFiles) eqn:E; [exact Hlen|].
    apply Z.ltb_ge in E. rewrite Hlen. symmetry. apply Z.div_small. lia. }
  assert (Hslice : forall k, 0 <= k < len batches ->
            main.slice imageFiles (k * batchSize)
              (Z.min ((k + 1) * batchSize) (len imageFiles))
            = Ok (nth (Z.to_nat k) batches [])).
  { intros k Hk.
    assert (Hkb : k * batchSize < len imageFiles).
    { assert ((k + 1) * batchSize <= len batches * batchSize) by nia.
      rewrite Hcount in H.
      pose proof (Z.mul_div_le (len imageFiles + batchSize - 1) batchSize HB).
      lia. }
    rewrite slice_ok by nia.
    rewrite Hnth by (unfold len in Hk; lia).
    unfold batch_slice. rewrite Z2Nat.id by lia. cbn [Z.add]. reflexivity. }
  repeat split.
  - exact Hrun.
  - unfold main.totalBatches. rewrite Z.quot_div_nonneg by lia. exact Hcount.
  - rewrite Hcount.
    pose proof (Z.mul_div_le (len imageFiles + batchSize - 1) batchSize HB).
    lia.
  - rewrite Hcount.
    pose proof (Z.mul_succ_div_gt (len imageFiles + batchSize - 1) batchSize HB).
    lia.
  - exact Hall.
  - exact Hslice.
  - exact Hcat.
  - intros H230 H50. subst batchSize. rewrite H230 in *.
    change ((230 + 50 - 1) / 50) with 5 in Hcount.
    assert (Hsz : forall k, 0 <= k < 5 ->
              len (nth (Z.to_nat k) batches []) = Z.min ((k + 1) * 50) 230 - k * 50).
    { intros k Hk. specialize (Hslice k). rewrite Hcount in Hslice.
      specialize (Hslice Hk). rewrite slice_ok in Hslice by lia.
      injection Hslice as <-. unfold len.
      rewrite length_firstn, length_skipn. unfold len in H230. lia. }
    destruct batches as [|b0 [|b1 [|b2 [|b3 [|b4 [|b5 rest]]]]]];
      try (unfold len in Hcount; cbn in Hcount; lia).
    cbn [map].
    pose proof (Hsz 0 ltac:(lia)) as H0. pose proof (Hsz 1 ltac:(lia)) as H1.
    pose proof (Hsz 2 ltac:(lia)) as H2. pose proof (Hsz 3 ltac:(lia)) as H3.
    pose proof (Hsz 4 ltac:(lia)) as H4.
    change (Z.to_nat 0) with 0%nat in H0. change (Z.to_nat 1) with 1%nat in H1.
    change (Z.to_nat 2) with 2%nat in H2. change (Z.to_nat 3) with 3%nat in H3.
    change (Z.to_nat 4) with 4%nat in H4.
    cbn in H0, H1, H2, H3, H4. congruence.
Qed.

Lemma dispatch_partitions_in_order_witness :
  0 < 50 /\ len files230 < Z.of_nat 231 /\
  exists batches,
    main.dispatch 231 files230 50 = Some (Ok batches)
    /\ len batches = main.totalBatches files230 50
    /\ (len batches - 1) * 50 < len files230 <= len batches * 50
    /\ Forall (fun b => 0 < len b <= 50) batches
    /\ (forall k, 0 <= k < len batches ->
          main.slice files230 (k * 50) (Z.min ((k + 1) * 50) (len files230))
          = Ok (nth (Z.to_nat k) batches []))
    /\ List.concat batches = files230
    /\ (len files230 = 230 -> 50 = 50 ->
          map len batches = [50; 50; 50; 50; 30]).
Proof.
  split; [lia|]. split; [vm_compute; reflexivity|].
  apply (dispatch_partitions_in_order files230 50 231);
    [lia | vm_compute; reflexivity].
Defined.

(* ===================================================================== *)
(** * Facts: processBatch and worker                                       *)
(* ===================================================================== *)

Section BatchFacts.

Variable float32 : Type.
Variable env : main.Env float32.

Abbreviation World := (main.World float32).
Abbreviation Locals := (main.Locals float32).
Abbreviation process_item := (main.process_item env).
Abbreviation loop := (main.forM (main.process_item env)).

(** The locals of [processBatch] before its loop. *)
Definition no_locals : Locals :=
  {| main.imageIDs := []; main.vectors := []; main.successCount := 0;
     main.errorCount := 0 |}.

(** The locals after an item that went through: its identifier and its
    vector appended, [successCount++]. *)
Definition item_stored (l : Locals) (imageID : string) (features : list float32)
  : Locals :=
  {| main.imageIDs := main.imageIDs l ++ [imageID];
     main.vectors := main.vectors l ++ [features];
     main.successCount := main.successCount l + 1;
     main.errorCount := main.errorCount l |}.

(** The path of the canonical copy of [imagePath] under [imageID]. *)
Definition destPath_of (imageID imagePath : string) : string :=
  main.filepath_Join env (main.UploadPath env)
    (imageID ++ main.filepath_Ext env imagePath)%string.

(** The three ways an item fails, in the world [w] it is processed in. *)
Inductive item_failure (imagePath : string) (w : World) : Prop :=
| load_fails (err : error) :
    main.LoadImageFromFile env w imagePath = inr err ->
    item_failure imagePath w
| extract_fails (img : Image) (features : list float32) (err : error) :
    main.LoadImageFromFile env w imagePath = inl img ->
    main.ExtractFeatures env img = (features, Some err) ->
    item_failure imagePath w
| copy_fails (img : Image) (features : list float32) (err : error) :
    main.LoadImageFromFile env w imagePath = inl img ->
    main.ExtractFeatures env img = (features, None) ->
    fst (main.copyImageFile env imagePath
           (destPath_of (main.uuid_String env (main.uuid_calls w)) imagePath)
           (snd (main.uuid_New env w))) = Some err ->
    item_failure imagePath w.

(** An item that goes through all three steps: its identifier, its vector and
    the world after its copy is written. *)
Inductive item_success (imagePath : string) (w : World)
  (imageID : string) (features : list float32) (w' : World) : Prop :=
| item_ok (img : Image) :
    main.LoadImageFromFile env w imagePath = inl img ->
    main.ExtractFeatures env img = (features, None) ->
    imageID = main.uuid_String env (main.uuid_calls w) ->
    main.copyImageFile env imagePath (destPath_of imageID imagePath)
      (snd (main.uuid_New env w)) = (None, w') ->
    item_success imagePath w imageID features w'.

Lemma process_item_failure (l : Locals) (imagePath : string) (w : World) :
  item_failure imagePath w ->
  fst (process_item l imagePath w) = main.item_failed l.
Proof.
  intros [err Hload | img features err Hload Hext
          | img features err Hload Hext Hcopy];
    unfold main.process_item, main.bindM, main.ask; rewrite Hload.
  - reflexivity.
  - rewrite Hext. reflexivity.
  - rewrite Hext. unfold destPath_of in Hcopy.
    unfold main.uuid_New in *. cbn [snd] in Hcopy.
    destruct (main.copyImageFile _ _ _ _) as [copied w']. cbn [fst] in Hcopy.
    subst copied. reflexivity.
Qed.

Lemma process_item_success (l : Locals) (imagePath : string) (w w' : World)
  (imageID : string) (features : list float32) :
  item_success imagePath w imageID features w' ->
  process_item l imagePath w = (item_stored l imageID features, w').
Proof.
  intros [img Hload Hext -> Hcopy].
  unfold main.process_item, main.bindM, main.ask. rewrite Hload, Hext.
  unfold destPath_of in Hcopy. unfold main.uuid_New in *. cbn [snd] in Hcopy.
  rewrite Hcopy. reflexivity.
Qed.

(** Every item either fails or goes through. *)
Lemma item_cases (imagePath : string) (w : World) :
  item_failure imagePath w
  \/ exists imageID features w', item_success imagePath w imageID features w'.
Proof.
  destruct (main.LoadImageFromFile env w imagePath) as [img|err] eqn:Hload.
  - destruct (main.ExtractFeatures env img) as [features [err|]] eqn:Hext.
    + left. eapply extract_fails; eassumption.
    + destruct (main.copyImageFile env imagePath
                  (destPath_of (main.uuid_String env (main.uuid_calls w))
                     imagePath)
                  (snd (main.uuid_New env w))) as [[err|] w'] eqn:Hcopy.
      * left. eapply copy_fails; try eassumption. rewrite Hcopy. reflexivity.
      * right. do 3 eexists. econstructor; try eassumption. reflexivity.
  - left. eapply load_fails; eassumption.
Qed.

Lemma loop_app (xs ys : list string) (l : Locals) (w : World) :
  loop (xs ++ ys) l w = loop ys (fst (loop xs l w)) (snd (loop xs l w)).
Proof.
  revert l w. induction xs as [|x xs IH]; intros l w; [reflexivity|].
  cbn [app main.forM]. unfold main.bindM.
  destruct (process_item l x w) as [l1 w1]. apply IH.
Qed.

Lemma loop_cons (x : string) (xs : list string) (l : Locals) (w : World) :
  loop (x :: xs) l w
  = loop xs (fst (process_item l x w)) (snd (process_item l x w)).
Proof.
  cbn [main.forM]. unfold main.bindM.
  now destruct (process_item l x w).
Qed.

(** One iteration moves exactly one of the two counters, by one. *)
Lemma process_item_counts (l : Locals) (imagePath : string) (w : World) :
  let l' := fst (process_item l imagePath w) in
  (main.successCount l' = main.successCount l + 1
   /\ main.errorCount l' = main.errorCount l)
  \/ (main.successCount l' = main.successCount l
      /\ main.errorCount l' = main.errorCount l + 1).
Proof.
  destruct (item_cases imagePath w) as [Hf | (imageID & features & w' & Hs)].
  - right. cbv zeta. rewrite (process_item_failure l _ _ Hf). now split.
  - left. cbv zeta. rewrite (process_item_success l _ _ _ _ _ Hs). now split.
Qed.

(** The loop invariant of [processBatch]. *)
Lemma loop_invariant (imagePaths : list string) :
  forall (l : Locals) (w : World),
  let l' := fst (loop imagePaths l w) in
  main.successCount l' + main.errorCount l'
    = main.successCount l + main.errorCount l + len imagePaths
  /\ main.successCount l <= main.successCount l'
  /\ main.errorCount l <= main.errorCount l'
  /\ exists ids vs,
       main.imageIDs l' = main.imageIDs l ++ ids
       /\ main.vectors l' = main.vectors l ++ vs
       /\ len ids = main.successCount l' - main.successCount l
       /\ len vs = len ids.
Proof.
  induction imagePaths as [|x xs IH]; intros l w; cbv zeta.
  - cbn. repeat split; try lia. exists [], []. rewrite !app_nil_r.
    repeat split; cbn; lia.
  - rewrite loop_cons.
    specialize (IH (fst (process_item l x w)) (snd (process_item l x w))).
    cbv zeta in IH.
    destruct IH as (Hsum & Hs & He & ids & vs & Hids & Hvs & Hlen & Hlen').
    rewrite len_cons.
    destruct (item_cases x w) as [Hf | (imageID & features & w' & Hok)].
    + pose proof (process_item_failure l _ _ Hf) as E.
      destruct (process_item l x w) as [l1 w1]. cbn [fst snd] in *. subst l1.
      unfold main.item_failed in *.
      cbn [main.successCount main.errorCount main.imageIDs main.vectors] in *.
      repeat split; try lia. exists ids, vs. repeat split; auto.
    + pose proof (process_item_success l _ _ _ _ _ Hok) as E.
      destruct (process_item l x w) as [l1 w1]. cbn [fst snd] in *.
      injection E as -> ->. unfold item_stored in *.
      cbn [main.successCount main.errorCount main.imageIDs main.vectors] in *.
      repeat split; try lia. exists (imageID :: ids), (features :: vs).
      rewrite Hids, Hvs, <- !app_assoc. cbn [app].
      repeat split; rewrite ?len_cons; lia.
Qed.

(** The identifiers and the vectors the loop has accumulated, paired. *)
Definition pairs (l : Locals) : list (string * list float32) :=
  combine (main.imageIDs l) (main.vectors l).

Definition aligned (l : Locals) : Prop :=
  len (main.imageIDs l) = len (main.vectors l).

Lemma combine_append {A B : Type} (l1 l2 : list A) (m1 m2 : list B) :
  List.length l1 = List.length m1 ->
  combine (l1 ++ l2) (m1 ++ m2) = combine l1 m1 ++ combine l2 m2.
Proof.
  revert m1. induction l1 as [|a l1 IH]; intros [|b m1] H; cbn in *;
    try discriminate; [reflexivity|].
  f_equal. apply IH. lia.
Qed.

Lemma loop_aligned (imagePaths : list string) (l : Locals) (w : World) :
  aligned l ->
  aligned (fst (loop imagePaths l w))
  /\ exists ps, pairs (fst (loop imagePaths l w)) = pairs l ++ ps.
Proof.
  intros Hal.
  destruct (loop_invariant imagePaths l w)
    as (_ & _ & _ & ids & vs & Hids & Hvs & _ & Hlen).
  unfold aligned, pairs in *. rewrite Hids, Hvs. split.
  - rewrite !len_app. lia.
  - exists (combine ids vs). apply combine_append. unfold len in Hal. lia.
Qed.

(** The loop of [processBatch] never calls the vector store. *)
Lemma process_item_insert_calls (l : Locals) (imagePath : string) (w : World) :
  main.insert_calls (snd (process_item l imagePath w)) = main.insert_calls w.
Proof.
  unfold main.process_item, main.bindM, main.ask, main.ret.
  destruct (main.LoadImageFromFile env w imagePath) as [img|err];
    [|reflexivity].
  destruct (main.ExtractFeatures env img) as [features [err|]]; [reflexivity|].
  unfold main.uuid_New, main.copyImageFile, main.bindM, main.ask, main.ret,
    main.saveImage.
  destruct (main.MkdirAll env _ _); [reflexivity|].
  destruct (main.LoadImageFromFile env _ _) as [img'|err]; [|reflexivity].
  destruct (main.SaveImage env _ _ _); reflexivity.
Qed.

Lemma loop_insert_calls (imagePaths : list string) :
  forall (l : Locals) (w : World),
  main.insert_calls (snd (loop imagePaths l w)) = main.insert_calls w.
Proof.
  induction imagePaths as [|x xs IH]; intros l w; [reflexivity|].
  rewrite loop_cons, IH. apply process_item_insert_calls.
Qed.

(** [InsertVectors] on as many identifiers as vectors calls [client.Insert]
    once, with them, and writes no file. *)
Lemma InsertVectors_effect (ids : list string) (vs : list (list float32))
  (w : World) :
  len ids = len vs ->
  main.insert_calls (snd (main.InsertVectors env ids vs w))
    = main.insert_calls w ++ [(ids, vs)]
  /\ main.uploads (snd (main.InsertVectors env ids vs w)) = main.uploads w.
Proof.
  intros Hlen. unfold main.InsertVectors.
  rewrite (proj2 (Z.eqb_eq _ _) Hlen). cbn [negb].
  destruct (main.client_Insert env w ids vs); [now split|].
  destruct (main.client_Flush env _); now split.
Qed.

(** The result of a batch that went through, and of one whose insert failed. *)
Definition batch_done (batchID : string) (l : Locals) : main.BatchResult :=
  {| main.Success := true; main.ProcessedCount := main.successCount l;
     main.ErrorCount := main.errorCount l; main.BatchID := batchID;
     main.Error := None |}.

Definition batch_failed (batchID : string) (imagePaths : list string)
  (err : error) : main.BatchResult :=
  {| main.Success := false; main.ProcessedCount := 0;
     main.ErrorCount := len imagePaths; main.BatchID := batchID;
     main.Error := Some err |}.

(** The identifier of the batch that starts in [w]. *)
Definition batchID_of (w : World) : string :=
  substring 0 8 (main.uuid_String env (main.uuid_calls w)).

(** The locals and the world after the loop of the batch that starts in [w]. *)
Definition after_loop (imagePaths : list string) (w : World) : Locals * World :=
  loop imagePaths no_locals (snd (main.uuid_New env w)).

Lemma processBatch_unfold (imagePaths : list string) (w : World) :
  main.processBatch env imagePaths w
  = let l := fst (after_loop imagePaths w) in
    let w1 := snd (after_loop imagePaths w) in
    if 0 <? len (main.imageIDs l) then
      match main.InsertVectors env (main.imageIDs l) (main.vectors l) w1 with
      | (Some err, w2) => (batch_failed (batchID_of w) imagePaths err, w2)
      | (None, w2) => (batch_done (batchID_of w) l, w2)
      end
    else (batch_done (batchID_of w) l, w1).
Proof.
  unfold main.processBatch, after_loop, main.bindM, no_locals, batchID_of.
  cbn [main.uuid_New fst snd].
  destruct (main.forM _ imagePaths _ _) as [l w1]. cbn [fst snd].
  destruct (0 <? len (main.imageIDs l)); [|reflexivity].
  destruct (main.InsertVectors env _ _ w1) as [[err|] w2]; reflexivity.
Qed.

Lemma worker_cons (batch : list string) (jobs : list (list string))
  (w : World) :
  fst (main.worker env (batch :: jobs) w)
  = fst (main.processBatch env batch w)
    :: fst (main.worker env jobs (snd (main.processBatch env batch w))).
Proof.
  cbn [main.worker]. unfold main.bindM, main.ret.
  destruct (main.processBatch env batch w) as [r w1]. cbn [fst snd].
  now destruct (main.worker env jobs w1).
Qed.

Lemma worker_results (jobs : list (list string)) :
  forall w : World, len (fst (main.worker env jobs w)) = len jobs.
Proof.
  induction jobs as [|batch jobs IH]; intros w; [reflexivity|].
  rewrite worker_cons, !len_cons, IH. reflexivity.
Qed.

(** C3.  The result of [processBatch] on any batch, in any state of the
    world, has [ProcessedCount + ErrorCount = len(batch)].  Either the
    batch went through, the two counts are the loop's [successCount] and
    [errorCount], and these add up to the length; or the insert failed and
    the counts are 0 and the length.  In the loop every item moves exactly
    one of the two counters, by one. *)
Theorem processBatch_counts_add_up (imagePaths : list string) (w : World) :
  let r := fst (main.processBatch env imagePaths w) in
  let l := fst (after_loop imagePaths w) in
  main.ProcessedCount r + main.ErrorCount r = len imagePaths
  /\ ((main.Success r = true
       /\ main.ProcessedCount r = main.successCount l
       /\ main.ErrorCount r = main.errorCount l
       /\ main.successCount l + main.errorCount l = len imagePaths)
      \/ (main.Success r = false
          /\ main.ProcessedCount r = 0
          /\ main.ErrorCount r = len imagePaths))
  /\ (forall (l0 : Locals) (imagePath : string) (w0 : World),
        let l' := fst (process_item l0 imagePath w0) in
        (main.successCount l' = main.successCount l0 + 1
         /\ main.errorCount l' = main.errorCount l0)
        \/ (main.successCount l' = main.successCount l0
            /\ main.errorCount l' = main.errorCount l0 + 1)).
Proof.
  cbv zeta. rewrite processBatch_unfold. cbv zeta.
  destruct (loop_invariant imagePaths no_locals (snd (main.uuid_New env w)))
    as (Hsum & _). cbn [no_locals main.successCount main.errorCount] in Hsum.
  fold (after_loop imagePaths w) in Hsum.
  assert (Hdone : forall w' : World,
    let r := fst (batch_done (batchID_of w) (fst (after_loop imagePaths w)), w') in
    main.ProcessedCount r + main.ErrorCount r = len imagePaths
    /\ ((main.Success r = true
         /\ main.ProcessedCount r
            = main.successCount (fst (after_loop imagePaths w))
         /\ main.ErrorCount r = main.errorCount (fst (after_loop imagePaths w))
         /\ main.successCount (fst (after_loop imagePaths w))
            + main.errorCount (fst (after_loop imagePaths w)) = len imagePaths)
        \/ (main.Success r = false
            /\ main.ProcessedCount r = 0
            /\ main.ErrorCount r = len imagePaths))).
  { intros w'. cbn. split; [lia|]. left. repeat split; lia. }
  split; [|split].
  - destruct (0 <? len _); [|apply Hdone].
    destruct (main.InsertVectors env _ _ _) as [[err|] w2]; [|apply Hdone].
    cbn. lia.
  - destruct (0 <? len _); [|apply Hdone].
    destruct (main.InsertVectors env _ _ _) as [[err|] w2]; [|apply Hdone].
    right. cbn. repeat split.
  - intros l0 imagePath w0. apply process_item_counts.
Qed.

(** C5.  When at least one item of the batch went through and the call of
    [InsertVectors] fails, the result of [processBatch] is a failure with
    [ProcessedCount = 0], [ErrorCount = len(batch)] and the error of the
    call; the copies written by the loop stay; and the worker goes on: its
    results are this one followed by those of the batches left, one result
    for every batch. *)
Theorem insert_failure_fails_whole_batch
  (imagePaths : list string) (jobs : list (list string)) (w : World)
  (err : error) :
  let l := fst (after_loop imagePaths w) in
  let w1 := snd (after_loop imagePaths w) in
  0 < len (main.imageIDs l) ->
  fst (main.InsertVectors env (main.imageIDs l) (main.vectors l) w1)
    = Some err ->
  let r := fst (main.processBatch env imagePaths w) in
  let w2 := snd (main.processBatch env imagePaths w) in
  r = batch_failed (batchID_of w) imagePaths err
  /\ main.Success r = false
  /\ main.ProcessedCount r = 0
  /\ main.ErrorCount r = len imagePaths
  /\ main.Error r = Some err
  /\ main.uploads w2 = main.uploads w1
  /\ fst (main.worker env (imagePaths :: jobs) w)
     = r :: fst (main.worker env jobs w2)
  /\ len (fst (main.worker env (imagePaths :: jobs) w)) = len jobs + 1.
Proof.
  cbv zeta. intros Hsome Hfail.
  rewrite worker_results, len_cons, worker_cons.
  assert (Hal : aligned (fst (after_loop imagePaths w))).
  { apply loop_aligned. reflexivity. }
  pose proof (InsertVectors_effect _ _ (snd (after_loop imagePaths w)) Hal)
    as [_ Hup].
  rewrite processBatch_unfold. cbv zeta.
  rewrite (proj2 (Z.ltb_lt _ _) Hsome).
  destruct (main.InsertVectors env _ _ _) as [[err'|] w2];
    cbn [fst snd] in *; [|discriminate].
  injection Hfail as ->. repeat split; auto.
Qed.

Lemma pairs_item_stored (l : Locals) (imageID : string)
  (features : list float32) :
  aligned l ->
  aligned (item_stored l imageID features)
  /\ pairs (item_stored l imageID features) = pairs l ++ [(imageID, features)].
Proof.
  intros Hal. unfold aligned, pairs, item_stored in *. cbn. split.
  - rewrite !len_app. cbn. lia.
  - change [(imageID, features)] with (combine [imageID] [features]).
    apply combine_append. unfold len in Hal. lia.
Qed.

(** C9.  Let an item of a batch fail (its load, its feature extraction or its
    copy) in the state the loop reaches it in.  Then the item only adds one to
    [errorCount]: the identifiers, the vectors and [successCount] are as
    before it.  The loop goes on with the items after it: the locals after the
    whole batch are those of the loop over the remaining items, started from
    there.  Every remaining item that goes through has its identifier and
    its vector among the accumulated pairs, after those accumulated before
    the failure.  And [processBatch] makes one call of [client.Insert], with
    all the accumulated identifiers and vectors, when there is any, and none
    otherwise. *)
Theorem item_failure_keeps_batch_going
  (before rest : list string) (imagePath : string) (w : World) :
  let s1 := after_loop before w in
  item_failure imagePath (snd s1) ->
  let s2 := process_item (fst s1) imagePath (snd s1) in
  let s3 := loop rest (fst s2) (snd s2) in
  let batch := before ++ imagePath :: rest in
  fst s2 = main.item_failed (fst s1)
  /\ main.imageIDs (fst s2) = main.imageIDs (fst s1)
  /\ main.vectors (fst s2) = main.vectors (fst s1)
  /\ main.successCount (fst s2) = main.successCount (fst s1)
  /\ main.errorCount (fst s2) = main.errorCount (fst s1) + 1
  /\ after_loop batch w = s3
  /\ (exists ps, pairs (fst s3) = pairs (fst s1) ++ ps)
  /\ (forall mid q after imageID features w',
        rest = mid ++ q :: after ->
        item_success q (snd (loop mid (fst s2) (snd s2))) imageID features w' ->
        In (imageID, features) (pairs (fst s3)))
  /\ main.insert_calls (snd (main.processBatch env batch w))
     = main.insert_calls w
       ++ (if 0 <? len (main.imageIDs (fst s3))
           then [(main.imageIDs (fst s3), main.vectors (fst s3))] else []).
Proof.
  cbv zeta. intros Hfail.
  pose proof (process_item_failure (fst (after_loop before w)) _ _ Hfail) as E.
  assert (Hloop : after_loop (before ++ imagePath :: rest) w
                  = loop rest
                      (fst (process_item (fst (after_loop before w)) imagePath
                              (snd (after_loop before w))))
                      (snd (process_item (fst (after_loop before w)) imagePath
                              (snd (after_loop before w))))).
  { unfold after_loop. rewrite loop_app, loop_cons. reflexivity. }
  assert (Hal1 : aligned (fst (after_loop before w))).
  { apply loop_aligned. reflexivity. }
  assert (Hal2 : aligned (main.item_failed (fst (after_loop before w)))).
  { exact Hal1. }
  rewrite E. split; [reflexivity|]. do 4 (split; [reflexivity|]).
  split; [now rewrite Hloop, E|]. split; [|split].
  - apply (loop_aligned rest _ _ Hal2).
  - intros mid q after imageID features w' -> Hok.
    rewrite loop_app, loop_cons.
    rewrite (process_item_success _ _ _ _ _ _ Hok). cbn [fst snd].
    destruct (loop_aligned mid _
                (snd (process_item (fst (after_loop before w)) imagePath
                        (snd (after_loop before w)))) Hal2) as [Halm _].
    destruct (pairs_item_stored _ imageID features Halm) as [Hals Hps].
    destruct (loop_aligned after _ w' Hals) as [_ [ps ->]].
    rewrite Hps. apply in_or_app. left. apply in_or_app. right. now left.
  - rewrite processBatch_unfold. cbv zeta. rewrite Hloop, E.
    set (s3 := loop rest _ _).
    assert (Hcalls : main.insert_calls (snd s3) = main.insert_calls w).
    { unfold s3. rewrite loop_insert_calls.
      rewrite process_item_insert_calls. unfold after_loop.
      rewrite loop_insert_calls. reflexivity. }
    assert (Hal3 : aligned (fst s3)) by (apply loop_aligned; exact Hal2).
    destruct (0 <? len (main.imageIDs (fst s3))).
    + pose proof (InsertVectors_effect _ _ (snd s3) Hal3) as [Hins _].
      destruct (main.InsertVectors env _ _ (snd s3)) as [[err|] w2];
        cbn [fst snd] in *; now rewrite Hins, Hcalls.
    + cbn [snd]. now rewrite app_nil_r.
Qed.

End BatchFacts.

Arguments no_locals {float32}.
Arguments item_stored {float32} _ _ _.
Arguments item_failure {float32} _ _ _.
Arguments item_success {float32} _ _ _ _ _ _.
Arguments pairs {float32} _.
Arguments batch_done {float32} _ _.
Arguments batchID_of {float32} _ _.
Arguments after_loop {float32} _ _ _.

(** A small world to run the inserter in: vectors of integers, a decoder
    that refuses the paths starting with [bad], a store that answers every
    insert with [insert_error]. *)
Module demo.

Definition pixel : Color :=
  {| red := 65535; green := 65535; blue := 65535; alpha := 65535 |}.

Definition picture : Image :=
  {| Bounds := {| Min := {| X := 0; Y := 0 |}; Max := {| X := 2; Y := 2 |} |};
     At := fun _ _ => pixel |}.

Definition env (insert_error : option error) : main.Env Z :=
  {| main.uuid_String :=
       fun k => ("3f2a91c" ++ String (ascii_of_nat (48 + k)) "-0000-4000")%string;
     main.filepath_Join := fun dir file => (dir ++ "/" ++ file)%string;
     main.filepath_Ext := fun _ => ".jpg"%string;
     main.filepath_Dir := fun _ => "./uploads"%string;
     main.UploadPath := "./uploads"%string;
     main.MkdirAll := fun _ _ => None;
     main.LoadImageFromFile :=
       fun _ path =>
         if prefix "bad" path then inr "image: unknown format"%string
         else inl picture;
     main.SaveImage := fun _ _ _ => None;
     main.ExtractFeatures := fun _ => ([1; 0], None);
     main.client_Insert := fun _ _ _ => insert_error;
     main.client_Flush := fun _ => None |}.

Definition world : main.World Z :=
  {| main.uuid_calls := 0; main.uploads := []; main.insert_calls := [];
     main.inserted := []; main.flushes := 0 |}.

End demo.

Lemma insert_failure_fails_whole_batch_witness :
  let env := demo.env (Some "connection refused"%string) in
  let batch := ["a.jpg"; "bad.jpg"; "c.jpg"]%string in
  let r := fst (main.processBatch env batch demo.world) in
  0 < len (main.imageIDs (fst (after_loop env batch demo.world)))
  /\ main.Success r = false
  /\ main.ProcessedCount r = 0
  /\ main.ErrorCount r = 3
  /\ len (fst (main.worker env [batch; ["d.jpg"]%string] demo.world)) = 2.
Proof.
  cbv zeta.
  assert (H1 : 0 < len (main.imageIDs
                   (fst (after_loop (demo.env (Some "connection refused"%string))
                           ["a.jpg"; "bad.jpg"; "c.jpg"]%string demo.world))))
    by (vm_compute; reflexivity).
  split; [exact H1|].
  destruct (insert_failure_fails_whole_batch Z
              (demo.env (Some "connection refused"%string))
              ["a.jpg"; "bad.jpg"; "c.jpg"]%string [["d.jpg"]%string]
              demo.world "插入向量失败: connection refused"%string H1)
    as (_ & Hs & Hp & He & _ & _ & _ & Hw).
  - vm_compute. reflexivity.
  - repeat split; assumption.
Defined.

Lemma item_failure_keeps_batch_going_witness :
  let env := demo.env None in
  let batch := ["a.jpg"%string] ++ "bad.jpg"%string :: ["c.jpg"%string] in
  item_failure env "bad.jpg" (snd (after_loop env ["a.jpg"]%string demo.world))
  /\ main.insert_calls (snd (main.processBatch env batch demo.world))
     = main.insert_calls demo.world
       ++ [(main.imageIDs (fst (after_loop env batch demo.world)),
            main.vectors (fst (after_loop env batch demo.world)))]
  /\ main.imageIDs (fst (after_loop env batch demo.world))
     = ["3f2a91c1-0000-4000"; "3f2a91c2-0000-4000"]%string.
Proof.
  cbv zeta.
  assert (H1 : item_failure (demo.env None) "bad.jpg"
                 (snd (after_loop (demo.env None) ["a.jpg"]%string demo.world))).
  { eapply load_fails. vm_compute. reflexivity. }
  split; [exact H1|].
  destruct (item_failure_keeps_batch_going Z (demo.env None)
              ["a.jpg"]%string ["c.jpg"]%string "bad.jpg"%string demo.world H1)
    as (_ & _ & _ & _ & _ & Hloop & _ & _ & Hcalls).
  split.
  - rewrite Hcalls, <- Hloop. reflexivity.
  - vm_compute. reflexivity.
Defined.

(* ===================================================================== *)
(** * Facts: SearchImage and its top_k parameter                           *)
(* ===================================================================== *)

(** What the handler accepts as [top_k]: a string [Atoi] reads without error
    as an integer from 1 to 100. *)
Definition valid_top_k (s : string) : bool :=
  match strconv.Atoi s with
  | (n, None) => (1 <=? n) && (n <=? 100)
  | (_, Some _) => false
  end.

Section SearchFacts.

Variable float32 : Type.
Variable env : handlers.Env float32.

(** The answer to a bad [top_k]: status 400, no result, and no call made. *)
Definition top_k_rejected
  : (Z * handlers.SearchImageResponse float32) * list (handlers.Call float32) :=
  (handlers.failure handlers.StatusBadRequest "无效的top_k参数 (1-100)", []).

(** A call of [os.Stat]. *)
Definition is_stat (call : handlers.Call float32) : Prop :=
  match call with
  | handlers.CallStat _ => True
  | _ => False
  end.

Lemma find_with_extension_stats (imageID : string) (extensions : list string) :
  Forall is_stat (snd (handlers.find_with_extension env imageID extensions)).
Proof.
  induction extensions as [|ext rest IH]; cbn [handlers.find_with_extension].
  - constructor.
  - destruct (handlers.file_exists env _).
    + repeat constructor.
    + destruct (handlers.find_with_extension env imageID rest) as [found calls].
      constructor; [exact I | exact IH].
Qed.

Lemma convert_results_stats
  (searchResults : list (handlers.SearchResult float32)) :
  Forall is_stat (snd (handlers.convert_results env searchResults)).
Proof.
  induction searchResults as [|result rest IH];
    cbn [handlers.convert_results]; [constructor|].
  unfold handlers.findActualImageFile.
  pose proof (find_with_extension_stats (handlers.ImageID result)
                [".jpg"; ".jpeg"; ".png"; ".bmp"; ".tiff"; ".gif"]%string) as H.
  destruct (handlers.find_with_extension env _ _) as [[filename|] calls];
    destruct (handlers.convert_results env rest) as [results calls'];
    cbn [snd] in *; apply Forall_app; split; assumption.
Qed.

Lemma valid_top_k_spec (s : string) :
  valid_top_k s = true
  <-> exists n, strconv.Atoi s = (n, None) /\ 1 <= n <= 100.
Proof.
  unfold valid_top_k. destruct (strconv.Atoi s) as [n [err|]]; split.
  - discriminate.
  - intros (m & H & _). discriminate.
  - intros H. apply andb_true_iff in H. exists n. split; [reflexivity|lia].
  - intros (m & H & Hm). injection H as ->. apply andb_true_iff. lia.
Qed.

(** C10.  [top_k] is the first value of the query key when the key is there
    and ["10"] otherwise, and ["10"] is accepted.  A value is accepted exactly
    when [Atoi] reads it without error as an integer from 1 to 100.  When it
    is not accepted, [SearchImage] answers 400 with a failure body and makes
    no call at all: no image is loaded, no feature extracted, no search
    made.  When it is accepted the answer is another one, and a search, if
    one is made, asks for that many results. *)
Theorem SearchImage_checks_top_k (c : handlers.Context) :
  let topKStr := handlers.DefaultQuery c "top_k" "10" in
  let answer := handlers.SearchImage env c in
  topKStr = (if snd (handlers.GetQuery c "top_k")
             then fst (handlers.GetQuery c "top_k") else "10"%string)
  /\ valid_top_k "10" = true
  /\ (valid_top_k topKStr = true
      <-> exists n, strconv.Atoi topKStr = (n, None) /\ 1 <= n <= 100)
  /\ (if valid_top_k topKStr
      then answer <> top_k_rejected
           /\ forall queryVector topK,
                In (handlers.CallSearchSimilar queryVector topK) (snd answer) ->
                topK = fst (strconv.Atoi topKStr)
      else answer = top_k_rejected
           /\ fst (fst answer) = handlers.StatusBadRequest
           /\ handlers.Success (snd (fst answer)) = false
           /\ snd answer = []).
Proof.
  cbv zeta. split; [|split; [|split]].
  - unfold handlers.DefaultQuery.
    now destruct (handlers.GetQuery c "top_k") as [value [|]].
  - reflexivity.
  - apply valid_top_k_spec.
  - unfold handlers.SearchImage, valid_top_k.
    destruct (strconv.Atoi (handlers.DefaultQuery c "top_k" "10"))
      as [topK [err|]]; cbn [orb fst]; [now repeat split|].
    destruct (topK <=? 0) eqn:E1.
    { replace (1 <=? topK) with false by (symmetry; apply Z.leb_gt; lia).
      now repeat split. }
    replace (1 <=? topK) with true by (symmetry; apply Z.leb_le; lia).
    cbn [orb andb]. rewrite Z.leb_antisym.
    destruct (100 <? topK); cbn [negb]; [now repeat split|].
    unfold top_k_rejected, handlers.failure.
    destruct (handlers.FormFile c "image") as [file|e].
    2: { split; [discriminate|]. intros v k []. }
    destruct (handlers.IsValidImageFormat env _); cbn [negb].
    2: { split; [discriminate|]. intros v k []. }
    destruct (handlers.LoadImageFromMultipart env file) as [img|e].
    2: { split; [discriminate|]. intros v k [H|[]]. discriminate. }
    destruct (handlers.ExtractFeatures env img) as [queryFeatures [e|]].
    { split; [discriminate|]. intros v k [H|[H|[]]]; discriminate. }
    destruct (handlers.SearchSimilar env queryFeatures topK)
      as [searchResults|e].
    2: { split; [discriminate|]. intros v k [H|[H|[H|[]]]]; try discriminate.
         now injection H. }
    pose proof (convert_results_stats searchResults) as Hstat.
    destruct (handlers.convert_results env searchResults) as [results calls].
    cbn [snd] in *. split; [discriminate|].
    intros v k [H|[H|[H|H]]]; try discriminate; [now injection H|].
    rewrite Forall_forall in Hstat. destruct (Hstat _ H).
Qed.

End SearchFacts.

(* ===================================================================== *)
(** * Facts: loops over the pixels                                         *)
(* ===================================================================== *)

Section Folds.

Context {A B C : Type}.

Lemma fold_left_flat_map (f : B -> C -> B) (g : A -> list C) (l : list A)
  (acc : B) :
  fold_left f (flat_map g l) acc
  = fold_left (fun acc a => fold_left f (g a) acc) l acc.
Proof.
  revert acc. induction l as [|a l IH]; intros acc; [reflexivity|].
  cbn [flat_map fold_left]. rewrite fold_left_app. apply IH.
Qed.

Lemma fold_left_map (f : B -> C -> B) (g : A -> C) (l : list A) (acc : B) :
  fold_left f (map g l) acc = fold_left (fun acc a => f acc (g a)) l acc.
Proof.
  revert acc. induction l as [|a l IH]; intros acc; [reflexivity|].
  cbn [map fold_left]. apply IH.
Qed.

Lemma fold_left_ext_in (f g : B -> A -> B) (l : list A) (acc : B) :
  (forall b a, In a l -> f b a = g b a) ->
  fold_left f l acc = fold_left g l acc.
Proof.
  revert acc. induction l as [|a l IH]; intros acc H; [reflexivity|].
  cbn [fold_left]. rewrite H by now left. apply IH.
  intros b a' Ha. apply H. now right.
Qed.

End Folds.

(** The coordinates a loop [for y { for x { ... } }] over a rectangle visits,
    in the order it visits them. *)
Definition coords (x0 x1 y0 y1 : Z) : list (Z * Z) :=
  flat_map (fun y => map (fun x => (x, y)) (range x0 x1)) (range y0 y1).

(** The pixels of an image in that order. *)
Definition pixels (img : Image) : list Color :=
  let b := Bounds img in
  map (fun p => At img (fst p) (snd p))
    (coords (X (Min b)) (X (Max b)) (Y (Min b)) (Y (Max b))).

(** An image whose bounds are well formed ([Min <= Max] on both axes). *)
Definition well_formed (img : Image) : Prop :=
  0 <= Dx (Bounds img) /\ 0 <= Dy (Bounds img).

Lemma fold_rows_cols {B : Type} (f : B -> Z * Z -> B) (x0 x1 y0 y1 : Z)
  (acc : B) :
  fold_left (fun acc y => fold_left (fun acc x => f acc (x, y)) (range x0 x1) acc)
    (range y0 y1) acc
  = fold_left f (coords x0 x1 y0 y1) acc.
Proof.
  unfold coords. rewrite fold_left_flat_map.
  apply fold_left_ext_in. intros b y _. now rewrite fold_left_map.
Qed.

Lemma length_coords (x0 x1 y0 y1 : Z) :
  len (coords x0 x1 y0 y1) = Z.max 0 (x1 - x0) * Z.max 0 (y1 - y0).
Proof.
  unfold coords, len.
  assert (H : forall l : list Z,
             List.length (flat_map (fun y => map (fun x => (x, y)) (range x0 x1)) l)
             = (List.length l * Z.to_nat (x1 - x0))%nat).
  { induction l as [|y l IH]; [reflexivity|].
    cbn [flat_map]. rewrite length_app, length_map, length_range, IH.
    cbn [List.length]. lia. }
  rewrite H, length_range, Nat2Z.inj_mul, !ZifyInst.of_nat_to_nat_eq. lia.
Qed.

Lemma in_coords (x0 x1 y0 y1 x y : Z) :
  In (x, y) (coords x0 x1 y0 y1) <-> (x0 <= x < x1 /\ y0 <= y < y1).
Proof.
  unfold coords. rewrite in_flat_map. split.
  - intros (y' & Hy & Hin). apply in_map_iff in Hin as (x' & E & Hx).
    injection E as <- <-. apply in_range in Hy, Hx. now split.
  - intros [Hx Hy]. exists y. split; [now apply in_range|].
    apply in_map_iff. exists x. split; [reflexivity | now apply in_range].
Qed.

Lemma length_pixels (img : Image) :
  well_formed img -> len (pixels img) = Dx (Bounds img) * Dy (Bounds img).
Proof.
  intros [Hx Hy]. unfold pixels, len. rewrite length_map.
  fold (len (coords (X (Min (Bounds img))) (X (Max (Bounds img)))
               (Y (Min (Bounds img))) (Y (Max (Bounds img))))).
  rewrite length_coords. unfold Dx, Dy in *. rewrite !Z.max_r by lia.
  reflexivity.
Qed.

(* ===================================================================== *)
(** * Facts: the colour histogram                                          *)
(* ===================================================================== *)

Section SliceFacts.

Context {A : Type}.

Lemma length_set_nth (l : list A) (i : nat) (v : A) :
  List.length (set_nth l i v) = List.length l.
Proof.
  revert i. induction l as [|a l IH]; intros [|i]; cbn; auto.
Qed.

Lemma nth_set_nth (l : list A) (i j : nat) (v d : A) :
  (i < List.length l)%nat ->
  nth j (set_nth l i v) d = if Nat.eqb j i then v else nth j l d.
Proof.
  revert i j. induction l as [|a l IH]; intros [|i] [|j] H; cbn in *;
    try lia; auto. apply IH. lia.
Qed.

Lemma length_set_at (l : list A) (i : Z) (v : A) :
  List.length (set_at l i v) = List.length l.
Proof.
  unfold set_at. destruct (i <? 0); [reflexivity | apply length_set_nth].
Qed.

Lemma nth_set_at (l : list A) (i : Z) (j : nat) (v d : A) :
  0 <= i < len l ->
  nth j (set_at l i v) d = if Z.of_nat j =? i then v else nth j l d.
Proof.
  intros H. unfold set_at. destruct (i <? 0) eqn:E; [lia|].
  rewrite nth_set_nth by (unfold len in H; lia).
  destruct (Nat.eqb_spec j (Z.to_nat i)), (Z.eqb_spec (Z.of_nat j) i);
    try reflexivity; lia.
Qed.

End SliceFacts.

(** The three channels of a pixel as [RGBA()] returns them. *)
Definition channel_r (c : Color) : Z := uint32 (red c).
Definition channel_g (c : Color) : Z := uint32 (green c).
Definition channel_b (c : Color) : Z := uint32 (blue c).

(** The 8-bit value of a channel: [c >> 8]. *)
Definition byte_of (c : Z) : Z := Z.shiftr c 8.

(** The number of pixels whose channel [ch] falls in bin [i]. *)
Definition count_bin (ch : Color -> Z) (px : list Color) (i : Z) : Z :=
  len (filter (fun c => models.bin_of (ch c) =? i) px).

(** The histogram of one channel, as the loop builds it. *)
Definition hist_channel (ch : Color -> Z) (px : list Color) (hist : list Z)
  : list Z :=
  fold_left (fun hist c => models.incr hist (models.bin_of (ch c))) px hist.

Definition zsum (l : list Z) : Z := fold_right Z.add 0 l.

Lemma uint32_range (z : Z) : 0 <= uint32 z < 2 ^ 32.
Proof. unfold uint32. apply Z.mod_pos_bound. lia. Qed.

Lemma bin_of_range (c : Z) : 0 <= c -> 0 <= models.bin_of c <= 15.
Proof.
  intros H. unfold models.bin_of. rewrite Z.shiftr_div_pow2 by lia.
  assert (0 <= c / 2 ^ 8 / 16) by (apply Z.div_pos; [apply Z.div_pos|]; lia).
  destruct (15 <? c / 2 ^ 8 / 16) eqn:E; lia.
Qed.

(** On a 16-bit channel value the bins are the 16 intervals of width 16 of
    its 8-bit value, and the clamp never fires. *)
Lemma bin_of_byte (c : Z) :
  0 <= c < 65536 ->
  0 <= byte_of c <= 255
  /\ models.bin_of c = byte_of c / 16
  /\ forall i, models.bin_of c = i <-> 16 * i <= byte_of c < 16 * (i + 1).
Proof.
  intros H. unfold models.bin_of, byte_of.
  rewrite Z.shiftr_div_pow2 by lia. change (2 ^ 8) with 256.
  assert (Hb : 0 <= c / 256 <= 255).
  { split; [apply Z.div_pos; lia|].
    assert (c / 256 < 256) by (apply Z.div_lt_upper_bound; lia). lia. }
  assert (Hq : 0 <= c / 256 / 16 <= 15).
  { split; [apply Z.div_pos; lia|].
    assert (c / 256 / 16 < 16) by (apply Z.div_lt_upper_bound; lia). lia. }
  destruct (15 <? c / 256 / 16) eqn:E; [lia|].
  split; [exact Hb|]. split; [reflexivity|]. intros i.
  pose proof (Z.mul_div_le (c / 256) 16 ltac:(lia)).
  pose proof (Z.mul_succ_div_gt (c / 256) 16 ltac:(lia)).
  split; [intros <-; lia|].
  intros [Hlo Hhi]. symmetry.
  apply Z.div_unique with (r := c / 256 - 16 * i); lia.
Qed.

Lemma incr_length (hist : list Z) (i : Z) :
  List.length (models.incr hist i) = List.length hist.
Proof. apply length_set_at. Qed.

Lemma incr_nth (hist : list Z) (i : Z) (j : nat) :
  0 <= i < len hist ->
  nth j (models.incr hist i) 0
  = nth j hist 0 + (if Z.of_nat j =? i then 1 else 0).
Proof.
  intros H. unfold models.incr. rewrite nth_set_at by assumption.
  destruct (Z.eqb_spec (Z.of_nat j) i) as [<-|]; [|lia].
  now rewrite Nat2Z.id.
Qed.

Lemma count_bin_cons (ch : Color -> Z) (c : Color) (px : list Color) (i : Z) :
  count_bin ch (c :: px) i
  = (if models.bin_of (ch c) =? i then 1 else 0) + count_bin ch px i.
Proof.
  unfold count_bin. cbn [filter].
  destruct (models.bin_of (ch c) =? i); [rewrite len_cons|]; lia.
Qed.

Lemma hist_channel_spec (ch : Color -> Z) (px : list Color) :
  (forall c, 0 <= ch c) ->
  forall hist, List.length hist = 16%nat ->
  List.length (hist_channel ch px hist) = 16%nat
  /\ forall j, nth j (hist_channel ch px hist) 0
               = nth j hist 0 + count_bin ch px (Z.of_nat j).
Proof.
  intros Hch. induction px as [|c px IH]; intros hist Hlen.
  - split; [exact Hlen|]. intros j. cbn. lia.
  - cbn [hist_channel fold_left]. fold (hist_channel ch px).
    destruct (IH (models.incr hist (models.bin_of (ch c)))) as [Hl Hn].
    { now rewrite incr_length. }
    split; [exact Hl|]. intros j. rewrite Hn, count_bin_cons.
    rewrite incr_nth.
    + destruct (Z.eqb_spec (Z.of_nat j) (models.bin_of (ch c))),
               (Z.eqb_spec (models.bin_of (ch c)) (Z.of_nat j)); lia.
    + pose proof (bin_of_range (ch c) (Hch c)). unfold len. lia.
Qed.

Lemma hist_channel_cons (ch : Color -> Z) (c : Color) (px : list Color)
  (hist : list Z) :
  hist_channel ch (c :: px) hist
  = hist_channel ch px (models.incr hist (models.bin_of (ch c))).
Proof. reflexivity. Qed.

Lemma histograms_channels (img : Image) :
  models.histograms img
  = (hist_channel channel_r (pixels img) (repeat 0 16),
     hist_channel channel_g (pixels img) (repeat 0 16),
     hist_channel channel_b (pixels img) (repeat 0 16)).
Proof.
  unfold models.histograms, pixels.
  set (f := fun (hists : list Z * list Z * list Z) (p : Z * Z) =>
              let '(histR, histG, histB) := hists in
              let '(r, g, b, _) := RGBA (At img (fst p) (snd p)) in
              (models.incr histR (models.bin_of r),
               models.incr histG (models.bin_of g),
               models.incr histB (models.bin_of b))).
  set (cs := coords (X (Min (Bounds img))) (X (Max (Bounds img)))
               (Y (Min (Bounds img))) (Y (Max (Bounds img)))).
  transitivity (fold_left f cs (repeat 0 16, repeat 0 16, repeat 0 16)).
  { unfold cs. rewrite <- fold_rows_cols.
    apply fold_left_ext_in. intros hists y _.
    apply fold_left_ext_in. intros [[hR hG] hB] x _. reflexivity. }
  generalize cs. clear cs.
  generalize (repeat 0 16) at 1 4. generalize (repeat 0 16) at 1 3.
  generalize (repeat 0 16).
  intros hB hG hR l. revert hR hG hB.
  induction l as [|p l IH]; intros hR hG hB; [reflexivity|].
  cbn [map]. rewrite !hist_channel_cons. cbn [fold_left].
  rewrite <- IH. reflexivity.
Qed.

(** Every pixel is counted in exactly one of the 16 bins. *)
Lemma count_bin_total (ch : Color -> Z) (px : list Color) :
  (forall c, 0 <= ch c) ->
  zsum (map (count_bin ch px) (range 0 16)) = len px.
Proof.
  intros Hch. induction px as [|c px IH]; [reflexivity|].
  rewrite len_cons, <- IH.
  pose proof (bin_of_range (ch c) (Hch c)) as Hb.
  change (range 0 16) with [0;1;2;3;4;5;6;7;8;9;10;11;12;13;14;15].
  cbn [map zsum fold_right]. rewrite !count_bin_cons.
  assert (Hcase : models.bin_of (ch c) = 0 \/ models.bin_of (ch c) = 1
                  \/ models.bin_of (ch c) = 2 \/ models.bin_of (ch c) = 3
                  \/ models.bin_of (ch c) = 4 \/ models.bin_of (ch c) = 5
                  \/ models.bin_of (ch c) = 6 \/ models.bin_of (ch c) = 7
                  \/ models.bin_of (ch c) = 8 \/ models.bin_of (ch c) = 9
                  \/ models.bin_of (ch c) = 10 \/ models.bin_of (ch c) = 11
                  \/ models.bin_of (ch c) = 12 \/ models.bin_of (ch c) = 13
                  \/ models.bin_of (ch c) = 14 \/ models.bin_of (ch c) = 15)
    by lia.
  repeat (destruct Hcase as [-> | Hcase]); try rewrite Hcase;
    cbn [Z.eqb Pos.eqb]; lia.
Qed.

Lemma hist_channel_counts (ch : Color -> Z) (px : list Color) :
  (forall c, 0 <= ch c) ->
  hist_channel ch px (repeat 0 16) = map (count_bin ch px) (range 0 16).
Proof.
  intros Hch.
  destruct (hist_channel_spec ch px Hch (repeat 0 16) eq_refl) as [Hlen Hnth].
  apply (nth_ext _ _ 0 (count_bin ch px 0)).
  - rewrite Hlen, length_map, length_range. reflexivity.
  - intros j Hj. rewrite Hlen in Hj. rewrite Hnth.
    rewrite (map_nth (count_bin ch px) (range 0 16) 0 j).
    replace (nth j (repeat 0 16) 0) with 0
      by (symmetry; apply nth_repeat).
    unfold range. cbn [Z.sub Z.to_nat Z.opp Z.add].
    rewrite (nth_indep _ 0 ((fun k => 0 + Z.of_nat k) 0%nat))
      by (rewrite length_map, length_seq; exact Hj).
    rewrite (map_nth (fun k => 0 + Z.of_nat k)), seq_nth by exact Hj.
    reflexivity.
Qed.

Lemma channel_nonneg :
  (forall c, 0 <= channel_r c) /\ (forall c, 0 <= channel_g c)
  /\ (forall c, 0 <= channel_b c).
Proof.
  repeat split; intros c; apply uint32_range.
Qed.

Section HistogramLayout.

Context {FO : FloatOps}.

(** [float32(count) / float32(totalPixels)] *)
Definition bin_share (totalPixels count : Z) : float32 :=
  div32 (float32_of_int count) (float32_of_int totalPixels).

(** The 48 components: for each channel in turn, the share of the pixels in
    each of its 16 bins. *)
Lemma extractColorHistogram_layout (img : Image) :
  let totalPixels := Dx (Bounds img) * Dy (Bounds img) in
  let shares ch :=
    map (fun i => bin_share totalPixels (count_bin ch (pixels img) i))
        (range 0 16) in
  models.extractColorHistogram img
  = shares channel_r ++ shares channel_g ++ shares channel_b.
Proof.
  cbv zeta. unfold models.extractColorHistogram.
  rewrite histograms_channels.
  destruct channel_nonneg as (Hr & Hg & Hb).
  rewrite !hist_channel_counts by assumption.
  change (range 0 16) with [0;1;2;3;4;5;6;7;8;9;10;11;12;13;14;15].
  reflexivity.
Qed.

End HistogramLayout.

(** The sum of a list of real numbers. *)
Definition Rsum (l : list R) : R := fold_right Rplus 0%R l.

Lemma Rsum_app (l1 l2 : list R) : Rsum (l1 ++ l2) = (Rsum l1 + Rsum l2)%R.
Proof.
  unfold Rsum. induction l1 as [|a l1 IH]; cbn [app fold_right].
  - lra.
  - rewrite IH. lra.
Qed.

Lemma Rsum_shares (f : Z -> Z) (total : Z) (l : list Z) :
  Rsum (map (fun i => @bin_share RealOps total (f i)) l)
  = (IZR (zsum (map f l)) / IZR total)%R.
Proof.
  unfold Rsum, zsum. induction l as [|i l IH]; cbn [map fold_right].
  - unfold Rdiv. lra.
  - rewrite IH, plus_IZR.
    unfold bin_share. cbn [div32 float32_of_int RealOps]. unfold Rdiv. lra.
Qed.

Lemma three_blocks {A : Type} (a b c : list A) :
  List.length a = 16%nat -> List.length b = 16%nat ->
  List.length c = 16%nat ->
  firstn 16 (a ++ b ++ c) = a
  /\ firstn 16 (skipn 16 (a ++ b ++ c)) = b
  /\ firstn 16 (skipn 32 (a ++ b ++ c)) = c.
Proof.
  intros Ha Hb Hc.
  assert (S16 : skipn 16 (a ++ b ++ c) = b ++ c).
  { rewrite skipn_app, Ha, Nat.sub_diag, skipn_O.
    rewrite skipn_all2 by lia. reflexivity. }
  assert (S32 : skipn 32 (a ++ b ++ c) = c).
  { change 32%nat with (16 + 16)%nat. rewrite <- skipn_skipn, S16.
    rewrite skipn_app, Hb, Nat.sub_diag, skipn_O.
    rewrite skipn_all2 by lia. reflexivity. }
  rewrite S32, S16. repeat split.
  - rewrite firstn_app, Ha, Nat.sub_diag, firstn_O, app_nil_r.
    apply firstn_all2. lia.
  - rewrite firstn_app, Hb, Nat.sub_diag, firstn_O, app_nil_r.
    apply firstn_all2. lia.
  - apply firstn_all2. lia.
Qed.

(** In exact arithmetic the 16 shares of each channel add up to 1, on an
    image with a pixel or more. *)
Lemma channel_shares_sum_to_one (img : Image) :
  0 < Dx (Bounds img) ->
  0 < Dy (Bounds img) ->
  let features := @models.extractColorHistogram RealOps img in
  Rsum (firstn 16 features) = 1%R
  /\ Rsum (firstn 16 (skipn 16 features)) = 1%R
  /\ Rsum (firstn 16 (skipn 32 features)) = 1%R.
Proof.
  intros Hw Hh.
  assert (Hwf : well_formed img) by (split; lia).
  pose proof (length_pixels img Hwf) as Hlen.
  destruct channel_nonneg as (Hr & Hg & Hb).
  pose proof (count_bin_total channel_r (pixels img) Hr) as Sr.
  pose proof (count_bin_total channel_g (pixels img) Hg) as Sg.
  pose proof (count_bin_total channel_b (pixels img) Hb) as Sb.
  rewrite Hlen in Sr, Sg, Sb.
  cbv zeta. rewrite (@extractColorHistogram_layout RealOps). cbv zeta.
  set (total := Dx (Bounds img) * Dy (Bounds img)) in *.
  assert (Hone : forall ch,
            zsum (map (count_bin ch (pixels img)) (range 0 16)) = total ->
            Rsum (map (fun i => @bin_share RealOps total
                                  (count_bin ch (pixels img) i))
                      (range 0 16)) = 1%R).
  { intros ch Hsum.
    rewrite (Rsum_shares (count_bin ch (pixels img)) total), Hsum.
    apply Rinv_r. apply not_0_IZR. unfold total. nia. }
  assert (L16 : forall ch,
            List.length (map (fun i => @bin_share RealOps total
                                         (count_bin ch (pixels img) i))
                           (range 0 16)) = 16%nat).
  { intros ch. rewrite length_map, length_range. reflexivity. }
  destruct (three_blocks _ _ _ (L16 channel_r) (L16 channel_g)
              (L16 channel_b)) as (E1 & E2 & E3).
  rewrite E1, E2, E3. repeat split; now apply Hone.
Qed.

(** C8.  For an image of positive width and height.  A channel value is
    quantised by its 8-bit value into 16 bins of width 16; 255 lands in bin
    15, and no value lands above bin 15.  Each channel's bins count every
    pixel once: the 16 counts add up to the number of pixels.  The 48
    components are, for each channel in turn (red, green, blue), the 16
    counts divided by the number of pixels, whatever the float arithmetic;
    in exact arithmetic the 16 components of each channel add up to 1. *)
Theorem color_histogram_bins_and_shares (img : Image) :
  0 < Dx (Bounds img) ->
  0 < Dy (Bounds img) ->
  let totalPixels := Dx (Bounds img) * Dy (Bounds img) in
  let px := pixels img in
  (forall c, 0 <= c < 65536 ->
     0 <= byte_of c <= 255
     /\ models.bin_of c = byte_of c / 16
     /\ forall i, models.bin_of c = i <-> 16 * i <= byte_of c < 16 * (i + 1))
  /\ (forall c, byte_of c = 255 -> models.bin_of c = 15)
  /\ (forall c, 0 <= models.bin_of (uint32 c) <= 15)
  /\ len px = totalPixels
  /\ zsum (map (count_bin channel_r px) (range 0 16)) = totalPixels
  /\ zsum (map (count_bin channel_g px) (range 0 16)) = totalPixels
  /\ zsum (map (count_bin channel_b px) (range 0 16)) = totalPixels
  /\ (forall FO : FloatOps,
        let shares ch :=
          map (fun i => bin_share totalPixels (count_bin ch px i))
              (range 0 16) in
        models.extractColorHistogram img
        = shares channel_r ++ shares channel_g ++ shares channel_b
        /\ len (models.extractColorHistogram img) = 48)
  /\ (let features := @models.extractColorHistogram RealOps img in
      Rsum (firstn 16 features) = 1%R
      /\ Rsum (firstn 16 (skipn 16 features)) = 1%R
      /\ Rsum (firstn 16 (skipn 32 features)) = 1%R).
Proof.
  intros Hw Hh. cbv zeta.
  assert (Hwf : well_formed img) by (split; lia).
  pose proof (length_pixels img Hwf) as Hlen.
  destruct channel_nonneg as (Hr & Hg & Hb).
  pose proof (count_bin_total channel_r (pixels img) Hr) as Sr.
  pose proof (count_bin_total channel_g (pixels img) Hg) as Sg.
  pose proof (count_bin_total channel_b (pixels img) Hb) as Sb.
  rewrite Hlen in Sr, Sg, Sb.
  split; [exact bin_of_byte|].
  split.
  { intros c Hc. unfold models.bin_of. fold (byte_of c). rewrite Hc.
    reflexivity. }
  split; [intros c; apply bin_of_range, uint32_range|].
  split; [exact Hlen|]. do 3 (split; [assumption|]).
  split.
  - intros FO. cbv zeta. rewrite extractColorHistogram_layout. cbv zeta.
    split; [reflexivity|]. unfold len.
    rewrite !length_app, !length_map, !length_range. reflexivity.
  - exact (channel_shares_sum_to_one img Hw Hh).
Qed.

Lemma color_histogram_bins_and_shares_witness :
  0 < Dx (Bounds demo.picture) /\ 0 < Dy (Bounds demo.picture)
  /\ len (pixels demo.picture) = 4
  /\ Rsum (firstn 16 (@models.extractColorHistogram RealOps demo.picture)) = 1%R.
Proof.
  assert (Hw : 0 < Dx (Bounds demo.picture)) by (vm_compute; reflexivity).
  assert (Hh : 0 < Dy (Bounds demo.picture)) by (vm_compute; reflexivity).
  destruct (color_histogram_bins_and_shares demo.picture Hw Hh)
    as (_ & _ & _ & Hlen & _ & _ & _ & _ & Hsum & _).
  repeat split; assumption.
Defined.

(* ===================================================================== *)
(** * Facts: the spatial colour grid                                       *)
(* ===================================================================== *)

(** The canonical image of [ExtractFeatures]: 224 by 224 pixels. *)
Definition canonical (img : Image) : Prop :=
  Dx (Bounds img) = 224 /\ Dy (Bounds img) = 224.

(** The contract of [color.Color]: [RGBA()] returns 16-bit values. *)
Definition sixteen_bit (img : Image) : Prop :=
  forall x y,
    channel_r (At img x y) < 65536
    /\ channel_g (At img x y) < 65536
    /\ channel_b (At img x y) < 65536.

(** A pixel, relative to the corner of the image, lies in a cell. *)
Definition in_cell (cell : Z * Z * Z * Z) (x y : Z) : Prop :=
  let '(startX, endX, startY, endY) := cell in
  startX <= x < endX /\ startY <= y < endY.

(** The 8-bit values of channel [ch] over the pixels of a cell, in the order
    the loop of [extractSpatialFeatures] reads them. *)
Definition cell_values (ch : Color -> Z) (img : Image)
  (startX endX startY endY : Z) : list Z :=
  map (fun p => byte_of (ch (At img (X (Min (Bounds img)) + fst p)
                                    (Y (Min (Bounds img)) + snd p))))
      (coords startX endX startY endY).

Section SpatialFacts.

Context {FO : FloatOps}.

(** [total += float64(v)] over a list of values, from zero. *)
Definition fsum64_from (total : float64) (values : list Z) : float64 :=
  fold_left (fun total v => add64 total (float64_of_int v)) values total.

Definition fsum64 (values : list Z) : float64 :=
  fsum64_from models.zero64 values.

Lemma fsum64_from_cons (total : float64) (v : Z) (values : list Z) :
  fsum64_from total (v :: values)
  = fsum64_from (add64 total (float64_of_int v)) values.
Proof. reflexivity. Qed.

Lemma cell_totals_spec (img : Image) (startX endX startY endY : Z) :
  models.cell_totals img startX endX startY endY
  = (fsum64 (cell_values channel_r img startX endX startY endY),
     fsum64 (cell_values channel_g img startX endX startY endY),
     fsum64 (cell_values channel_b img startX endX startY endY),
     len (coords startX endX startY endY)).
Proof.
  unfold models.cell_totals, cell_values, fsum64.
  set (f := fun (totals : float64 * float64 * float64 * Z) (p : Z * Z) =>
              let '(totalR, totalG, totalB, count) := totals in
              let '(r, g, b, _) :=
                RGBA (At img (X (Min (Bounds img)) + fst p)
                             (Y (Min (Bounds img)) + snd p)) in
              (add64 totalR (float64_of_int (Z.shiftr r 8)),
               add64 totalG (float64_of_int (Z.shiftr g 8)),
               add64 totalB (float64_of_int (Z.shiftr b 8)),
               count + 1)).
  transitivity (fold_left f (coords startX endX startY endY)
                  (models.zero64, models.zero64, models.zero64, 0)).
  { rewrite <- fold_rows_cols.
    apply fold_left_ext_in. intros totals y _.
    apply fold_left_ext_in. intros [[[tR tG] tB] n] x _. reflexivity. }
  change (len (coords startX endX startY endY))
    with (0 + len (coords startX endX startY endY)).
  generalize (coords startX endX startY endY).
  generalize 0. generalize models.zero64 at 1 4.
  generalize models.zero64 at 1 3. generalize models.zero64.
  intros tB tG tR n l. revert tR tG tB n.
  induction l as [|p l IH]; intros tR tG tB n.
  - cbn. now rewrite Z.add_0_r.
  - cbn [fold_left map]. rewrite !fsum64_from_cons, len_cons.
    replace (n + (len l + 1)) with (n + 1 + len l) by lia.
    rewrite <- IH. reflexivity.
Qed.

(** The totals of grid cell [(gx, gy)], as [extractSpatialFeatures] takes
    them. *)
Definition cell_of (img : Image) (gx gy : Z)
  : float64 * float64 * float64 * Z :=
  let '(startX, endX, startY, endY) :=
    models.cell_bounds (Dx (Bounds img)) (Dy (Bounds img)) gx gy in
  models.cell_totals img startX endX startY endY.

(** The three components of a cell. *)
Definition cell_means (totals : float64 * float64 * float64 * Z)
  : list float32 :=
  let '(totalR, totalG, totalB, count) := totals in
  [models.cell_mean totalR count; models.cell_mean totalG count;
   models.cell_mean totalB count].

(** One pass of the inner loop body of [extractSpatialFeatures], on a cell
    that is not empty: three writes. *)
Lemma spatial_cell_written (img : Image) (gx gy : Z) (features : list float32) :
  0 < snd (cell_of img gx gy) ->
  (let '(startX, endX, startY, endY) :=
     models.cell_bounds (Dx (Bounds img)) (Dy (Bounds img)) gx gy in
   let '(totalR, totalG, totalB, count) :=
     models.cell_totals img startX endX startY endY in
   if 0 <? count then
     let idx := (gy * 4 + gx) * 3 in
     let features := set_at features idx (models.cell_mean totalR count) in
     let features :=
       set_at features (idx + 1) (models.cell_mean totalG count) in
     set_at features (idx + 2) (models.cell_mean totalB count)
   else features)
  = set_at
      (set_at
         (set_at features ((gy * 4 + gx) * 3)
            (nth 0 (cell_means (cell_of img gx gy)) models.zero32))
         ((gy * 4 + gx) * 3 + 1)
         (nth 1 (cell_means (cell_of img gx gy)) models.zero32))
      ((gy * 4 + gx) * 3 + 2)
      (nth 2 (cell_means (cell_of img gx gy)) models.zero32).
Proof.
  unfold cell_of.
  destruct (models.cell_bounds _ _ gx gy) as [[[startX endX] startY] endY].
  destruct (models.cell_totals img startX endX startY endY)
    as [[[totalR totalG] totalB] count].
  cbn [snd cell_means nth]. intros Hpos.
  now rewrite (proj2 (Z.ltb_lt _ _) Hpos).
Qed.

(** When no cell is empty, the components are the means of the 16 cells,
    row after row, three for each cell. *)
Lemma extractSpatialFeatures_layout (img : Image) :
  (forall gx gy, 0 <= gx < 4 -> 0 <= gy < 4 ->
     0 < snd (cell_of img gx gy)) ->
  models.extractSpatialFeatures img
  = flat_map (fun gy => flat_map (fun gx => cell_means (cell_of img gx gy))
                          [0; 1; 2; 3])
             [0; 1; 2; 3].
Proof.
  intros Hpos. unfold models.extractSpatialFeatures.
  change (range 0 4) with [0; 1; 2; 3].
  change (Z.to_nat (4 * 4 * 3)) with 48%nat.
  set (step := fun (gy : Z) (features : list float32) (gx : Z) =>
                 let '(startX, endX, startY, endY) :=
                   models.cell_bounds (Dx (Bounds img)) (Dy (Bounds img))
                     gx gy in
                 let '(totalR, totalG, totalB, count) :=
                   models.cell_totals img startX endX startY endY in
                 if 0 <? count then
                   let idx := (gy * 4 + gx) * 3 in
                   let features :=
                     set_at features idx (models.cell_mean totalR count) in
                   let features :=
                     set_at features (idx + 1)
                       (models.cell_mean totalG count) in
                   set_at features (idx + 2) (models.cell_mean totalB count)
                 else features).
  assert (Hstep : forall gx gy features, 0 <= gx < 4 -> 0 <= gy < 4 ->
            step gy features gx
            = set_at
                (set_at
                   (set_at features ((gy * 4 + gx) * 3)
                      (nth 0 (cell_means (cell_of img gx gy)) models.zero32))
                   ((gy * 4 + gx) * 3 + 1)
                   (nth 1 (cell_means (cell_of img gx gy)) models.zero32))
                ((gy * 4 + gx) * 3 + 2)
                (nth 2 (cell_means (cell_of img gx gy)) models.zero32)).
  { intros gx gy features Hx Hy. apply spatial_cell_written. now apply Hpos. }
  change (fold_left (fun features gy => fold_left (step gy) [0; 1; 2; 3] features)
            [0; 1; 2; 3] (repeat models.zero32 48)
          = flat_map
              (fun gy => flat_map (fun gx => cell_means (cell_of img gx gy))
                           [0; 1; 2; 3])
              [0; 1; 2; 3]).
  clearbody step. cbn [fold_left flat_map app].
  rewrite !Hstep by lia. clear Hstep step Hpos.
  repeat match goal with
  | |- context [cell_of img ?gx ?gy] =>
      let t := fresh "t" in
      set (t := cell_of img gx gy);
      destruct t as [[[? ?] ?] ?]
  end.
  reflexivity.
Qed.

End SpatialFacts.

(** The values of channel [ch] over cell [(gx, gy)] of the canonical grid:
    columns [56*gx .. 56*gx+55], rows [56*gy .. 56*gy+55]. *)
Definition grid_values (ch : Color -> Z) (img : Image) (gx gy : Z) : list Z :=
  cell_values ch img (56 * gx) (56 * (gx + 1)) (56 * gy) (56 * (gy + 1)).

Lemma cell_bounds_canonical (gx gy : Z) :
  0 <= gx < 4 -> 0 <= gy < 4 ->
  models.cell_bounds 224 224 gx gy
  = (56 * gx, 56 * (gx + 1), 56 * gy, 56 * (gy + 1)).
Proof.
  intros Hx Hy. unfold models.cell_bounds.
  change (Z.quot 224 4) with 56.
  destruct (224 <? (gx + 1) * 56) eqn:Ex; [lia|].
  destruct (224 <? (gy + 1) * 56) eqn:Ey; [lia|].
  f_equal; [f_equal; [f_equal|]|]; lia.
Qed.

Lemma length_grid_values (ch : Color -> Z) (img : Image) (gx gy : Z) :
  len (grid_values ch img gx gy) = 3136.
Proof.
  unfold grid_values, cell_values, len. rewrite length_map.
  fold (len (coords (56 * gx) (56 * (gx + 1)) (56 * gy) (56 * (gy + 1)))).
  rewrite length_coords.
  replace (56 * (gx + 1) - 56 * gx) with 56 by lia.
  replace (56 * (gy + 1) - 56 * gy) with 56 by lia. reflexivity.
Qed.

Lemma cell_of_canonical {FO : FloatOps} (img : Image) (gx gy : Z) :
  canonical img -> 0 <= gx < 4 -> 0 <= gy < 4 ->
  cell_of img gx gy
  = (fsum64 (grid_values channel_r img gx gy),
     fsum64 (grid_values channel_g img gx gy),
     fsum64 (grid_values channel_b img gx gy), 3136).
Proof.
  intros [Hw Hh] Hx Hy. unfold cell_of. rewrite Hw, Hh.
  rewrite cell_bounds_canonical by assumption.
  rewrite cell_totals_spec. unfold grid_values. f_equal.
  rewrite length_coords.
  replace (56 * (gx + 1) - 56 * gx) with 56 by lia.
  replace (56 * (gy + 1) - 56 * gy) with 56 by lia. reflexivity.
Qed.

(** Every pixel of the canonical image is in exactly one cell. *)
Lemma canonical_cells_partition (x y : Z) :
  0 <= x < 224 -> 0 <= y < 224 ->
  exists gx gy,
    0 <= gx < 4 /\ 0 <= gy < 4
    /\ in_cell (models.cell_bounds 224 224 gx gy) x y
    /\ forall gx' gy', 0 <= gx' < 4 -> 0 <= gy' < 4 ->
         in_cell (models.cell_bounds 224 224 gx' gy') x y ->
         gx' = gx /\ gy' = gy.
Proof.
  intros Hx Hy. exists (x / 56), (y / 56).
  pose proof (Z.mul_div_le x 56 ltac:(lia)).
  pose proof (Z.mul_succ_div_gt x 56 ltac:(lia)).
  pose proof (Z.mul_div_le y 56 ltac:(lia)).
  pose proof (Z.mul_succ_div_gt y 56 ltac:(lia)).
  assert (0 <= x / 56 < 4) by lia. assert (0 <= y / 56 < 4) by lia.
  split; [lia|]. split; [lia|]. split.
  - rewrite cell_bounds_canonical by assumption. cbn [in_cell]. lia.
  - intros gx' gy' Hx' Hy' Hin.
    rewrite cell_bounds_canonical in Hin by assumption.
    cbn [in_cell] in Hin. lia.
Qed.

Lemma fsum64_exact (values : list Z) :
  @fsum64 RealOps values = IZR (zsum values).
Proof.
  unfold fsum64, models.zero64. cbn [float64_of_int RealOps].
  assert (H : forall total : R,
             @fsum64_from RealOps total values
             = (total + IZR (zsum values))%R).
  { induction values as [|v values IH]; intros total.
    - cbn. lra.
    - rewrite fsum64_from_cons, IH. cbn [zsum fold_right].
      fold (zsum values). rewrite plus_IZR.
      cbn [add64 float64_of_int RealOps]. lra. }
  rewrite H. lra.
Qed.

Lemma zsum_bounds (values : list Z) :
  Forall (fun v => 0 <= v <= 255) values ->
  0 <= zsum values <= 255 * len values.
Proof.
  induction 1 as [|v values Hv _ IH]; [cbn; lia|].
  rewrite len_cons. cbn [zsum fold_right]. fold (zsum values). lia.
Qed.

Lemma byte_of_range (c : Z) : 0 <= c < 65536 -> 0 <= byte_of c <= 255.
Proof. intros H. now apply bin_of_byte. Qed.

Lemma grid_values_bytes (ch : Color -> Z) (img : Image) (gx gy : Z) :
  (forall x y, 0 <= ch (At img x y) < 65536) ->
  Forall (fun v => 0 <= v <= 255) (grid_values ch img gx gy).
Proof.
  intros H. unfold grid_values, cell_values. apply Forall_map, Forall_forall.
  intros p _. apply byte_of_range, H.
Qed.

(** In exact arithmetic the component of a cell is the mean of the 8-bit
    values of the channel over its 3136 pixels, over 255: a number from 0
    to 1. *)
Lemma cell_mean_exact (ch : Color -> Z) (img : Image) (gx gy : Z) :
  (forall x y, 0 <= ch (At img x y) < 65536) ->
  let m := @models.cell_mean RealOps
             (@fsum64 RealOps (grid_values ch img gx gy)) 3136 in
  m = (IZR (zsum (grid_values ch img gx gy)) / 3136 / 255)%R
  /\ (0 <= m <= 1)%R.
Proof.
  intros H. cbv zeta. unfold models.cell_mean.
  cbn [float32_of_float64 div64 float64_of_int RealOps].
  rewrite fsum64_exact. split; [reflexivity|].
  pose proof (zsum_bounds _ (grid_values_bytes ch img gx gy H)) as [Hlo Hhi].
  rewrite length_grid_values in Hhi.
  apply IZR_le in Hlo, Hhi. rewrite mult_IZR in Hhi.
  set (s := IZR (zsum (grid_values ch img gx gy))) in *.
  change (IZR 0) with 0%R in Hlo. unfold Rdiv. split; lra.
Qed.

(** Beside the claim: on a width that 4 does not divide, the columns past
    [4 * (width / 4)] are in no cell (here 226 = 4 * 56 + 2). *)
Lemma remainder_columns_in_no_cell (gx gy : Z) :
  0 <= gx < 4 -> 0 <= gy < 4 ->
  ~ in_cell (models.cell_bounds 226 226 gx gy) 225 0.
Proof.
  intros Hx Hy. unfold models.cell_bounds. change (Z.quot 226 4) with 56.
  destruct (226 <? (gx + 1) * 56) eqn:Ex; [lia|].
  destruct (226 <? (gy + 1) * 56) eqn:Ey; [lia|].
  cbn [in_cell]. lia.
Qed.

(** C6.  On a canonical image (224 by 224, 16-bit colours) the grid of
    [extractSpatialFeatures] has 16 cells of 56 by 56 pixels, and every
    pixel is in exactly one of them (224 = 4 * 56: nothing is left over).
    Whatever the float arithmetic, the 48 components are, cell after cell in
    row-major order, [float32(total / float64(count) / 255.0)] for red,
    green and blue, where [total] adds up the 8-bit values of the channel
    over the cell and [count] is 3136.  In exact arithmetic each component
    is the mean of the channel over the cell divided by 255, from 0 to 1. *)
Theorem spatial_grid_of_canonical_image (img : Image) :
  canonical img ->
  sixteen_bit img ->
  (forall gx gy, 0 <= gx < 4 -> 0 <= gy < 4 ->
     models.cell_bounds (Dx (Bounds img)) (Dy (Bounds img)) gx gy
     = (56 * gx, 56 * (gx + 1), 56 * gy, 56 * (gy + 1)))
  /\ (forall x y, 0 <= x < Dx (Bounds img) -> 0 <= y < Dy (Bounds img) ->
        exists gx gy,
          0 <= gx < 4 /\ 0 <= gy < 4
          /\ in_cell (models.cell_bounds (Dx (Bounds img)) (Dy (Bounds img))
                        gx gy) x y
          /\ forall gx' gy', 0 <= gx' < 4 -> 0 <= gy' < 4 ->
               in_cell (models.cell_bounds (Dx (Bounds img))
                          (Dy (Bounds img)) gx' gy') x y ->
               gx' = gx /\ gy' = gy)
  /\ (forall FO : FloatOps,
        models.extractSpatialFeatures img
        = flat_map
            (fun gy =>
               flat_map
                 (fun gx =>
                    [models.cell_mean
                       (fsum64 (grid_values channel_r img gx gy)) 3136;
                     models.cell_mean
                       (fsum64 (grid_values channel_g img gx gy)) 3136;
                     models.cell_mean
                       (fsum64 (grid_values channel_b img gx gy)) 3136])
                 [0; 1; 2; 3])
            [0; 1; 2; 3]
        /\ len (models.extractSpatialFeatures img) = 48)
  /\ (forall ch, In ch [channel_r; channel_g; channel_b] ->
      forall gx gy, 0 <= gx < 4 -> 0 <= gy < 4 ->
        len (grid_values ch img gx gy) = 3136
        /\ let m := @models.cell_mean RealOps
                      (@fsum64 RealOps (grid_values ch img gx gy)) 3136 in
           m = (IZR (zsum (grid_values ch img gx gy)) / 3136 / 255)%R
           /\ (0 <= m <= 1)%R).
Proof.
  intros Hcan H16. pose proof Hcan as [Hw Hh]. rewrite Hw, Hh.
  split; [exact cell_bounds_canonical|].
  split; [exact canonical_cells_partition|].
  split.
  - intros FO.
    assert (E : models.extractSpatialFeatures img
                = flat_map
                    (fun gy =>
                       flat_map
                         (fun gx =>
                            [models.cell_mean
                               (fsum64 (grid_values channel_r img gx gy)) 3136;
                             models.cell_mean
                               (fsum64 (grid_values channel_g img gx gy)) 3136;
                             models.cell_mean
                               (fsum64 (grid_values channel_b img gx gy)) 3136])
                         [0; 1; 2; 3])
                    [0; 1; 2; 3]).
    { rewrite extractSpatialFeatures_layout.
      - cbn [flat_map app].
        rewrite !(cell_of_canonical img) by (assumption || lia).
        reflexivity.
      - intros gx gy Hx Hy. rewrite cell_of_canonical by assumption.
        cbn [snd]. lia. }
    split; [exact E|]. rewrite E. reflexivity.
  - intros ch Hch gx gy Hx Hy. split; [apply length_grid_values|].
    apply cell_mean_exact. intros x y. destruct (H16 x y) as (Hr & Hg & Hb).
    destruct channel_nonneg as (Nr & Ng & Nb).
    destruct Hch as [<-|[<-|[<-|[]]]]; split; auto.
Qed.

Module canon.

(** A canonical image: 224 by 224, every pixel white. *)
Definition white : Image :=
  {| Bounds := {| Min := {| X := 0; Y := 0 |};
                  Max := {| X := 224; Y := 224 |} |};
     At := fun _ _ => demo.pixel |}.

Lemma white_canonical : canonical white.
Proof. split; reflexivity. Qed.

Lemma white_sixteen_bit : sixteen_bit white.
Proof. intros x y. repeat split; vm_compute; reflexivity. Qed.

End canon.

Lemma spatial_grid_of_canonical_image_witness :
  canonical canon.white /\ sixteen_bit canon.white
  /\ len (@models.extractSpatialFeatures IEEEOps canon.white) = 48.
Proof.
  assert (H1 : canonical canon.white) by (split; reflexivity).
  assert (H2 : sixteen_bit canon.white)
    by (intros x y; repeat split; vm_compute; reflexivity).
  destruct (spatial_grid_of_canonical_image canon.white H1 H2)
    as (_ & _ & Hlayout & _).
  split; [exact H1|]. split; [exact H2|]. apply (Hlayout IEEEOps).
Defined.

(* ===================================================================== *)
(** * Facts: slices that are filled index by index                         *)
(* ===================================================================== *)

Section FillFacts.

Context {A : Type}.

Lemma set_nth_app_r (pre suf : list A) (v : A) :
  set_nth (pre ++ suf) (List.length pre) v
  = pre ++ match suf with [] => [] | _ :: t => v :: t end.
Proof.
  induction pre as [|a pre IH]; cbn [app List.length set_nth].
  - now destruct suf.
  - now rewrite IH.
Qed.

(** Writing [f k] at every index [k] of a slice, in order, leaves
    [f 0, f 1, ...]. *)
Lemma fill_from (f : nat -> A) (suf pre : list A) :
  fold_left (fun l k => set_nth l k (f k))
    (seq (List.length pre) (List.length suf)) (pre ++ suf)
  = pre ++ map f (seq (List.length pre) (List.length suf)).
Proof.
  revert pre. induction suf as [|a suf IH]; intros pre; [reflexivity|].
  cbn [List.length seq fold_left map]. rewrite set_nth_app_r.
  replace (pre ++ f (List.length pre) :: suf)
    with ((pre ++ [f (List.length pre)]) ++ suf)
    by (now rewrite <- app_assoc).
  replace (S (List.length pre)) with (List.length (pre ++ [f (List.length pre)]))
    by (rewrite length_app; cbn; lia).
  rewrite IH, <- app_assoc. reflexivity.
Qed.

Lemma fill_range (f : Z -> A) (lo hi : Z) (l : list A) :
  len l = Z.max 0 (hi - lo) ->
  fold_left (fun l k => set_at l (k - lo) (f k)) (range lo hi) l
  = map f (range lo hi).
Proof.
  intros Hlen. unfold range. rewrite fold_left_map, map_map.
  assert (Hn : Z.to_nat (hi - lo) = List.length l) by (unfold len in Hlen; lia).
  rewrite Hn.
  rewrite (fold_left_ext_in _
             (fun l k => set_nth l k (f (lo + Z.of_nat k)))).
  - apply (fill_from (fun k => f (lo + Z.of_nat k)) l []).
  - intros b k _. unfold set_at.
    destruct (Z.ltb_spec (lo + Z.of_nat k - lo) 0) as [E|E]; [exfalso; lia|].
    f_equal. lia.
Qed.

(** The same for any loop body that, on the slices an invariant allows,
    writes [f k] at index [k]. *)
Lemma fill_range_inv (P : list A -> Prop) (step : list A -> Z -> list A)
  (f : Z -> A) (lo hi : Z) (l : list A) :
  len l = Z.max 0 (hi - lo) ->
  P l ->
  (forall l k, P l -> len l = Z.max 0 (hi - lo) -> lo <= k < hi ->
     step l k = set_at l (k - lo) (f k)) ->
  (forall l k, P l -> lo <= k < hi -> P (set_at l (k - lo) (f k))) ->
  fold_left step (range lo hi) l = map f (range lo hi).
Proof.
  intros Hlen HP HF Hstep. rewrite <- (fill_range f lo hi l Hlen).
  assert (Hin : forall k, In k (range lo hi) -> lo <= k < hi)
    by (intros k; apply in_range).
  revert l HP Hlen Hin. generalize (range lo hi) as ks.
  induction ks as [|k ks IH]; intros l HP Hlen Hin; [reflexivity|].
  cbn [fold_left]. rewrite HF by (auto; apply Hin; now left).
  apply IH.
  - apply Hstep; [exact HP | apply Hin; now left].
  - unfold len. rewrite length_set_at. exact Hlen.
  - intros k' Hk'. apply Hin. now right.
Qed.

Lemma nth_set_at_same (l : list A) (i : Z) (v d : A) :
  0 <= i < len l -> nth (Z.to_nat i) (set_at l i v) d = v.
Proof.
  intros H. rewrite nth_set_at by exact H.
  rewrite Z2Nat.id by lia. now rewrite Z.eqb_refl.
Qed.

Lemma set_nth_twice (l : list A) (i : nat) (v v' : A) :
  set_nth (set_nth l i v) i v' = set_nth l i v'.
Proof.
  revert i. induction l as [|a l IH]; intros [|i]; cbn; auto.
  now rewrite IH.
Qed.

Lemma set_at_twice (l : list A) (i : Z) (v v' : A) :
  set_at (set_at l i v) i v' = set_at l i v'.
Proof.
  unfold set_at. destruct (i <? 0); [reflexivity | apply set_nth_twice].
Qed.

Lemma set_nth_same (l : list A) (i : nat) (d : A) :
  set_nth l i (nth i l d) = l.
Proof.
  revert i. induction l as [|a l IH]; intros [|i]; cbn; auto.
  now rewrite IH.
Qed.

Lemma set_at_same (l : list A) (i : Z) (d : A) :
  set_at l i (nth (Z.to_nat i) l d) = l.
Proof.
  unfold set_at. destruct (i <? 0); [reflexivity | apply set_nth_same].
Qed.

End FillFacts.

(* ===================================================================== *)
(** * Facts: the grey image                                                *)
(* ===================================================================== *)

Section PanicFacts.

Context {A B : Type}.

(** A loop whose body never panics is a plain fold. *)
Lemma foldM_pure (f : B -> A -> result B) (g : B -> A -> B) (l : list A)
  (acc : B) :
  (forall b a, In a l -> f b a = Ok (g b a)) ->
  foldM f l acc = Ok (fold_left g l acc).
Proof.
  revert acc. induction l as [|a l IH]; intros acc H; [reflexivity|].
  cbn [foldM fold_left]. rewrite H by now left. cbn [bind].
  apply IH. intros b a' Ha. apply H. now right.
Qed.

Lemma foldM_returns (f : B -> A -> result B) (l : list A) (acc : B) :
  (forall b a, In a l -> exists b', f b a = Ok b') ->
  exists r, foldM f l acc = Ok r.
Proof.
  revert acc. induction l as [|a l IH]; intros acc H; [now exists acc|].
  cbn [foldM]. destruct (H acc a (or_introl eq_refl)) as [b' ->]. cbn [bind].
  apply IH. intros b a' Ha. apply H. now right.
Qed.

Lemma bind_returns {C : Type} (m : result A) (k : A -> result C) :
  (exists a, m = Ok a) -> (forall a, exists c, k a = Ok c) ->
  exists c, bind m k = Ok c.
Proof.
  intros [a ->] Hk. cbn [bind]. apply Hk.
Qed.

End PanicFacts.

(** A slice of [h] rows of [w] elements each. *)
Definition rectangular {A : Type} (h w : Z) (g : list (list A)) : Prop :=
  len g = h /\ Forall (fun row => len row = w) g.

Lemma rectangular_row {A : Type} (h w : Z) (g : list (list A)) (i : nat) :
  rectangular h w g -> (i < List.length g)%nat -> len (nth i g []) = w.
Proof.
  intros [_ Hrows] Hi. rewrite Forall_forall in Hrows.
  apply Hrows, nth_In, Hi.
Qed.

Lemma rectangular_set_at {A : Type} (h w : Z) (g : list (list A)) (i : Z)
  (row : list A) :
  rectangular h w g -> len row = w -> rectangular h w (set_at g i row).
Proof.
  intros [Hlen Hrows] Hrow. split.
  - unfold len. now rewrite length_set_at.
  - unfold set_at. destruct (i <? 0); [exact Hrows|].
    clear Hlen. revert Hrows. generalize (Z.to_nat i) as k.
    induction g as [|r g IH]; intros k Hrows; destruct k; cbn; auto;
      inversion Hrows; subst; constructor; auto.
Qed.

Lemma index_ok {A : Type} (l : list A) (i : Z) (d : A) :
  0 <= i < len l -> index l i = Ok (nth (Z.to_nat i) l d).
Proof.
  intros H. unfold index. destruct (i <? 0) eqn:E; [lia|].
  destruct (nth_error l (Z.to_nat i)) as [a|] eqn:Hn.
  - now rewrite (nth_error_nth _ _ d Hn).
  - apply nth_error_None in Hn. unfold len in H. lia.
Qed.

Lemma index2_ok {A : Type} (h w : Z) (g : list (list A)) (y x : Z) (d : A) :
  rectangular h w g -> 0 <= y < h -> 0 <= x < w ->
  models.index2 g y x = Ok (nth (Z.to_nat x) (nth (Z.to_nat y) g []) d).
Proof.
  intros Hrect Hy Hx. unfold models.index2.
  pose proof Hrect as [Hlen _].
  rewrite (index_ok g y []) by lia. cbn [bind].
  apply index_ok.
  rewrite (rectangular_row h w) by (auto; unfold len in Hlen; lia). lia.
Qed.

Lemma fill_row_from {A : Type} (f : Z -> A) (lo : Z) (i : Z) (xs : list Z) :
  forall (g : list (list A)) (row : list A),
  0 <= i < len g ->
  fold_left (fun g x => models.set2 g i (x - lo) (f x)) xs (set_at g i row)
  = set_at g i (fold_left (fun row x => set_at row (x - lo) (f x)) xs row).
Proof.
  induction xs as [|x xs IH]; intros g row Hi; [reflexivity|].
  cbn [fold_left]. unfold models.set2 at 2.
  rewrite nth_set_at_same by exact Hi. rewrite set_at_twice.
  apply IH. exact Hi.
Qed.

(** Filling row [i] of a rectangular slice, column by column. *)
Lemma fill_row {A : Type} (f : Z -> A) (lo hi : Z) (g : list (list A)) (i : Z) :
  0 <= i < len g ->
  len (nth (Z.to_nat i) g []) = Z.max 0 (hi - lo) ->
  fold_left (fun g x => models.set2 g i (x - lo) (f x)) (range lo hi) g
  = set_at g i (map f (range lo hi)).
Proof.
  intros Hi Hrow. rewrite <- (fill_range f lo hi _ Hrow).
  rewrite <- (set_at_same g i []) at 1.
  apply fill_row_from. exact Hi.
Qed.

Section TextureFacts.

Context {FO : FloatOps}.

(** The grey image: row [y], column [x] holds the grey value of the pixel
    at [(Min.X + x, Min.Y + y)]. *)
Definition gray_rows (img : Image) : list (list float32) :=
  let b := Bounds img in
  map (fun y =>
         map (fun x => models.gray_of (At img x y))
             (range (X (Min b)) (X (Max b))))
      (range (Y (Min b)) (Y (Max b))).

Lemma gray_rows_rectangular (img : Image) :
  well_formed img ->
  rectangular (Dy (Bounds img)) (Dx (Bounds img)) (gray_rows img).
Proof.
  intros [Hw Hh]. unfold gray_rows, rectangular, len, Dx, Dy in *. split.
  - rewrite length_map, length_range. lia.
  - apply Forall_map, Forall_forall. intros y _.
    rewrite length_map, length_range. lia.
Qed.

Lemma nth_range (lo hi : Z) (k : nat) (d : Z) :
  (k < Z.to_nat (hi - lo))%nat -> nth k (range lo hi) d = lo + Z.of_nat k.
Proof.
  intros H. unfold range.
  rewrite (nth_indep _ d ((fun k => lo + Z.of_nat k) 0%nat))
    by (rewrite length_map, length_seq; exact H).
  rewrite (map_nth (fun k => lo + Z.of_nat k)), seq_nth by exact H.
  reflexivity.
Qed.

(** The element of the grey image at row [y], column [x]. *)
Lemma gray_rows_nth (img : Image) (x y : Z) (d : float32) :
  0 <= x < Dx (Bounds img) -> 0 <= y < Dy (Bounds img) ->
  nth (Z.to_nat x) (nth (Z.to_nat y) (gray_rows img) []) d
  = models.gray_of (At img (X (Min (Bounds img)) + x) (Y (Min (Bounds img)) + y)).
Proof.
  intros Hx Hy. unfold gray_rows, Dx, Dy in *.
  set (row := fun y => map (fun x => models.gray_of (At img x y))
                         (range (X (Min (Bounds img))) (X (Max (Bounds img))))).
  rewrite (nth_indep _ [] (row 0))
    by (rewrite length_map, length_range; lia).
  rewrite (map_nth row), nth_range by lia. unfold row.
  rewrite (nth_indep _ d ((fun x => models.gray_of
                              (At img x (Y (Min (Bounds img))
                                         + Z.of_nat (Z.to_nat y)))) 0))
    by (rewrite length_map, length_range; lia).
  rewrite (map_nth (fun x => models.gray_of
                       (At img x (Y (Min (Bounds img))
                                  + Z.of_nat (Z.to_nat y))))).
  rewrite nth_range by lia. now rewrite !Z2Nat.id by lia.
Qed.

(** On well-formed bounds the allocation and the filling loop of
    [extractTextureFeatures] produce the grey image. *)
Lemma grayscale_ok (img : Image) :
  well_formed img -> models.grayscale img = Ok (gray_rows img).
Proof.
  intros [Hw Hh]. unfold models.grayscale, make.
  destruct (Dy (Bounds img) <? 0) eqn:E; [lia|]. cbn [bind].
  set (h := Dy (Bounds img)) in *. set (w := Dx (Bounds img)) in *.
  assert (Hlen0 : len (repeat ([] : list float32) (Z.to_nat h)) = h).
  { unfold len. rewrite repeat_length. lia. }
  rewrite Hlen0.
  rewrite (foldM_pure _ (fun g i => set_at g i (repeat models.zero32 (Z.to_nat w)))).
  2: { intros g i _. destruct (w <? 0) eqn:E'; [lia|]. reflexivity. }
  cbn [bind]. f_equal.
  rewrite (fold_left_ext_in
             (fun g i => set_at g i (repeat models.zero32 (Z.to_nat w)))
             (fun g i => set_at g (i - 0) (repeat models.zero32 (Z.to_nat w))))
    by (intros g i _; now rewrite Z.sub_0_r).
  rewrite (fill_range (fun _ => repeat models.zero32 (Z.to_nat w)))
    by (rewrite Hlen0; lia).
  unfold gray_rows.
  set (x0 := X (Min (Bounds img))). set (x1 := X (Max (Bounds img))).
  set (y0 := Y (Min (Bounds img))). set (y1 := Y (Max (Bounds img))).
  assert (Ew : w = x1 - x0) by reflexivity.
  assert (Eh : h = y1 - y0) by reflexivity.
  apply (fill_range_inv (rectangular h w)).
  - unfold len. rewrite length_map, length_range. lia.
  - split.
    + unfold len. rewrite length_map, length_range. lia.
    + apply Forall_map, Forall_forall. intros i _.
      unfold len. rewrite repeat_length. lia.
  - intros g y Hrect Hlen Hy. apply fill_row; [lia|].
    rewrite (rectangular_row h w) by (auto; unfold len in Hlen; lia). lia.
  - intros g y Hrect Hy. apply rectangular_set_at; [exact Hrect|].
    unfold len. rewrite length_map, length_range. lia.
Qed.

(** [grayImg[y][x]] where it is in range. *)
Definition gray_at (g : list (list float32)) (y x : Z) : float32 :=
  nth (Z.to_nat x) (nth (Z.to_nat y) g []) models.zero32.

(** The body of the loop of [extractTextureFeatures] at pixel [(x, y)]. *)
Definition texture_step (g : list (list float32))
  (sums : float32 * float32) (p : Z * Z) : float32 * float32 :=
  let v := gray_at g (snd p) (fst p) in
  let diff := sub32 v (gray_at g (snd p) (fst p + 1)) in
  let contrast := add32 (fst sums) (mul32 diff diff) in
  let diff := sub32 v (gray_at g (snd p + 1) (fst p)) in
  let contrast := add32 contrast (mul32 diff diff) in
  (contrast, add32 (snd sums) (mul32 v v)).

(** [energy] before its division: the squares of the grey values the loop
    visits, added up in its order.  The loop stops one short of the last row
    and of the last column. *)
Definition energy_sum (g : list (list float32)) (width height : Z) : float32 :=
  fold_left (fun energy p =>
               add32 energy (mul32 (gray_at g (snd p) (fst p))
                                   (gray_at g (snd p) (fst p))))
    (coords 0 (width - 1) 0 (height - 1)) models.zero32.

Lemma texture_sums_ok (g : list (list float32)) (width height : Z) :
  rectangular height width g ->
  models.texture_sums g width height
  = Ok (fold_left (texture_step g) (coords 0 (width - 1) 0 (height - 1))
          (models.zero32, models.zero32)).
Proof.
  intros Hrect. unfold models.texture_sums.
  rewrite <- fold_rows_cols.
  apply foldM_pure. intros sums y Hy. apply in_range in Hy.
  apply foldM_pure. intros [contrast energy] x Hx. apply in_range in Hx.
  rewrite (index2_ok height width g y x models.zero32) by (auto; lia).
  cbn [bind].
  rewrite (index2_ok height width g y (x + 1) models.zero32) by (auto; lia).
  cbn [bind].
  rewrite (index2_ok height width g (y + 1) x models.zero32) by (auto; lia).
  reflexivity.
Qed.

Lemma texture_energy (g : list (list float32)) (l : list (Z * Z))
  (contrast energy : float32) :
  snd (fold_left (texture_step g) l (contrast, energy))
  = fold_left (fun energy p =>
                 add32 energy (mul32 (gray_at g (snd p) (fst p))
                                     (gray_at g (snd p) (fst p))))
      l energy.
Proof.
  revert contrast energy. induction l as [|p l IH]; intros contrast energy;
    [reflexivity|].
  cbn [fold_left]. unfold texture_step at 2. cbn [fst snd]. apply IH.
Qed.

(** [calculateEdgeStrength] returns on a grey image with a row or more. *)
Lemma calculateEdgeStrength_returns (g : list (list float32))
  (width height : Z) :
  rectangular height width g -> 1 <= height ->
  exists edgeStrength, models.calculateEdgeStrength g = Ok edgeStrength.
Proof.
  intros Hrect Hh. pose proof Hrect as [Hlen _].
  unfold models.calculateEdgeStrength.
  rewrite (index_ok g 0 []) by lia. cbn [bind].
  change (Z.to_nat 0) with 0%nat.
  rewrite (rectangular_row height width g 0 Hrect)
    by (unfold len in Hlen; lia).
  rewrite Hlen.
  assert (Hsobel : forall s, s = models.sobelX \/ s = models.sobelY ->
                     rectangular 3 3 s).
  { intros s [-> | ->]; split; try reflexivity; repeat constructor. }
  apply bind_returns; [|intros total; eexists; reflexivity].
  apply foldM_returns. intros total y Hy. apply in_range in Hy.
  apply foldM_returns. intros total' x Hx. apply in_range in Hx.
  apply bind_returns; [|intros [gx gy]; eexists; reflexivity].
  apply foldM_returns. intros gxy ky Hky. apply in_range in Hky.
  apply foldM_returns. intros [gx gy] kx Hkx. apply in_range in Hkx.
  rewrite (index2_ok height width g _ _ models.zero32) by (auto; lia).
  cbn [bind].
  rewrite (index2_ok 3 3 models.sobelX ky kx 0) by (auto; lia). cbn [bind].
  rewrite (index2_ok 3 3 models.sobelY ky kx 0) by (auto; lia). cbn [bind].
  eexists. reflexivity.
Qed.

(** On well-formed bounds with a row or more, [extractTextureFeatures]
    returns four components; the second and the third are both the sum of
    the squares over the pixels the loop visits, divided by
    [float32(width * height)]. *)
Lemma extractTextureFeatures_returns (img : Image) :
  well_formed img -> 1 <= Dy (Bounds img) ->
  exists contrast edgeStrength,
    models.extractTextureFeatures img
    = Ok [contrast;
          div32 (energy_sum (gray_rows img) (Dx (Bounds img)) (Dy (Bounds img)))
                (float32_of_int (Dx (Bounds img) * Dy (Bounds img)));
          div32 (energy_sum (gray_rows img) (Dx (Bounds img)) (Dy (Bounds img)))
                (float32_of_int (Dx (Bounds img) * Dy (Bounds img)));
          edgeStrength].
Proof.
  intros Hwf Hh. unfold models.extractTextureFeatures.
  rewrite grayscale_ok by exact Hwf. cbn [bind].
  pose proof (gray_rows_rectangular img Hwf) as Hrect.
  rewrite (texture_sums_ok _ _ _ Hrect). cbn [bind].
  destruct (calculateEdgeStrength_returns _ _ _ Hrect Hh) as [edge Hedge].
  rewrite Hedge.
  pose proof (texture_energy (gray_rows img)
                (coords 0 (Dx (Bounds img) - 1) 0 (Dy (Bounds img) - 1))
                models.zero32 models.zero32) as Hen.
  fold (energy_sum (gray_rows img) (Dx (Bounds img)) (Dy (Bounds img))) in Hen.
  destruct (fold_left _ _ _) as [contrast energy]. cbn [snd] in Hen.
  subst energy. cbn [bind]. eexists _, _. reflexivity.
Qed.

End TextureFacts.

(* ===================================================================== *)
(** * Facts: ExtractFeatures                                               *)
(* ===================================================================== *)

Lemma fold_left_invariant {A B : Type} (P : B -> Prop) (f : B -> A -> B)
  (l : list A) (acc : B) :
  P acc -> (forall b a, P b -> P (f b a)) -> P (fold_left f l acc).
Proof.
  revert acc. induction l as [|a l IH]; intros acc H0 Hstep; [exact H0|].
  cbn [fold_left]. apply IH; auto.
Qed.

(** The error [ExtractFeatures] returns, if it returns one. *)
Definition returned_error {A : Type} (r : result (A * option error))
  : option error :=
  match r with
  | Ok (_, err) => err
  | Panic _ => None
  end.

Section ExtractFacts.

Context {FO : FloatOps}.

Variable PreprocessImage : Image -> Z -> Image.

Lemma length_extractSpatialFeatures (img : Image) :
  len (models.extractSpatialFeatures img) = 48.
Proof.
  unfold models.extractSpatialFeatures.
  apply (fold_left_invariant (fun features => len features = 48)).
  - reflexivity.
  - intros features gy Hlen.
    apply (fold_left_invariant (fun features => len features = 48));
      [exact Hlen|].
    intros features' gx Hlen'.
    destruct (models.cell_bounds _ _ gx gy) as [[[startX endX] startY] endY].
    destruct (models.cell_totals img startX endX startY endY)
      as [[[totalR totalG] totalB] count].
    destruct (0 <? count); [|exact Hlen'].
    unfold len in *. now rewrite !length_set_at.
Qed.

Lemma length_extractColorHistogram (img : Image) :
  len (models.extractColorHistogram img) = 48.
Proof.
  rewrite extractColorHistogram_layout. cbv zeta. unfold len.
  rewrite !length_app, !length_map, !length_range. reflexivity.
Qed.

(** The vector before normalisation has [Dimension] components, and starts
    with the histogram. *)
Lemma combined_returns (e : models.SimpleFeatureExtractor) (processed : Image) :
  0 <= models.Dimension e ->
  well_formed processed -> 1 <= Dy (Bounds processed) ->
  exists features,
    models.combined e processed = Ok features
    /\ len features = models.Dimension e
    /\ (16 <= models.Dimension e ->
        firstn 16 features = firstn 16 (models.extractColorHistogram processed)).
Proof.
  intros HD Hwf Hh. unfold models.combined.
  destruct (extractTextureFeatures_returns processed Hwf Hh)
    as (contrast & edge & ->). cbn [bind].
  set (energy := div32 _ _).
  set (all := (models.extractColorHistogram processed
               ++ [contrast; energy; energy; edge])
              ++ models.extractSpatialFeatures processed).
  assert (Hall : len all = 100).
  { unfold all. rewrite !len_app, length_extractColorHistogram,
      length_extractSpatialFeatures. reflexivity. }
  assert (Hhead : firstn 16 all
                  = firstn 16 (models.extractColorHistogram processed)).
  { unfold all. rewrite <- app_assoc.
    pose proof (length_extractColorHistogram processed) as H48.
    rewrite firstn_app.
    replace (16 - List.length (models.extractColorHistogram processed))%nat
      with 0%nat by (unfold len in H48; lia).
    now rewrite firstn_O, app_nil_r. }
  rewrite Hall.
  destruct (models.Dimension e <? 100) eqn:E1.
  - unfold models.slice_to. rewrite Hall.
    destruct (models.Dimension e <? 0) eqn:E2; [lia|].
    destruct (100 <? models.Dimension e) eqn:E3; [lia|]. cbn [orb].
    eexists. split; [reflexivity|]. split.
    + unfold len in *. rewrite length_firstn. lia.
    + intros H16. rewrite firstn_firstn.
      replace (Nat.min 16 (Z.to_nat (models.Dimension e))) with 16%nat by lia.
      exact Hhead.
  - destruct (100 <? models.Dimension e) eqn:E3.
    + unfold make. destruct (models.Dimension e - 100 <? 0) eqn:E4; [lia|].
      cbn [bind]. eexists. split; [reflexivity|]. split.
      * rewrite len_app, Hall. unfold len. rewrite repeat_length. lia.
      * intros _. rewrite firstn_app.
        replace (16 - List.length all)%nat with 0%nat
          by (unfold len in Hall; lia).
        now rewrite firstn_O, app_nil_r.
    + exists all. split; [reflexivity|]. split; [lia|]. intros _. exact Hhead.
Qed.

Lemma length_l2Normalize (features : list float32) :
  len (models.l2Normalize features) = len features.
Proof.
  unfold models.l2Normalize. destruct (eqb64 _ _); [reflexivity|].
  unfold len. now rewrite length_map.
Qed.

(** [ExtractFeatures] has one return statement, and its error is [nil]. *)
Lemma ExtractFeatures_error_nil (e : models.SimpleFeatureExtractor)
  (img : Image) :
  returned_error (models.ExtractFeatures PreprocessImage e img) = None.
Proof.
  unfold models.ExtractFeatures.
  destruct (models.combined e (PreprocessImage img 224)); reflexivity.
Qed.

End ExtractFacts.

(* ===================================================================== *)
(** * Facts: the normalisation in exact arithmetic                         *)
(* ===================================================================== *)

(** The Euclidean norm of a vector of real numbers. *)
Definition euclidean_norm (v : list R) : R :=
  sqrt (Rsum (map (fun f => (f * f)%R) v)).

Lemma sum_squares_exact (features : list R) :
  @models.sum_squares RealOps features
  = Rsum (map (fun f => (f * f)%R) features).
Proof.
  unfold models.sum_squares, models.zero64, Rsum.
  cbn [float64_of_int add64 mul32 float64_of_float32 RealOps].
  assert (H : forall acc : R,
             fold_left (fun norm f => (norm + f * f)%R) features acc
             = (acc + fold_right Rplus 0%R (map (fun f => (f * f)%R) features))%R).
  { induction features as [|f features IH]; intros acc; cbn [fold_left map fold_right].
    - lra.
    - rewrite IH. lra. }
  rewrite H. lra.
Qed.

Lemma Rsum_squares_nonneg (v : list R) :
  (0 <= Rsum (map (fun f => (f * f)%R) v))%R.
Proof.
  unfold Rsum. induction v as [|f v IH]; cbn [map fold_right]; [lra|].
  pose proof (Rle_0_sqr f) as H. unfold Rsqr in H. lra.
Qed.

Lemma Rsum_squares_zero (v : list R) :
  Rsum (map (fun f => (f * f)%R) v) = 0%R -> Rsum v = 0%R.
Proof.
  unfold Rsum. induction v as [|f v IH]; cbn [map fold_right]; [reflexivity|].
  intros H. pose proof (Rsum_squares_nonneg v) as Hv. unfold Rsum in Hv.
  pose proof (Rle_0_sqr f) as Hf. unfold Rsqr in Hf.
  assert (Hf0 : (f * f = 0)%R) by lra.
  apply Rmult_integral in Hf0. rewrite IH by lra. lra.
Qed.

Lemma Rsum_squares_firstn (n : nat) (v : list R) :
  Rsum (map (fun f => (f * f)%R) v) = 0%R ->
  Rsum (map (fun f => (f * f)%R) (firstn n v)) = 0%R.
Proof.
  intros H. pose proof (Rsum_squares_nonneg (firstn n v)) as H1.
  pose proof (Rsum_squares_nonneg (skipn n v)) as H2.
  rewrite <- (firstn_skipn n v), map_app, Rsum_app in H. lra.
Qed.

Lemma Rsum_scale (c : R) (v : list R) :
  Rsum (map (fun f => (f * c)%R) v) = (Rsum v * c)%R.
Proof.
  unfold Rsum. induction v as [|f v IH]; cbn [map fold_right]; [lra|].
  rewrite IH. lra.
Qed.

(** [l2Normalize] in exact arithmetic: a vector of norm zero is returned as
    it is, any other comes back with norm 1. *)
Lemma l2Normalize_exact (features : list R) :
  (euclidean_norm features = 0%R
   /\ @models.l2Normalize RealOps features = features)
  \/ (euclidean_norm features <> 0%R
      /\ euclidean_norm (@models.l2Normalize RealOps features) = 1%R).
Proof.
  unfold models.l2Normalize. rewrite sum_squares_exact.
  cbn [eqb64 sqrt64 float32_of_float64 float64_of_float32 div64 RealOps].
  unfold models.zero64. cbn [float64_of_int RealOps].
  unfold euclidean_norm at 1 2.
  pose proof (Rsum_squares_nonneg features) as HS.
  pose proof (sqrt_sqrt _ HS) as Hn2.
  set (n := sqrt (Rsum (map (fun f => (f * f)%R) features))) in *.
  destruct (Req_dec_T n 0) as [E|N]; [now left|].
  right. split; [exact N|].
  unfold euclidean_norm. rewrite map_map.
  rewrite (map_ext _ (fun f => (f * f * (/ n * / n))%R))
    by (intros f; unfold Rdiv; ring).
  rewrite <- (map_map (fun f => (f * f)%R) (fun s => (s * (/ n * / n))%R)).
  rewrite Rsum_scale, <- Hn2.
  replace (n * n * (/ n * / n))%R with 1%R by (field; exact N).
  apply sqrt_1.
Qed.

(* ===================================================================== *)
(** * The claims on ExtractFeatures                                        *)
(* ===================================================================== *)

Module preprocess.

(** Modelled from the spec: [utils.PreprocessImage] is not among the
    sources.  The spec has it resize the image so that its shorter side maps
    to the target size and crop the centre square of [target] by [target]
    pixels.  This model takes the centre square of the image and samples the
    nearest pixel; it serves as an instance of the parameter
    [PreprocessImage] where one is needed. *)
Definition PreprocessImage (img : Image) (target : Z) : Image :=
  let b := Bounds img in
  let side := Z.min (Dx b) (Dy b) in
  let left := X (Min b) + (Dx b - side) / 2 in
  let top := Y (Min b) + (Dy b - side) / 2 in
  {| Bounds := {| Min := {| X := 0; Y := 0 |};
                  Max := {| X := target; Y := target |} |};
     At := fun x y =>
             At img (left + x * side / target) (top + y * side / target) |}.

(** An image 640 pixels wide and 480 high. *)
Definition photo : Image :=
  {| Bounds := {| Min := {| X := 0; Y := 0 |};
                  Max := {| X := 640; Y := 480 |} |};
     At := fun x y =>
             {| red := 257 * (x mod 256); green := 257 * (y mod 256);
                blue := 257 * ((x + y) mod 256); alpha := 65535 |} |}.

(** An image with no pixel. *)
Definition empty : Image :=
  {| Bounds := {| Min := {| X := 0; Y := 0 |}; Max := {| X := 0; Y := 0 |} |};
     At := fun _ _ => {| red := 0; green := 0; blue := 0; alpha := 0 |} |}.

(** An image with three rows of no pixel. *)
Definition empty_rows : Image :=
  {| Bounds := {| Min := {| X := 0; Y := 0 |}; Max := {| X := 0; Y := 3 |} |};
     At := fun _ _ => {| red := 0; green := 0; blue := 0; alpha := 0 |} |}.

End preprocess.

Lemma canonical_well_formed (img : Image) :
  canonical img -> well_formed img /\ 1 <= Dy (Bounds img).
Proof. intros [Hw Hh]. unfold well_formed. lia. Qed.

(** C1.  Let [Dimension >= 0] and let the preprocessed image be canonical
    (224 by 224: what preprocessing makes of a valid image).  Whatever the
    float arithmetic, [ExtractFeatures] returns, with a nil error, the
    normalisation of a vector of exactly [Dimension] components, itself of
    [Dimension] components, and [l2Normalize] returns its argument as it
    is when the norm it computes equals zero.  In exact arithmetic the
    vector returned has Euclidean norm 1 unless the norm before
    normalisation is zero, in which case it is that vector unchanged; with
    [Dimension >= 16] (512 by default) the norm is never zero, so the norm
    of the result is 1. *)
Theorem ExtractFeatures_length_and_unit_norm
  (PreprocessImage : Image -> Z -> Image)
  (e : models.SimpleFeatureExtractor) (img : Image) :
  0 <= models.Dimension e ->
  canonical (PreprocessImage img 224) ->
  (forall FO : FloatOps,
     exists features,
       models.combined e (PreprocessImage img 224) = Ok features
       /\ len features = models.Dimension e
       /\ models.ExtractFeatures PreprocessImage e img
          = Ok (models.l2Normalize features, None)
       /\ len (models.l2Normalize features) = models.Dimension e
       /\ (eqb64 (sqrt64 (models.sum_squares features)) models.zero64 = true ->
           models.l2Normalize features = features))
  /\ (exists features v,
        @models.combined RealOps e (PreprocessImage img 224) = Ok features
        /\ @models.ExtractFeatures RealOps PreprocessImage e img = Ok (v, None)
        /\ len v = models.Dimension e
        /\ ((euclidean_norm features = 0%R /\ v = features)
            \/ (euclidean_norm features <> 0%R /\ euclidean_norm v = 1%R))
        /\ (16 <= models.Dimension e -> euclidean_norm v = 1%R)).
Proof.
  intros HD Hcan. destruct (canonical_well_formed _ Hcan) as [Hwf Hh].
  split.
  - intros FO.
    destruct (combined_returns e _ HD Hwf Hh) as (features & Hc & Hlen & _).
    exists features. split; [exact Hc|]. split; [exact Hlen|]. split.
    { unfold models.ExtractFeatures. rewrite Hc. reflexivity. }
    split; [now rewrite length_l2Normalize|].
    intros Hzero. unfold models.l2Normalize. now rewrite Hzero.
  - destruct (@combined_returns RealOps e _ HD Hwf Hh)
      as (features & Hc & Hlen & Hhead).
    exists features, (@models.l2Normalize RealOps features).
    split; [exact Hc|]. split.
    { unfold models.ExtractFeatures. rewrite Hc. reflexivity. }
    split; [now rewrite (@length_l2Normalize RealOps)|].
    split; [apply l2Normalize_exact|].
    intros H16. destruct (l2Normalize_exact features) as [[Hz _]|[_ H1]];
      [exfalso | exact H1].
    unfold euclidean_norm in Hz.
    apply sqrt_eq_0 in Hz; [|apply Rsum_squares_nonneg].
    apply (Rsum_squares_firstn 16), Rsum_squares_zero in Hz.
    pose proof (f_equal Rsum (Hhead H16)) as Hsum.
    destruct Hcan as [Hw Hh'].
    destruct (channel_shares_sum_to_one (PreprocessImage img 224))
      as [Hone _]; [lia | lia |].
    cbv zeta in Hone.
    assert (Habs : 0%R = 1%R).
    { transitivity (Rsum (firstn 16 features)); [symmetry; exact Hz|].
      transitivity (Rsum (firstn 16 (@models.extractColorHistogram RealOps
                                       (PreprocessImage img 224))));
        [exact Hsum | exact Hone]. }
    lra.
Qed.

Lemma ExtractFeatures_length_and_unit_norm_witness :
  0 <= models.Dimension models.NewSimpleFeatureExtractor
  /\ canonical (preprocess.PreprocessImage preprocess.photo 224)
  /\ exists v,
       @models.ExtractFeatures RealOps preprocess.PreprocessImage
         models.NewSimpleFeatureExtractor preprocess.photo = Ok (v, None)
       /\ len v = 512
       /\ euclidean_norm v = 1%R.
Proof.
  assert (H1 : 0 <= models.Dimension models.NewSimpleFeatureExtractor)
    by (cbn; lia).
  assert (H2 : canonical (preprocess.PreprocessImage preprocess.photo 224))
    by (split; reflexivity).
  split; [exact H1|]. split; [exact H2|].
  destruct (ExtractFeatures_length_and_unit_norm preprocess.PreprocessImage
              models.NewSimpleFeatureExtractor preprocess.photo H1 H2)
    as (_ & features & v & _ & Hv & Hlen & _ & Hnorm).
  exists v. split; [exact Hv|]. split; [exact Hlen|].
  apply Hnorm. cbn. lia.
Defined.

(** C2, as the code has it.  [ExtractFeatures] never returns an error,
    whatever the image and whatever preprocessing does.  When
    [Dimension >= 0] and the preprocessed image has well-formed bounds and a
    row or more (a canonical image has 224), it returns a vector of
    [Dimension] components and a nil error. *)
Theorem ExtractFeatures_returns_no_error
  (FO : FloatOps) (PreprocessImage : Image -> Z -> Image)
  (e : models.SimpleFeatureExtractor) (img : Image) :
  returned_error (models.ExtractFeatures PreprocessImage e img) = None
  /\ (0 <= models.Dimension e ->
      well_formed (PreprocessImage img 224) ->
      1 <= Dy (Bounds (PreprocessImage img 224)) ->
      exists v,
        models.ExtractFeatures PreprocessImage e img = Ok (v, None)
        /\ len v = models.Dimension e).
Proof.
  split; [apply ExtractFeatures_error_nil|].
  intros HD Hwf Hh.
  destruct (combined_returns e _ HD Hwf Hh) as (features & Hc & Hlen & _).
  exists (models.l2Normalize features). split.
  - unfold models.ExtractFeatures. rewrite Hc. reflexivity.
  - now rewrite length_l2Normalize.
Qed.

Lemma ExtractFeatures_returns_no_error_witness :
  0 <= models.Dimension models.NewSimpleFeatureExtractor
  /\ well_formed (preprocess.PreprocessImage preprocess.photo 224)
  /\ 1 <= Dy (Bounds (preprocess.PreprocessImage preprocess.photo 224))
  /\ exists v,
       @models.ExtractFeatures IEEEOps preprocess.PreprocessImage
         models.NewSimpleFeatureExtractor preprocess.photo = Ok (v, None)
       /\ len v = 512.
Proof.
  assert (H1 : 0 <= models.Dimension models.NewSimpleFeatureExtractor)
    by (cbn; lia).
  assert (H2 : well_formed (preprocess.PreprocessImage preprocess.photo 224))
    by (split; cbn; lia).
  assert (H3 : 1 <= Dy (Bounds (preprocess.PreprocessImage preprocess.photo 224)))
    by (cbn; lia).
  split; [exact H1|]. split; [exact H2|]. split; [exact H3|].
  exact (proj2 (ExtractFeatures_returns_no_error IEEEOps
                  preprocess.PreprocessImage models.NewSimpleFeatureExtractor
                  preprocess.photo) H1 H2 H3).
Defined.

(** C2 as stated fails: an image of zero area gets no error, whatever
    preprocessing makes of it.  If preprocessing hands it over as it is, the
    image with no row makes [calculateEdgeStrength] panic, and the image
    with three empty rows gets a vector and a nil error. *)
Lemma zero_area_image_gets_no_error :
  Dx (Bounds preprocess.empty) * Dy (Bounds preprocess.empty) = 0
  /\ Dx (Bounds preprocess.empty_rows) * Dy (Bounds preprocess.empty_rows) = 0
  /\ (forall (FO : FloatOps) (PreprocessImage : Image -> Z -> Image)
             (e : models.SimpleFeatureExtractor),
        returned_error
          (models.ExtractFeatures PreprocessImage e preprocess.empty) = None)
  /\ @models.ExtractFeatures IEEEOps (fun img _ => img)
       models.NewSimpleFeatureExtractor preprocess.empty
     = Panic "index out of range"
  /\ exists v,
       @models.ExtractFeatures IEEEOps (fun img _ => img)
         models.NewSimpleFeatureExtractor preprocess.empty_rows
       = Ok (v, None).
Proof.
  split; [reflexivity|]. split; [reflexivity|]. split.
  - intros FO PreprocessImage e. apply ExtractFeatures_error_nil.
  - split; [vm_compute; reflexivity|].
    eexists. vm_compute. reflexivity.
Qed.

(* ===================================================================== *)
(** * The energy component                                                 *)
(* ===================================================================== *)

(** The mean of the squared grey values over the whole image, in exact
    arithmetic: every pixel counted, divided by [width * height]. *)
Definition mean_square_gray (img : Image) : R :=
  (Rsum (map (fun c => (@models.gray_of RealOps c * @models.gray_of RealOps c)%R)
             (pixels img))
   / IZR (Dx (Bounds img) * Dy (Bounds img)))%R.

Lemma Rsum_constant {A : Type} (f : A -> R) (c : R) (l : list A) :
  (forall a, In a l -> f a = c) -> Rsum (map f l) = (IZR (len l) * c)%R.
Proof.
  unfold Rsum. induction l as [|a l IH]; intros H; cbn [map fold_right].
  - cbn. lra.
  - rewrite len_cons, plus_IZR, IH by (intros a' Ha'; apply H; now right).
    rewrite (H a) by now left. lra.
Qed.

Lemma fold_sum_constant {A : Type} (f : A -> R) (c : R) (l : list A) (acc : R) :
  (forall a, In a l -> f a = c) ->
  fold_left (fun s a => (s + f a)%R) l acc = (acc + IZR (len l) * c)%R.
Proof.
  revert acc. induction l as [|a l IH]; intros acc H; cbn [fold_left].
  - cbn. lra.
  - rewrite IH by (intros a' Ha'; apply H; now right).
    rewrite (H a) by now left. rewrite len_cons, plus_IZR. lra.
Qed.

Lemma gray_of_white : @models.gray_of RealOps demo.pixel = 1%R.
Proof.
  unfold models.gray_of, RGBA, demo.pixel. cbn [red green blue alpha].
  change (Z.shiftr (uint32 65535) 8) with 255.
  cbn [float32_of_float64 add64 mul64 lit64 float64_of_int div32
       float32_of_int RealOps].
  unfold Q2R. cbn [Qnum Qden].
  match goal with |- @eq _ ?a ?b => change (@eq R a b) end. lra.
Qed.

(** C7, at the white canonical image and in exact arithmetic: the energy
    and the uniformity components are equal, both [223 * 223 / (224 * 224)],
    for the loop adds the squares of 223 * 223 pixels and the sum is divided
    by [224 * 224]; the mean of the squared grey values over the whole image
    is 1. *)
Theorem energy_leaves_out_last_row_and_column :
  exists contrast edgeStrength,
    @models.extractTextureFeatures RealOps canon.white
    = Ok [contrast; (49729 / 50176)%R; (49729 / 50176)%R; edgeStrength]
    /\ mean_square_gray canon.white = 1%R.
Proof.
  destruct (@extractTextureFeatures_returns RealOps canon.white)
    as (contrast & edge & Hret).
  { split; cbn; lia. }
  { cbn. lia. }
  assert (E : @energy_sum RealOps (@gray_rows RealOps canon.white)
                (Dx (Bounds canon.white)) (Dy (Bounds canon.white))
              = 49729%R).
  { unfold energy_sum. cbn [add32 mul32 RealOps].
    rewrite (fold_sum_constant _ 1%R).
    - rewrite length_coords. unfold models.zero32.
      cbn [float32_of_int RealOps]. cbn. lra.
    - intros [x y] Hin. apply in_coords in Hin. cbn [fst snd].
      unfold gray_at.
      rewrite (@gray_rows_nth RealOps canon.white x y) by (cbn in *; lia).
      cbn [At canon.white]. rewrite gray_of_white. lra. }
  exists contrast, edge. split.
  - rewrite Hret, E. reflexivity.
  - unfold mean_square_gray. rewrite (Rsum_constant _ 1%R).
    + rewrite length_pixels by (split; cbn; lia). cbn. field.
    + intros c Hin. unfold pixels in Hin. apply in_map_iff in Hin.
      destruct Hin as (p & <- & _). cbn [At canon.white].
      rewrite gray_of_white. lra.
Qed.

(** A request handled with the collaborators of a service that is up. *)
Module request.

Definition env : handlers.Env Z :=
  {| handlers.IsValidImageFormat := fun name => prefix "cat" name;
     handlers.LoadImageFromMultipart := fun _ => inl demo.picture;
     handlers.ExtractFeatures := fun _ => ([1; 0], None);
     handlers.SearchSimilar :=
       fun _ topK =>
         inl (map (fun k => {| handlers.ID := Z.of_nat k;
                               handlers.Score := 0;
                               handlers.ImageID := "3f2a91c0-0000-4000";
                               handlers.Distance := 0 |})
                  (seq 0 (Z.to_nat topK)));
     handlers.file_exists := fun _ => true;
     handlers.filepath_Join := fun dir file => (dir ++ "/" ++ file)%string;
     handlers.UploadPath := "./uploads"%string;
     handlers.calculateSimilarity := fun _ => "100.0%"%string;
     handlers.Sprint_error := fun err => err |}.

(** A search with the query string [top_k=<value>], or with no query. *)
Definition search (top_k : option string) : handlers.Context :=
  {| handlers.query :=
       match top_k with
       | Some value => [("top_k"%string, [value])]
       | None => []
       end;
     handlers.FormFile :=
       fun _ => inl {| handlers.Filename := "cat.jpg"; handlers.Size := 2048 |} |}.

End request.

Lemma SearchImage_checks_top_k_witness :
  handlers.SearchImage request.env (request.search (Some "101"%string))
  = top_k_rejected Z
  /\ handlers.SearchImage request.env (request.search (Some "ten"%string))
     = top_k_rejected Z
  /\ handlers.SearchImage request.env (request.search (Some "0"%string))
     = top_k_rejected Z
  /\ handlers.SearchImage request.env (request.search None)
     <> top_k_rejected Z.
Proof.
  pose proof (SearchImage_checks_top_k Z request.env
                (request.search (Some "101"%string))) as (_ & _ & _ & H1).
  pose proof (SearchImage_checks_top_k Z request.env
                (request.search (Some "ten"%string))) as (_ & _ & _ & H2).
  pose proof (SearchImage_checks_top_k Z request.env
                (request.search (Some "0"%string))) as (_ & _ & _ & H3).
  pose proof (SearchImage_checks_top_k Z request.env
                (request.search None)) as (_ & _ & _ & H4).
  change (valid_top_k _) with false in H1, H2, H3.
  change (valid_top_k _) with true in H4.
  split; [exact (proj1 H1)|]. split; [exact (proj1 H2)|].
  split; [exact (proj1 H3) | exact (proj1 H4)].
Defined.

(* ===================================================================== *)
(** * More of package handlers: the file of a hit, the answer of a search  *)
(* ===================================================================== *)

Arguments handlers.r_ImageID {float32} _.
Arguments handlers.r_Score {float32} _.
Arguments handlers.r_Distance {float32} _.
Arguments handlers.r_ImagePath {float32} _.
Arguments handlers.r_Similarity {float32} _.


Section HitFacts.

Variable float32 : Type.
Variable env : handlers.Env float32.




Lemma convert_results_fields
  (searchResults : list (handlers.SearchResult float32)) :
  let results := fst (handlers.convert_results env searchResults) in
  len results = len searchResults
  /\ map handlers.r_ImageID results = map handlers.ImageID searchResults
  /\ map handlers.r_Score results = map handlers.Score searchResults
  /\ map handlers.r_Distance results = map handlers.Distance searchResults
  /\ map handlers.r_ImagePath results
     = map (fun hit => fst (handlers.findActualImageFile env (handlers.ImageID hit)))
           searchResults.
Proof.
  cbv zeta. induction searchResults as [|hit rest IH];
    cbn [handlers.convert_results]; [repeat split|].
  destruct (handlers.findActualImageFile env (handlers.ImageID hit))
    as [path calls] eqn:Hpath.
  destruct (handlers.convert_results env rest) as [results calls'].
  cbn [fst map] in *. destruct IH as (H0 & H1 & H2 & H3 & H4).
  rewrite !len_cons, H0, H1, H2, H3, H4.
  cbn [handlers.r_ImageID handlers.r_Score handlers.r_Distance
       handlers.r_ImagePath fst]. repeat split.
  now rewrite Hpath.
Qed.

(** X2.  When [SearchImage] answers 200, the query is a file of a valid
    format that was loaded, its features were extracted without error and
    the store was searched once, with those features and the validated
    [top_k]; the body has [Success] set, and its results are the hits of
    the store, as many and in their order, each with the identifier, score
    and distance of its hit and the file [findActualImageFile] finds for
    it. *)
Theorem SearchImage_ok_lists_every_hit (c : handlers.Context) :
  let answer := handlers.SearchImage env c in
  let body := snd (fst answer) in
  let topKStr := handlers.DefaultQuery c "top_k" "10" in
  fst (fst answer) = handlers.StatusOK ->
  exists file img queryFeatures hits,
    valid_top_k topKStr = true
    /\ handlers.FormFile c "image" = inl file
    /\ handlers.IsValidImageFormat env (handlers.Filename file) = true
    /\ handlers.LoadImageFromMultipart env file = inl img
    /\ handlers.ExtractFeatures env img = (queryFeatures, None)
    /\ handlers.SearchSimilar env queryFeatures (fst (strconv.Atoi topKStr))
       = inl hits
    /\ firstn 3 (snd answer)
       = [handlers.CallLoadImage file; handlers.CallExtractFeatures img;
          handlers.CallSearchSimilar queryFeatures (fst (strconv.Atoi topKStr))]
    /\ Forall (is_stat float32) (skipn 3 (snd answer))
    /\ handlers.Success body = true
    /\ handlers.Total body = len hits
    /\ len (handlers.Results body) = len hits
    /\ map handlers.r_ImageID (handlers.Results body)
       = map handlers.ImageID hits
    /\ map handlers.r_Score (handlers.Results body) = map handlers.Score hits
    /\ map handlers.r_Distance (handlers.Results body)
       = map handlers.Distance hits
    /\ map handlers.r_ImagePath (handlers.Results body)
       = map (fun hit =>
                fst (handlers.findActualImageFile env (handlers.ImageID hit)))
             hits.
Proof.
  cbv zeta. unfold handlers.SearchImage, valid_top_k.
  destruct (strconv.Atoi (handlers.DefaultQuery c "top_k" "10"))
    as [topK [err|]]; cbn [orb fst snd]; [discriminate|].
  destruct (Z.leb_spec topK 0) as [Hle|Hgt]; cbn [orb]; [discriminate|].
  destruct (Z.ltb_spec 100 topK) as [Hbig|Hsmall]; [discriminate|].
  replace (1 <=? topK) with true by (symmetry; apply Z.leb_le; lia).
  replace (topK <=? 100) with true by (symmetry; apply Z.leb_le; lia).
  destruct (handlers.FormFile c "image") as [file|e]; [|discriminate].
  destruct (handlers.IsValidImageFormat env (handlers.Filename file)) eqn:Hfmt;
    cbn [negb]; [|discriminate].
  destruct (handlers.LoadImageFromMultipart env file) as [img|e] eqn:Hload;
    [|discriminate].
  destruct (handlers.ExtractFeatures env img) as [queryFeatures [e|]] eqn:Hext;
    [discriminate|].
  destruct (handlers.SearchSimilar env queryFeatures topK) as [hits|e]
    eqn:Hsearch; [|discriminate].
  pose proof (convert_results_fields hits) as Hfields.
  pose proof (convert_results_stats float32 env hits) as Hstat.
  destruct (handlers.convert_results env hits) as [results calls].
  cbv zeta in Hfields. cbn [fst snd] in *. intros _.
  destruct Hfields as (H0 & H1 & H2 & H3 & H4).
  exists file, img, queryFeatures, hits.
  cbn [handlers.Success handlers.Total handlers.Results app firstn skipn].
  repeat split; auto.
Qed.

End HitFacts.

Lemma SearchImage_ok_lists_every_hit_witness :
  fst (fst (handlers.SearchImage request.env (request.search (Some "3"%string))))
  = handlers.StatusOK
  /\ handlers.Total
       (snd (fst (handlers.SearchImage request.env
                    (request.search (Some "3"%string))))) = 3.
Proof.
  assert (H : fst (fst (handlers.SearchImage request.env
                          (request.search (Some "3"%string))))
              = handlers.StatusOK) by (vm_compute; reflexivity).
  split; [exact H|].
  destruct (SearchImage_ok_lists_every_hit Z request.env
              (request.search (Some "3"%string)) H)
    as (file & img & qf & hits & _ & _ & _ & _ & _ & Hsearch & _ & _ & _
        & Htotal & _).
  rewrite Htotal. vm_compute in Hsearch. injection Hsearch as <-. reflexivity.
Defined.

(* ===================================================================== *)
(** * More of test/main.go: discovery, the collector, a whole run          *)
(* ===================================================================== *)

Module dataset.

(** [os.FileInfo], the two methods [findImageFiles] calls. *)
Record FileInfo : Type := { Name : string; IsDir : bool }.

(** What [filepath.Walk] hands to its callback for one entry: the path, and
    either the entry's information or the error of reading it. *)
Definition Visit : Type := (string * (FileInfo + error))%type.

(** The totals [resultCollector] keeps. *)
Record Totals : Type := {
  totalProcessed : Z;
  totalErrors : Z;
  batchCount : Z
}.

(** What a run of [ProcessDataset] leaves: the error it returns and, when
    the pipeline ran, the totals the collector has after the last result. *)
Record Outcome : Type := {
  returned : option error;
  collected : option Totals
}.

Section Dataset.

Variable float32 : Type.

(** The collaborators of discovery: the entries [filepath.Walk] visits under
    a root, in its order, and [utils.IsValidImageFormat]. *)
Record WalkEnv : Type := {
  Walk : main.World float32 -> string -> list Visit;
  IsValidImageFormat : string -> bool
}.

Variable env : main.Env float32.
Variable walk : WalkEnv.

(** The callback of [findImageFiles] over the entries of the walk: the
    walk stops at the first entry whose callback returns an error. *)
Fixpoint walk_entries (entries : list Visit) (imageFiles : list string)
  : list string * option error :=
  match entries with
  | [] => (imageFiles, None)
  | (path, inr err) :: _ => (imageFiles, Some err)
  | (path, inl info) :: rest =>
      if negb (IsDir info) && IsValidImageFormat walk (Name info) then
        walk_entries rest (imageFiles ++ [path])
      else walk_entries rest imageFiles
  end.

(** ** findImageFiles *)
Definition findImageFiles (rootPath : string) (w : main.World float32)
  : list string * option error :=
  walk_entries (Walk walk w rootPath) [].

(** ** resultCollector: the totals after the results read so far (the
    progress lines are left out). *)
Definition collect (totals : Totals) (result : main.BatchResult) : Totals :=
  {| batchCount := batchCount totals + 1;
     totalProcessed := totalProcessed totals + main.ProcessedCount result;
     totalErrors := totalErrors totals + main.ErrorCount result |}.

Definition resultCollector (results : list main.BatchResult) : Totals :=
  fold_left collect results
    {| totalProcessed := 0; totalErrors := 0; batchCount := 0 |}.

(** ** ProcessDataset with one worker ([maxWorkers = 1]): discovery, the
    division for [totalBatches] (a panic when [batchSize] is zero), the
    batches sent, the worker over them, the collector over its results.
    [None] when the sending loop does not end within [fuel] iterations. *)
Definition ProcessDataset (fuel : nat) (datasetPath : string) (batchSize : Z)
  (w : main.World float32)
  : option (result Outcome) * main.World float32 :=
  let '(imageFiles, err) := findImageFiles datasetPath w in
  match err with
  | Some err =>
      (Some (Ok {| returned := Some ("查找图像文件失败: " ++ err)%string;
                   collected := None |}), w)
  | None =>
      if batchSize =? 0 then
        (Some (Panic "integer divide by zero"), w)
      else
        match main.dispatch fuel imageFiles batchSize with
        | None => (None, w)
        | Some (Panic msg) => (Some (Panic msg), w)
        | Some (Ok jobs) =>
            let '(results, w') := main.worker env jobs w in
            (Some (Ok {| returned := None;
                         collected := Some (resultCollector results) |}), w')
        end
  end.

End Dataset.

Arguments Walk {float32} _ _ _.
Arguments IsValidImageFormat {float32} _ _.
Arguments walk_entries {float32} _ _ _.
Arguments findImageFiles {float32} _ _ _.
Arguments ProcessDataset {float32} _ _ _ _ _ _.

End dataset.

(* ===================================================================== *)
(** * Facts: what a batch leaves behind                                    *)
(* ===================================================================== *)

Lemma NoDup_map_in {A B : Type} (f : A -> B) (xs : list A) :
  (forall x y, In x xs -> In y xs -> f x = f y -> x = y) ->
  NoDup xs -> NoDup (map f xs).
Proof.
  intros Hinj Hnd. induction Hnd as [|x xs Hx Hnd IH]; cbn; constructor.
  - intros Hin. apply in_map_iff in Hin. destruct Hin as (y & E & Hy).
    assert (y = x) by (apply Hinj; [now right | now left | exact E]).
    subst. contradiction.
  - apply IH. intros a b Ha Hb. apply Hinj; now right.
Qed.

Section BatchEffects.

Variable float32 : Type.
Variable env : main.Env float32.

Abbreviation BWorld := (main.World float32).
Abbreviation BLocals := (main.Locals float32).
Abbreviation item := (main.process_item env).
Abbreviation items := (main.forM (main.process_item env)).


(** What one item does to the locals and to the world: a failure adds one
    to [errorCount] and writes no file; an item that goes through takes the
    next identifier, writes one file at the path of that identifier and
    appends the identifier and the vector.  Neither touches the store. *)
Lemma process_item_outcome (l : BLocals) (imagePath : string) (w : BWorld) :
  let l' := fst (item l imagePath w) in
  let w' := snd (item l imagePath w) in
  main.inserted w' = main.inserted w
  /\ main.flushes w' = main.flushes w
  /\ ((l' = main.item_failed l
       /\ main.uploads w' = main.uploads w
       /\ (main.uuid_calls w <= main.uuid_calls w' <= S (main.uuid_calls w))%nat)
      \/ (exists features img,
            l' = item_stored l (main.uuid_String env (main.uuid_calls w)) features
            /\ main.uploads w'
               = main.uploads w
                 ++ [(destPath_of float32 env
                        (main.uuid_String env (main.uuid_calls w)) imagePath,
                      img)]
            /\ main.uuid_calls w' = S (main.uuid_calls w))).
Proof.
  cbv zeta. unfold main.process_item, main.bindM, main.ask, main.ret.
  destruct (main.LoadImageFromFile env w imagePath) as [img|err].
  2: { cbn [fst snd]. repeat split. left. repeat split; lia. }
  destruct (main.ExtractFeatures env img) as [features [err|]].
  { cbn [fst snd]. repeat split. left. repeat split; lia. }
  unfold main.uuid_New, main.copyImageFile, main.bindM, main.ask, main.ret,
    main.saveImage.
  destruct (main.MkdirAll env _ _).
  { cbn. repeat split. left. repeat split; lia. }
  destruct (main.LoadImageFromFile env _ _) as [img'|err].
  2: { cbn. repeat split. left. repeat split; lia. }
  destruct (main.SaveImage env _ _ _).
  { cbn. repeat split. left. repeat split; lia. }
  cbn. repeat split. right. exists features, img'. repeat split.
Qed.

Lemma items_cons (x : string) (xs : list string) (l : BLocals) (w : BWorld) :
  items (x :: xs) l w = items xs (fst (item l x w)) (snd (item l x w)).
Proof.
  cbn [main.forM]. unfold main.bindM. now destruct (item l x w).
Qed.

(** The invariant of the loop of [processBatch], on what it leaves: the
    identifiers appended are those of fresh [uuid] calls, in increasing
    order, one per file written, each file at the path of its identifier
    and of the source path it copies; the store is not touched. *)
Lemma loop_outcome (imagePaths : list string) :
  forall (l : BLocals) (w : BWorld),
  let l' := fst (items imagePaths l w) in
  let w' := snd (items imagePaths l w) in
  main.inserted w' = main.inserted w
  /\ main.flushes w' = main.flushes w
  /\ (main.uuid_calls w <= main.uuid_calls w')%nat
  /\ exists stored : list (nat * string * Image),
       main.imageIDs l'
       = main.imageIDs l
         ++ map (fun s => main.uuid_String env (fst (fst s))) stored
       /\ main.uploads w'
          = main.uploads w
            ++ map (fun s =>
                      (destPath_of float32 env
                         (main.uuid_String env (fst (fst s))) (snd (fst s)),
                       snd s))
                   stored
       /\ main.successCount l' = main.successCount l + len stored
       /\ Forall (fun s => (main.uuid_calls w <= fst (fst s)
                            < main.uuid_calls w')%nat
                           /\ In (snd (fst s)) imagePaths) stored
       /\ NoDup (map (fun s => fst (fst s)) stored).
Proof.
  induction imagePaths as [|x xs IH]; intros l w; cbv zeta.
  - cbn. repeat split; try lia. exists []. cbn. rewrite !app_nil_r.
    repeat split; try lia; constructor.
  - rewrite items_cons.
    pose proof (process_item_outcome l x w) as Hitem. cbv zeta in Hitem.
    destruct (item l x w) as [l1 w1]. cbn [fst snd] in *.
    specialize (IH l1 w1). cbv zeta in IH.
    destruct IH as (Hins & Hfl & Huu & stored & Hids & Hup & Hcount & Hall & Hnd).
    destruct Hitem as (Hins1 & Hfl1 & [(-> & Hup1 & Huu1)
                                      | (features & img & -> & Hup1 & Huu1)]).
    + split; [congruence|]. split; [congruence|]. split; [lia|].
      exists stored. cbn [main.item_failed main.imageIDs main.successCount] in *.
      split; [exact Hids|]. split; [now rewrite Hup, Hup1|].
      split; [exact Hcount|]. split; [|exact Hnd].
      eapply Forall_impl; [|exact Hall]. cbv beta.
      intros s [Hk Hin]. split; [lia | now right].
    + split; [congruence|]. split; [congruence|]. split; [lia|].
      exists ((main.uuid_calls w, x, img) :: stored).
      cbn [item_stored main.imageIDs main.successCount map fst snd] in *.
      split; [now rewrite Hids, <- app_assoc|].
      split; [now rewrite Hup, Hup1, <- app_assoc|].
      split; [rewrite Hcount, len_cons; lia|]. split.
      * constructor.
        -- cbn [fst snd]. split; [lia | now left].
        -- eapply Forall_impl; [|exact Hall]. cbv beta.
           intros s [Hk Hin]. split; [lia | now right].
      * constructor; [|exact Hnd]. intros Hin.
        apply in_map_iff in Hin. destruct Hin as (s & Hs & Hin).
        rewrite Forall_forall in Hall. destruct (Hall s Hin) as [Hk _]. lia.
Qed.

(** X3.  After the loop of [processBatch], whatever the batch and the
    world: there are as many identifiers as vectors, [successCount] of
    each; the upload directory holds [successCount] more files than before,
    the old ones untouched; every accumulated identifier has its copy, the
    file at [UploadPath/<id><ext>] of one path of the batch; and the store
    has not been written to. *)
Theorem every_stored_id_has_its_copy (imagePaths : list string) (w : BWorld) :
  let l := fst (after_loop env imagePaths w) in
  let w1 := snd (after_loop env imagePaths w) in
  len (main.imageIDs l) = main.successCount l
  /\ len (main.vectors l) = main.successCount l
  /\ len (main.uploads w1) = len (main.uploads w) + main.successCount l
  /\ firstn (List.length (main.uploads w)) (main.uploads w1) = main.uploads w
  /\ Forall (fun imageID =>
               exists imagePath img,
                 In imagePath imagePaths
                 /\ In (destPath_of float32 env imageID imagePath, img)
                       (main.uploads w1))
            (main.imageIDs l)
  /\ main.inserted w1 = main.inserted w
  /\ main.insert_calls w1 = main.insert_calls w.
Proof.
  cbv zeta. unfold after_loop.
  pose proof (loop_outcome imagePaths no_locals (snd (main.uuid_New env w)))
    as H. cbv zeta in H.
  destruct H as (Hins & _ & _ & stored & Hids & Hup & Hcount & Hall & _).
  destruct (loop_aligned float32 env imagePaths no_locals
              (snd (main.uuid_New env w)) eq_refl) as [Hal _].
  rewrite loop_insert_calls.
  cbn [no_locals main.imageIDs main.successCount app] in Hids, Hcount.
  cbn [main.uuid_New snd main.uploads main.inserted main.insert_calls] in *.
  assert (Hlen : len (main.imageIDs
                        (fst (items imagePaths no_locals
                                (snd (main.uuid_New env w)))))
                 = len stored).
  { cbn [main.uuid_New snd]. rewrite Hids. unfold len. now rewrite length_map. }
  cbn [main.uuid_New snd] in Hlen, Hal.
  split; [lia|]. split; [unfold aligned in Hal; lia|].
  split; [rewrite Hup, len_app; unfold len; rewrite length_map; unfold len in *; lia|].
  split.
  { rewrite Hup, firstn_app, Nat.sub_diag, firstn_O, app_nil_r.
    apply firstn_all. }
  split; [|split; [exact Hins | reflexivity]].
  rewrite Hids. apply Forall_map, Forall_forall. intros s Hs.
  rewrite Forall_forall in Hall. destruct (Hall s Hs) as [_ Hin].
  exists (snd (fst s)), (snd s). split; [exact Hin|].
  rewrite Hup. apply in_or_app. right.
  apply in_map_iff. exists s. split; [reflexivity | exact Hs].
Qed.

(** X4.  When [uuid] hands out different identifiers on the calls of a
    batch, the identifiers the batch accumulates are pairwise different,
    and none is the one its batch identifier was cut from. *)
Theorem batch_identifiers_are_distinct (imagePaths : list string) (w : BWorld) :
  let l := fst (after_loop env imagePaths w) in
  let w1 := snd (after_loop env imagePaths w) in
  (forall j k, (main.uuid_calls w <= j < main.uuid_calls w1)%nat ->
               (main.uuid_calls w <= k < main.uuid_calls w1)%nat ->
               main.uuid_String env j = main.uuid_String env k -> j = k) ->
  NoDup (main.imageIDs l)
  /\ Forall (fun imageID =>
               imageID <> main.uuid_String env (main.uuid_calls w))
            (main.imageIDs l).
Proof.
  cbv zeta. unfold after_loop. intros Hinj.
  pose proof (loop_outcome imagePaths no_locals (snd (main.uuid_New env w)))
    as H. cbv zeta in H.
  destruct H as (_ & _ & Huu & stored & Hids & _ & _ & Hall & Hnd).
  cbn [no_locals main.imageIDs app] in Hids.
  cbn [main.uuid_New snd main.uuid_calls] in *.
  rewrite Hids. rewrite Forall_forall in Hall. split.
  - rewrite <- (map_map (fun s => fst (fst s)) (main.uuid_String env)).
    apply NoDup_map_in; [|exact Hnd].
    intros j k Hj Hk E.
    apply in_map_iff in Hj. destruct Hj as (sj & <- & Hj).
    apply in_map_iff in Hk. destruct Hk as (sk & <- & Hk).
    destruct (Hall sj Hj) as [Bj _]. destruct (Hall sk Hk) as [Bk _].
    apply Hinj; [lia | lia | exact E].
  - apply Forall_map, Forall_forall. intros s Hs E.
    destruct (Hall s Hs) as [Bs _].
    apply Hinj in E; lia.
Qed.

(** X5.  What a batch does to the vector store, case by case.  No
    identifier: the batch is reported done and the store is not called.
    Otherwise [client.Insert] is called once with all the rows; when it and
    [client.Flush] accept, the batch is done, the rows are in and one flush
    is counted; when [client.Insert] refuses, the batch is failed with its
    error behind the insert prefix and the store is as before; when
    [client.Flush] refuses, the batch is failed with its error behind the
    flush prefix although the rows are in.  The error about mismatched
    counts never comes out of [processBatch], and the files copied by the
    loop stay in every case. *)
Theorem processBatch_store_outcome (imagePaths : list string) (w : BWorld) :
  let l := fst (after_loop env imagePaths w) in
  let w1 := snd (after_loop env imagePaths w) in
  let r := fst (main.processBatch env imagePaths w) in
  let w2 := snd (main.processBatch env imagePaths w) in
  let rows := (main.imageIDs l, main.vectors l) in
  main.uploads w2 = main.uploads w1
  /\ ((main.imageIDs l = []
       /\ r = batch_done (batchID_of env w) l /\ w2 = w1)
      \/ (main.imageIDs l <> []
          /\ r = batch_done (batchID_of env w) l
          /\ main.insert_calls w2 = main.insert_calls w ++ [rows]
          /\ main.inserted w2 = main.inserted w ++ [rows]
          /\ main.flushes w2 = S (main.flushes w))
      \/ (exists err,
            main.imageIDs l <> []
            /\ main.client_Insert env w1 (main.imageIDs l) (main.vectors l)
               = Some err
            /\ r = batch_failed (batchID_of env w) imagePaths
                     ("插入向量失败: " ++ err)%string
            /\ main.insert_calls w2 = main.insert_calls w ++ [rows]
            /\ main.inserted w2 = main.inserted w
            /\ main.flushes w2 = main.flushes w)
      \/ (exists err,
            main.imageIDs l <> []
            /\ main.client_Insert env w1 (main.imageIDs l) (main.vectors l)
               = None
            /\ r = batch_failed (batchID_of env w) imagePaths
                     ("刷新数据失败: " ++ err)%string
            /\ main.insert_calls w2 = main.insert_calls w ++ [rows]
            /\ main.inserted w2 = main.inserted w ++ [rows]
            /\ main.flushes w2 = main.flushes w)).
Proof.
  cbv zeta. rewrite processBatch_unfold. cbv zeta.
  pose proof (loop_outcome imagePaths no_locals (snd (main.uuid_New env w)))
    as H. cbv zeta in H. destruct H as (Hins & Hfl & _).
  pose proof (loop_insert_calls float32 env imagePaths no_locals
                (snd (main.uuid_New env w))) as Hcalls.
  destruct (loop_aligned float32 env imagePaths no_locals
              (snd (main.uuid_New env w)) eq_refl) as [Hal _].
  fold (after_loop env imagePaths w) in Hins, Hfl, Hcalls, Hal.
  cbn [main.uuid_New snd main.inserted main.flushes main.insert_calls]
    in Hins, Hfl, Hcalls.
  destruct (after_loop env imagePaths w) as [l w1]. cbn [fst snd] in *.
  destruct (0 <? len (main.imageIDs l)) eqn:Hsome.
  - assert (Hne : main.imageIDs l <> []).
    { intros E. rewrite E in Hsome. discriminate. }
    unfold main.InsertVectors. unfold aligned in Hal.
    rewrite (proj2 (Z.eqb_eq _ _) Hal). cbn [negb].
    destruct (main.client_Insert env w1 _ _) as [err|] eqn:Hinsert.
    + cbn [fst snd main.uploads]. split; [reflexivity|].
      right. right. left. exists err. cbn.
      repeat split; auto; congruence.
    + destruct (main.client_Flush env _) as [err|].
      * cbn [fst snd main.uploads]. split; [reflexivity|].
        right. right. right. exists err. cbn.
        repeat split; auto; congruence.
      * cbn [fst snd main.uploads]. split; [reflexivity|].
        right. left. cbn. repeat split; auto; congruence.
  - cbn [fst snd]. split; [reflexivity|]. left.
    destruct (main.imageIDs l) as [|i ids]; [now repeat split|].
    rewrite len_cons in Hsome. pose proof (len_nonneg ids).
    apply Z.ltb_ge in Hsome. lia.
Qed.

Lemma loop_all_fail (imagePaths : list string) :
  forall (l : BLocals) (w : BWorld),
  (forall imagePath w', In imagePath imagePaths ->
     item_failure env imagePath w') ->
  fst (items imagePaths l w)
  = {| main.imageIDs := main.imageIDs l; main.vectors := main.vectors l;
       main.successCount := main.successCount l;
       main.errorCount := main.errorCount l + len imagePaths |}.
Proof.
  induction imagePaths as [|x xs IH]; intros l w Hfail.
  - cbn. destruct l. cbn. f_equal. lia.
  - rewrite items_cons.
    rewrite (process_item_failure float32 env l x w (Hfail x w (or_introl eq_refl))).
    rewrite IH by (intros p w' Hp; apply Hfail; now right).
    cbn [main.item_failed main.imageIDs main.vectors main.successCount
         main.errorCount].
    rewrite len_cons. f_equal. lia.
Qed.

(** X6.  A batch none of whose files gets through (each one fails to load,
    to extract or to copy, wherever it is reached) is reported as a success:
    [Success] is true and [Error] is nil, with no file processed and every
    file counted as an error.  The store is not called and the upload
    directory is as before. *)
Theorem batch_without_survivor_reports_success
  (imagePaths : list string) (w : BWorld) :
  (forall imagePath w', In imagePath imagePaths ->
     item_failure env imagePath w') ->
  let r := fst (main.processBatch env imagePaths w) in
  let w2 := snd (main.processBatch env imagePaths w) in
  r = {| main.Success := true; main.ProcessedCount := 0;
         main.ErrorCount := len imagePaths;
         main.BatchID := batchID_of env w; main.Error := None |}
  /\ main.insert_calls w2 = main.insert_calls w
  /\ main.inserted w2 = main.inserted w
  /\ main.flushes w2 = main.flushes w
  /\ main.uploads w2 = main.uploads w.
Proof.
  intros Hfail. cbv zeta. rewrite processBatch_unfold. cbv zeta.
  pose proof (loop_all_fail imagePaths no_locals (snd (main.uuid_New env w))
                Hfail) as Hl.
  pose proof (loop_outcome imagePaths no_locals (snd (main.uuid_New env w)))
    as H. cbv zeta in H.
  destruct H as (Hins & Hfl & _ & stored & _ & Hup & Hcount & _).
  pose proof (loop_insert_calls float32 env imagePaths no_locals
                (snd (main.uuid_New env w))) as Hcalls.
  fold (after_loop env imagePaths w) in Hl, Hins, Hfl, Hup, Hcount, Hcalls.
  cbn [main.uuid_New snd main.inserted main.flushes main.insert_calls
       main.uploads no_locals main.imageIDs main.vectors main.successCount
       main.errorCount] in Hl, Hins, Hfl, Hup, Hcount, Hcalls.
  destruct (after_loop env imagePaths w) as [l w1]. cbn [fst snd] in *.
  subst l. cbn [main.imageIDs main.successCount] in *.
  assert (stored = []) as ->.
  { destruct stored; [reflexivity|]. rewrite len_cons in Hcount.
    pose proof (len_nonneg stored). lia. }
  cbn [map] in Hup. rewrite app_nil_r in Hup.
  change (0 <? len (@nil string)) with false. cbn [fst snd batch_done].
  cbn [main.successCount main.errorCount].
  repeat split; auto.
Qed.

End BatchEffects.

Lemma batch_identifiers_are_distinct_witness :
  let env := demo.env None in
  let batch := ["a.jpg"; "bad.jpg"; "c.jpg"]%string in
  NoDup (main.imageIDs (fst (after_loop env batch demo.world)))
  /\ Forall (fun imageID =>
               imageID <> main.uuid_String env (main.uuid_calls demo.world))
            (main.imageIDs (fst (after_loop env batch demo.world))).
Proof.
  cbv zeta.
  apply (batch_identifiers_are_distinct Z (demo.env None)
           ["a.jpg"; "bad.jpg"; "c.jpg"]%string demo.world).
  intros j k Hj Hk.
  change (main.uuid_calls demo.world) with 0%nat in Hj, Hk.
  change (main.uuid_calls
            (snd (after_loop (demo.env None)
                    ["a.jpg"; "bad.jpg"; "c.jpg"]%string demo.world)))
    with 3%nat in Hj, Hk.
  destruct j as [|[|[|j]]]; destruct k as [|[|[|k]]]; try lia;
    cbn; intros E; try reflexivity; discriminate E.
Defined.

Lemma batch_without_survivor_reports_success_witness :
  let env := demo.env None in
  let batch := ["bad1.jpg"; "bad2.png"]%string in
  let r := fst (main.processBatch env batch demo.world) in
  main.Success r = true /\ main.ProcessedCount r = 0
  /\ main.ErrorCount r = 2 /\ main.Error r = None.
Proof.
  cbv zeta.
  destruct (batch_without_survivor_reports_success Z (demo.env None)
              ["bad1.jpg"; "bad2.png"]%string demo.world) as [Hr _].
  - intros p w' [<- | [<- | []]];
      apply (load_fails Z (demo.env None) _ w' "image: unknown format"%string);
      reflexivity.
  - rewrite Hr. repeat split.
Defined.

(* ===================================================================== *)
(** * Facts: discovery and a whole run of ProcessDataset                   *)
(* ===================================================================== *)

(** The entries the walk hands over before the first one it could not read,
    and the error of that one. *)
Fixpoint before_error (entries : list dataset.Visit) : list dataset.Visit :=
  match entries with
  | [] => []
  | (path, inr _) :: _ => []
  | (path, inl info) :: rest => (path, inl info) :: before_error rest
  end.

Fixpoint first_error (entries : list dataset.Visit) : option error :=
  match entries with
  | [] => None
  | (_, inr err) :: _ => Some err
  | (_, inl _) :: rest => first_error rest
  end.

Section DatasetFacts.

Variable float32 : Type.
Variable env : main.Env float32.
Variable walk : dataset.WalkEnv float32.

Abbreviation DWorld := (main.World float32).

(** A regular file whose name has an image extension. *)
Definition is_image_entry (v : dataset.Visit) : bool :=
  match snd v with
  | inl info =>
      negb (dataset.IsDir info)
      && dataset.IsValidImageFormat walk (dataset.Name info)
  | inr _ => false
  end.

Lemma walk_entries_spec (entries : list dataset.Visit) :
  forall imageFiles,
  dataset.walk_entries walk entries imageFiles
  = (imageFiles ++ map fst (filter is_image_entry (before_error entries)),
     first_error entries).
Proof.
  induction entries as [|[path [info|err]] rest IH]; intros imageFiles.
  - cbn. now rewrite app_nil_r.
  - cbn [dataset.walk_entries before_error first_error filter].
    unfold is_image_entry at 1. cbn [snd].
    destruct (negb (dataset.IsDir info)
              && dataset.IsValidImageFormat walk (dataset.Name info)).
    + rewrite IH. cbn [map fst]. now rewrite <- app_assoc.
    + apply IH.
  - cbn. now rewrite app_nil_r.
Qed.

(** X7.  [findImageFiles] returns the paths of the regular files with an
    image name, in the order of the walk, among the entries visited before
    the first one the walk could not read; it returns them together with the
    error of that entry, and nothing visited after it.  The name tested is
    the entry's base name and the path kept is the walk's. *)
Theorem findImageFiles_keeps_images_in_walk_order
  (rootPath : string) (w : DWorld) :
  let entries := dataset.Walk walk w rootPath in
  dataset.findImageFiles walk rootPath w
  = (map fst (filter is_image_entry (before_error entries)),
     first_error entries)
  /\ (forall path, In path (fst (dataset.findImageFiles walk rootPath w)) ->
        exists info,
          In (path, inl info) entries
          /\ dataset.IsDir info = false
          /\ dataset.IsValidImageFormat walk (dataset.Name info) = true).
Proof.
  cbv zeta. unfold dataset.findImageFiles. rewrite walk_entries_spec.
  cbn [app fst]. split; [reflexivity|].
  intros path Hin. apply in_map_iff in Hin.
  destruct Hin as ([p [info|err]] & Hp & Hin); cbn [fst] in Hp; subst p;
    apply filter_In in Hin; destruct Hin as [Hin Himg];
    unfold is_image_entry in Himg; cbn [snd] in Himg; [|discriminate].
  apply andb_true_iff in Himg. destruct Himg as [Hdir Hvalid].
  exists info. split; [|split; [now apply negb_true_iff | exact Hvalid]].
  clear -Hin. induction (dataset.Walk walk w rootPath) as [|[q [i|e]] rest IH];
    cbn [before_error] in Hin; [contradiction | | contradiction].
  destruct Hin as [E | Hin]; [left; exact E | right; now apply IH].
Qed.






(** X9.  A run that stops before any batch.  When the walk fails,
    [ProcessDataset] returns its error behind the discovery prefix, whatever
    files were found before it.  When the walk went through and the batch
    size is zero, it panics on the division for [totalBatches], even on an
    empty dataset; when the batch size is negative, it returns nil on an
    empty dataset and panics on the first slice otherwise.  In each case
    nothing was loaded, copied or sent to the store. *)
Theorem ProcessDataset_stops_before_any_batch
  (fuel : nat) (datasetPath : string) (batchSize : Z) (w : DWorld) :
  let found := dataset.findImageFiles walk datasetPath w in
  snd found <> None \/ batchSize <= 0 ->
  fuel <> O ->
  dataset.ProcessDataset env walk fuel datasetPath batchSize w
  = (match snd found with
     | Some err =>
         Some (Ok {| dataset.returned :=
                       Some ("查找图像文件失败: " ++ err)%string;
                     dataset.collected := None |})
     | None =>
         if batchSize =? 0 then Some (Panic "integer divide by zero")
         else match fst found with
              | [] =>
                  Some (Ok {| dataset.returned := None;
                              dataset.collected :=
                                Some {| dataset.totalProcessed := 0;
                                        dataset.totalErrors := 0;
                                        dataset.batchCount := 0 |} |})
              | _ :: _ => Some (Panic "slice bounds out of range")
              end
     end, w).
Proof.
  cbv zeta. intros Hstop Hfuel. unfold dataset.ProcessDataset.
  destruct (dataset.findImageFiles walk datasetPath w) as [imageFiles [err|]];
    cbn [fst snd] in *; [reflexivity|].
  destruct Hstop as [Hstop | Hneg]; [congruence|].
  destruct (batchSize =? 0) eqn:E; [reflexivity|].
  apply Z.eqb_neq in E.
  destruct fuel as [|fuel]; [congruence|].
  unfold main.dispatch. cbn [main.send_batches].
  destruct imageFiles as [|f files].
  - cbn. reflexivity.
  - rewrite len_cons. pose proof (len_nonneg files) as HN.
    destruct (0 <? len files + 1) eqn:E0; [|apply Z.ltb_ge in E0; lia].
    destruct (len files + 1 <? 0 + batchSize) eqn:E1;
      [apply Z.ltb_lt in E1; lia|].
    unfold main.slice.
    destruct (0 <? 0) eqn:E2; [discriminate|].
    destruct (0 + batchSize <? 0) eqn:E3; [reflexivity|].
    apply Z.ltb_ge in E3. lia.
Qed.

End DatasetFacts.

Arguments is_image_entry {float32} _ _.

(** A small dataset directory: two images, a text file, a directory with an
    image name; images are told by the extension [.jpg]. *)
Module tree.

Definition has_jpg_extension (name : string) : bool :=
  String.eqb (substring (String.length name - 4) 4 name) ".jpg".

Definition walk : dataset.WalkEnv Z :=
  {| dataset.Walk :=
       fun _ root =>
         [(root, inl {| dataset.Name := "data"; dataset.IsDir := true |});
          ((root ++ "/a.jpg")%string,
           inl {| dataset.Name := "a.jpg"; dataset.IsDir := false |});
          ((root ++ "/album.jpg")%string,
           inl {| dataset.Name := "album.jpg"; dataset.IsDir := true |});
          ((root ++ "/album.jpg/bad.jpg")%string,
           inl {| dataset.Name := "bad.jpg"; dataset.IsDir := false |});
          ((root ++ "/notes.txt")%string,
           inl {| dataset.Name := "notes.txt"; dataset.IsDir := false |})];
     dataset.IsValidImageFormat := has_jpg_extension |}.

End tree.


Lemma ProcessDataset_stops_before_any_batch_witness :
  dataset.ProcessDataset (demo.env None) tree.walk 3 "data" (-5) demo.world
  = (Some (Panic "slice bounds out of range"), demo.world)
  /\ dataset.ProcessDataset (demo.env None) tree.walk 3 "data" 0 demo.world
     = (Some (Panic "integer divide by zero"), demo.world).
Proof.
  split.
  - apply (ProcessDataset_stops_before_any_batch Z (demo.env None) tree.walk
             3 "data" (-5) demo.world); [right; lia | discriminate].
  - apply (ProcessDataset_stops_before_any_batch Z (demo.env None) tree.walk
             3 "data" 0 demo.world); [right; lia | discriminate].
Defined.

(* ===================================================================== *)
(** * More of package models: BatchExtractFeatures                         *)
(* ===================================================================== *)

Module extractor.

(** [fmt.Sprintf] of an [int] under the verb [%d]. *)
Definition itoa (i : Z) : string := NilZero.string_of_int (Z.to_int i).

Section BatchExtract.

Context {FO : FloatOps}.

Variable PreprocessImage : Image -> Z -> Image.

(** The loop of [BatchExtractFeatures] from image number [i] on; an error of
    [ExtractFeatures] ends it with a nil slice and the error wrapped. *)
Fixpoint batch_loop (e : models.SimpleFeatureExtractor) (images : list Image)
  (i : Z) (features : list (list float32))
  : result (list (list float32) * option error) :=
  match images with
  | [] => Ok (features, None)
  | img :: rest =>
      (r <- models.ExtractFeatures PreprocessImage e img ;;
       let '(feature, err) := r in
       match err with
       | Some err =>
           Ok ([], Some ("提取第" ++ itoa i ++ "张图像特征失败: " ++ err)%string)
       | None => batch_loop e rest (i + 1) (set_at features i feature)
       end)%go
  end.

(** ** BatchExtractFeatures *)
Definition BatchExtractFeatures (e : models.SimpleFeatureExtractor)
  (images : list Image) : result (list (list float32) * option error) :=
  (features <- make ([] : list float32) (len images) ;;
   batch_loop e images 0 features)%go.

End BatchExtract.

End extractor.

(* ===================================================================== *)
(** * Facts: more on the extractor                                         *)
(* ===================================================================== *)

Section ExtractorFacts.

Context {FO : FloatOps}.

Variable PreprocessImage : Image -> Z -> Image.

Abbreviation extract := (models.ExtractFeatures PreprocessImage).

(** X10.  The vector before normalisation, laid out: the 48 histogram
    shares, then contrast, energy, energy again (the uniformity is the
    energy) and the edge strength, then the 48 spatial means: 100
    components that depend on the image.  [Dimension] cuts this list or
    pads it with zeros: of the default 512 components the last 412 are
    padding; a [Dimension] below 100 cuts the spatial means first; a
    negative one makes the slice expression panic. *)
Theorem combined_layout (e : models.SimpleFeatureExtractor) (processed : Image) :
  well_formed processed -> 1 <= Dy (Bounds processed) ->
  exists contrast energy edgeStrength,
    models.extractTextureFeatures processed
    = Ok [contrast; energy; energy; edgeStrength]
    /\ models.combined e processed
       = if models.Dimension e <? 0 then Panic "slice bounds out of range"
         else Ok (firstn (Z.to_nat (models.Dimension e))
                    (((models.extractColorHistogram processed
                       ++ [contrast; energy; energy; edgeStrength])
                      ++ models.extractSpatialFeatures processed)
                     ++ repeat models.zero32
                          (Z.to_nat (models.Dimension e - 100)))).
Proof.
  intros Hwf Hh.
  destruct (extractTextureFeatures_returns processed Hwf Hh)
    as (contrast & edge & Htex).
  eexists contrast, _, edge. split; [exact Htex|].
  unfold models.combined. rewrite Htex. cbn [bind].
  set (energy := div32 _ _).
  set (all := (models.extractColorHistogram processed
               ++ [contrast; energy; energy; edge])
              ++ models.extractSpatialFeatures processed).
  assert (Hall : len all = 100).
  { unfold all. rewrite !len_app, length_extractColorHistogram,
      length_extractSpatialFeatures. reflexivity. }
  rewrite Hall.
  destruct (models.Dimension e <? 100) eqn:E1.
  - unfold models.slice_to. rewrite Hall.
    destruct (models.Dimension e <? 0) eqn:E2; [reflexivity|].
    destruct (100 <? models.Dimension e) eqn:E3; [lia|]. cbn [orb].
    replace (Z.to_nat (models.Dimension e - 100)) with 0%nat by lia.
    cbn [repeat]. now rewrite app_nil_r.
  - destruct (models.Dimension e <? 0) eqn:E2; [lia|].
    destruct (100 <? models.Dimension e) eqn:E3.
    + unfold make. destruct (models.Dimension e - 100 <? 0) eqn:E4; [lia|].
      cbn [bind]. rewrite firstn_all2; [reflexivity|].
      rewrite length_app, repeat_length. unfold len in Hall. lia.
    + replace (Z.to_nat (models.Dimension e - 100)) with 0%nat by lia.
      cbn [repeat]. rewrite app_nil_r, firstn_all2; [reflexivity|].
      unfold len in Hall. lia.
Qed.

(** X11.  A preprocessed image without rows makes [ExtractFeatures] panic,
    whatever the arithmetic and the dimension: with zero rows the first row
    [calculateEdgeStrength] reads is out of range, with a negative height
    the allocation of the grey image fails.  No error value is returned. *)
Theorem ExtractFeatures_panics_without_rows
  (e : models.SimpleFeatureExtractor) (img : Image) :
  Dy (Bounds (PreprocessImage img 224)) <= 0 ->
  extract e img
  = Panic (if Dy (Bounds (PreprocessImage img 224)) =? 0
           then "index out of range" else "makeslice: len out of range").
Proof.
  intros Hh. unfold models.ExtractFeatures, models.combined,
    models.extractTextureFeatures, models.grayscale. cbv zeta.
  set (processed := PreprocessImage img 224) in *.
  destruct (Dy (Bounds processed) =? 0) eqn:E.
  - apply Z.eqb_eq in E. rewrite E.
    change (make (@nil float32) 0) with (Ok (@nil (list float32))).
    cbn [bind len List.length Z.of_nat]. rewrite (range_empty 0 0) by lia.
    cbn [foldM bind].
    rewrite (range_empty (Y (Min (Bounds processed)))) by (unfold Dy in E; lia).
    cbn [fold_left]. unfold models.texture_sums.
    rewrite (range_empty 0 (0 - 1)) by lia. cbn [foldM bind].
    reflexivity.
  - apply Z.eqb_neq in E. unfold make.
    destruct (Dy (Bounds processed) <? 0) eqn:E1; [reflexivity|].
    apply Z.ltb_ge in E1. lia.
Qed.

(** X12.  An image less than four pixels wide or high has no spatial
    feature: every cell of the grid is empty, the guard on the pixel count
    skips the three writes, and the 48 components stay zero.  No mean is
    taken over zero pixels. *)
Theorem extractSpatialFeatures_of_small_image (img : Image) :
  -4 < Dx (Bounds img) < 4 \/ -4 < Dy (Bounds img) < 4 ->
  models.extractSpatialFeatures img = repeat models.zero32 48.
Proof.
  intros Hsmall. unfold models.extractSpatialFeatures.
  change (Z.to_nat (4 * 4 * 3)) with 48%nat.
  apply (fold_left_invariant
           (fun features => features = repeat models.zero32 48));
    [reflexivity|].
  intros features gy ->.
  apply (fold_left_invariant
           (fun features => features = repeat models.zero32 48));
    [reflexivity|].
  intros features gx ->.
  unfold models.cell_bounds. cbv zeta.
  rewrite cell_totals_spec, length_coords.
  set (count := Z.max 0 _ * Z.max 0 _).
  assert (Hcount : count = 0).
  { unfold count. destruct Hsmall as [Hw | Hh].
    - assert (Hq : Z.quot (Dx (Bounds img)) 4 = 0)
        by (apply Z.quot_small_iff; lia).
      rewrite Hq, !Z.mul_0_r.
      destruct (Dx (Bounds img) <? 0) eqn:E.
      + apply Z.ltb_lt in E. rewrite Z.max_l by lia. lia.
      + rewrite Z.max_l by lia. lia.
    - assert (Hq : Z.quot (Dy (Bounds img)) 4 = 0)
        by (apply Z.quot_small_iff; lia).
      rewrite Hq, !Z.mul_0_r.
      destruct (Dy (Bounds img) <? 0) eqn:E.
      + apply Z.ltb_lt in E. rewrite (Z.max_l 0 (Dy (Bounds img) - 0)) by lia.
        lia.
      + rewrite (Z.max_l 0 (0 - 0)) by lia. lia. }
  rewrite Hcount. reflexivity.
Qed.

Lemma cell_totals_ext (img1 img2 : Image) (startX endX startY endY : Z) :
  Bounds img1 = Bounds img2 ->
  (forall x y, startX <= x < endX -> startY <= y < endY ->
     At img1 (X (Min (Bounds img1)) + x) (Y (Min (Bounds img1)) + y)
     = At img2 (X (Min (Bounds img1)) + x) (Y (Min (Bounds img1)) + y)) ->
  models.cell_totals img1 startX endX startY endY
  = models.cell_totals img2 startX endX startY endY.
Proof.
  intros Hb Hat. unfold models.cell_totals. cbv zeta. rewrite <- Hb.
  apply fold_left_ext_in. intros totals y Hy. apply in_range in Hy.
  apply fold_left_ext_in. intros [[[tR tG] tB] n] x Hx. apply in_range in Hx.
  now rewrite Hat.
Qed.

(** X13.  The spatial features read the pixels of the 16 cells only.  The
    cells are [width/4] wide and [height/4] high, so the columns and rows
    left over by the two divisions, at the right and at the bottom, are in
    no cell: two images of the same bounds that agree on the grid have the
    same spatial features, whatever lies in the leftover strips. *)
Theorem extractSpatialFeatures_ignores_remainder (img1 img2 : Image) :
  Bounds img1 = Bounds img2 ->
  (forall x y,
     0 <= x < 4 * Z.quot (Dx (Bounds img1)) 4 ->
     0 <= y < 4 * Z.quot (Dy (Bounds img1)) 4 ->
     At img1 (X (Min (Bounds img1)) + x) (Y (Min (Bounds img1)) + y)
     = At img2 (X (Min (Bounds img1)) + x) (Y (Min (Bounds img1)) + y)) ->
  models.extractSpatialFeatures img1 = models.extractSpatialFeatures img2.
Proof.
  intros Hb Hat. unfold models.extractSpatialFeatures. cbv zeta.
  rewrite <- Hb.
  apply fold_left_ext_in. intros features gy Hgy. apply in_range in Hgy.
  apply fold_left_ext_in. intros features' gx Hgx. apply in_range in Hgx.
  unfold models.cell_bounds. cbv zeta.
  rewrite (cell_totals_ext img1 img2); [reflexivity | exact Hb |].
  intros x y Hx Hy. apply Hat.
  - destruct (Z.ltb_spec (Dx (Bounds img1))
                ((gx + 1) * Z.quot (Dx (Bounds img1)) 4)); nia.
  - destruct (Z.ltb_spec (Dy (Bounds img1))
                ((gy + 1) * Z.quot (Dy (Bounds img1)) 4)); nia.
Qed.

End ExtractorFacts.

Lemma combined_layout_witness :
  let e := models.NewSimpleFeatureExtractor in
  let processed := preprocess.PreprocessImage preprocess.photo 224 in
  exists contrast energy edgeStrength,
    @models.extractTextureFeatures IEEEOps processed
    = Ok [contrast; energy; energy; edgeStrength]
    /\ @models.combined IEEEOps e processed
       = if models.Dimension e <? 0 then Panic "slice bounds out of range"
         else Ok (firstn (Z.to_nat (models.Dimension e))
                    (((models.extractColorHistogram processed
                       ++ [contrast; energy; energy; edgeStrength])
                      ++ models.extractSpatialFeatures processed)
                     ++ repeat models.zero32
                          (Z.to_nat (models.Dimension e - 100)))).
Proof.
  cbv zeta.
  apply (@combined_layout IEEEOps models.NewSimpleFeatureExtractor
           (preprocess.PreprocessImage preprocess.photo 224)).
  - split; cbn; lia.
  - cbn; lia.
Defined.

Lemma ExtractFeatures_panics_without_rows_witness :
  @models.ExtractFeatures IEEEOps (fun img _ => img)
    models.NewSimpleFeatureExtractor preprocess.empty
  = Panic "index out of range".
Proof.
  apply (@ExtractFeatures_panics_without_rows IEEEOps (fun img _ => img)
           models.NewSimpleFeatureExtractor preprocess.empty).
  cbn. lia.
Defined.

Lemma extractSpatialFeatures_of_small_image_witness :
  @models.extractSpatialFeatures IEEEOps demo.picture
  = repeat (@models.zero32 IEEEOps) 48.
Proof.
  apply (@extractSpatialFeatures_of_small_image IEEEOps demo.picture).
  left. cbn. lia.
Defined.

(** Two images 226 pixels wide and high: one white all over, one white on
    the grid of 224 by 224 and black on the two leftover strips. *)
Module strips.

Definition white : Color :=
  {| red := 65535; green := 65535; blue := 65535; alpha := 65535 |}.

Definition black : Color :=
  {| red := 0; green := 0; blue := 0; alpha := 65535 |}.

Definition bounds : Rectangle :=
  {| Min := {| X := 0; Y := 0 |}; Max := {| X := 226; Y := 226 |} |}.

Definition plain : Image := {| Bounds := bounds; At := fun _ _ => white |}.

Definition framed : Image :=
  {| Bounds := bounds;
     At := fun x y => if (x <? 224) && (y <? 224) then white else black |}.

End strips.

Lemma extractSpatialFeatures_ignores_remainder_witness :
  @models.extractSpatialFeatures IEEEOps strips.plain
  = @models.extractSpatialFeatures IEEEOps strips.framed
  /\ At strips.plain 225 0 = strips.white
  /\ At strips.framed 225 0 = strips.black.
Proof.
  split; [|split; reflexivity].
  apply (@extractSpatialFeatures_ignores_remainder IEEEOps
           strips.plain strips.framed); [reflexivity|].
  intros x y Hx Hy.
  change (4 * Z.quot (Dx (Bounds strips.plain)) 4) with 224 in Hx.
  change (4 * Z.quot (Dy (Bounds strips.plain)) 4) with 224 in Hy.
  cbn [strips.plain strips.framed At Bounds strips.bounds Min X Y Z.add].
  destruct (Z.ltb_spec x 224); [|lia].
  destruct (Z.ltb_spec y 224); [|lia].
  reflexivity.
Defined.

(* ===================================================================== *)
(** * Facts: the normalisation applied twice, a batch of images            *)
(* ===================================================================== *)

(** X14.  In exact arithmetic [l2Normalize] is idempotent: a vector it
    returns is returned as it is when normalised again, whether it came back
    unchanged (norm zero) or scaled to norm 1. *)
Theorem l2Normalize_idempotent (features : list R) :
  @models.l2Normalize RealOps (@models.l2Normalize RealOps features)
  = @models.l2Normalize RealOps features.
Proof.
  destruct (l2Normalize_exact features) as [[_ E] | [_ H1]].
  - rewrite E. exact E.
  - set (v := @models.l2Normalize RealOps features) in *.
    unfold models.l2Normalize. rewrite sum_squares_exact.
    cbn [eqb64 sqrt64 float32_of_float64 float64_of_float32 div64 RealOps].
    unfold models.zero64. cbn [float64_of_int RealOps].
    unfold euclidean_norm in H1. rewrite H1.
    destruct (Req_dec_T 1 0) as [E|_]; [lra|].
    rewrite <- (map_id v) at 2. apply map_ext. intros f.
    unfold Rdiv. rewrite Rinv_1. apply Rmult_1_r.
Qed.

Section BatchExtractFacts.

Context {FO : FloatOps}.

Variable PreprocessImage : Image -> Z -> Image.
Variable e : models.SimpleFeatureExtractor.

Abbreviation extract1 := (models.ExtractFeatures PreprocessImage e).

(** The images of a list on which [ExtractFeatures] returns, with what it
    returns. *)
Definition extracted (images : list Image) (vs : list (list float32)) : Prop :=
  Forall2 (fun img v => extract1 img = Ok (v, None)) images vs.

Lemma extract_error_nil (img : Image) (v : list float32) (err : option error) :
  extract1 img = Ok (v, err) -> err = None.
Proof.
  intros H. pose proof (ExtractFeatures_error_nil PreprocessImage e img) as Hn.
  rewrite H in Hn. exact Hn.
Qed.

Lemma set_at_next {A : Type} (done : list A) (a v : A) (todo : list A) :
  set_at (done ++ a :: todo) (len done) v = (done ++ [v]) ++ todo.
Proof.
  unfold set_at, len. destruct (Z.ltb_spec (Z.of_nat (List.length done)) 0);
    [lia|].
  rewrite Nat2Z.id, set_nth_app_r, <- app_assoc. reflexivity.
Qed.

(** The loop of [BatchExtractFeatures], when it has filled [done] and has
    [images] to go. *)
Lemma batch_loop_spec (images : list Image) :
  forall done : list (list float32),
  let run :=
    extractor.batch_loop PreprocessImage e images (len done)
      (done ++ repeat [] (List.length images)) in
  returned_error run = None
  /\ (forall vs, extracted images vs -> run = Ok (done ++ vs, None))
  /\ (forall before img after vs msg,
        images = before ++ img :: after ->
        extracted before vs ->
        extract1 img = Panic msg ->
        run = Panic msg).
Proof.
  induction images as [|img rest IH]; intros done; cbv zeta.
  - cbn [extractor.batch_loop List.length repeat returned_error].
    split; [reflexivity|]. split.
    + intros vs Hvs. inversion Hvs. reflexivity.
    + intros [|b before] img after vs msg E; discriminate E.
  - cbn [extractor.batch_loop List.length repeat].
    destruct (extract1 img) as [[v err]|msg] eqn:Himg.
    + pose proof (extract_error_nil img v err Himg). subst err.
      cbn [bind]. rewrite set_at_next.
      specialize (IH (done ++ [v])). cbv zeta in IH.
      rewrite len_app in IH. change (len [v]) with 1 in IH.
      destruct IH as (Hnone & Hall & Hpanic).
      split; [exact Hnone|]. split.
      * intros vs Hvs. inversion Hvs as [|? v' ? vs' Hv Hrest]; subst.
        rewrite Himg in Hv. injection Hv as <-.
        rewrite (Hall vs' Hrest), <- app_assoc. reflexivity.
      * intros before img' after vs msg E Hbefore Hmsg.
        destruct before as [|b before]; cbn [app] in E; injection E as -> ->.
        -- rewrite Himg in Hmsg. discriminate.
        -- inversion Hbefore as [|? ? ? vs' _ Hrest]; subst.
           apply (Hpanic before img' after vs' msg eq_refl Hrest Hmsg).
    + cbn [bind returned_error]. split; [reflexivity|]. split.
      * intros vs Hvs. inversion Hvs as [|? v' ? vs' Hv Hrest]; subst.
        rewrite Himg in Hv. discriminate.
      * intros before img' after vs msg' E Hbefore Hmsg.
        destruct before as [|b before]; cbn [app] in E; injection E as -> ->.
        -- rewrite Himg in Hmsg. now injection Hmsg as ->.
        -- inversion Hbefore as [|? v' ? vs' Hv _]; subst.
           rewrite Himg in Hv. discriminate.
Qed.

Lemma BatchExtractFeatures_unfold (images : list Image) :
  extractor.BatchExtractFeatures PreprocessImage e images
  = extractor.batch_loop PreprocessImage e images (len (@nil (list float32)))
      ([] ++ repeat [] (List.length images)).
Proof.
  unfold extractor.BatchExtractFeatures, make.
  pose proof (len_nonneg images).
  destruct (Z.ltb_spec (len images) 0); [lia|]. cbn [bind app].
  unfold len at 1. rewrite Nat2Z.id. reflexivity.
Qed.

(** X15.  [BatchExtractFeatures] never returns an error: the branch that
    wraps an error of [ExtractFeatures] with the number of the image cannot
    be taken.  When [ExtractFeatures] returns on every image, the batch is
    the list of their vectors, one for each image and in their order. *)
Theorem BatchExtractFeatures_never_returns_error (images : list Image) :
  returned_error (extractor.BatchExtractFeatures PreprocessImage e images)
  = None
  /\ (forall vs, extracted images vs ->
        extractor.BatchExtractFeatures PreprocessImage e images
        = Ok (vs, None)
        /\ len vs = len images).
Proof.
  rewrite BatchExtractFeatures_unfold.
  pose proof (batch_loop_spec images []) as H. cbv zeta in H.
  destruct H as (Hnone & Hall & _).
  split; [exact Hnone|]. intros vs Hvs. split; [now apply Hall|].
  unfold len. now rewrite (Forall2_length Hvs).
Qed.

(** X16.  One image on which [ExtractFeatures] panics takes the whole
    batch with it: when the images before it went through, the batch panics
    with the message of that image and the vectors already extracted are
    lost. *)
Theorem BatchExtractFeatures_panics_with_its_image
  (before after : list Image) (img : Image) (vs : list (list float32))
  (msg : string) :
  extracted before vs ->
  extract1 img = Panic msg ->
  extractor.BatchExtractFeatures PreprocessImage e (before ++ img :: after)
  = Panic msg.
Proof.
  intros Hbefore Hmsg. rewrite BatchExtractFeatures_unfold.
  pose proof (batch_loop_spec (before ++ img :: after) []) as H.
  cbv zeta in H. destruct H as (_ & _ & Hpanic).
  apply (Hpanic before img after vs msg eq_refl Hbefore Hmsg).
Qed.

End BatchExtractFacts.

Arguments extracted {FO} _ _ _ _.

Lemma photo_extracted :
  exists v,
    @models.ExtractFeatures IEEEOps preprocess.PreprocessImage
      models.NewSimpleFeatureExtractor preprocess.photo = Ok (v, None).
Proof.
  destruct (@combined_returns IEEEOps models.NewSimpleFeatureExtractor
              (preprocess.PreprocessImage preprocess.photo 224))
    as (features & Hc & _); [cbn; lia | split; cbn; lia | cbn; lia |].
  exists (models.l2Normalize features).
  unfold models.ExtractFeatures. rewrite Hc. reflexivity.
Defined.

Lemma BatchExtractFeatures_never_returns_error_witness :
  exists vs,
    @extractor.BatchExtractFeatures IEEEOps preprocess.PreprocessImage
      models.NewSimpleFeatureExtractor [preprocess.photo; preprocess.photo]
    = Ok (vs, None)
    /\ len vs = 2.
Proof.
  destruct photo_extracted as [v Hv].
  exists [v; v].
  apply (proj2 (@BatchExtractFeatures_never_returns_error IEEEOps
                  preprocess.PreprocessImage models.NewSimpleFeatureExtractor
                  [preprocess.photo; preprocess.photo])).
  apply Forall2_cons; [exact Hv|].
  apply Forall2_cons; [exact Hv|]. apply Forall2_nil.
Defined.

Lemma BatchExtractFeatures_panics_with_its_image_witness :
  @extractor.BatchExtractFeatures IEEEOps (fun img _ => img)
    models.NewSimpleFeatureExtractor
    [preprocess.empty_rows; preprocess.empty; preprocess.empty_rows]
  = Panic "index out of range".
Proof.
  assert (H : exists v,
            @models.ExtractFeatures IEEEOps (fun img _ => img)
              models.NewSimpleFeatureExtractor preprocess.empty_rows
            = Ok (v, None)).
  { eexists. vm_compute. reflexivity. }
  destruct H as [v Hv].
  apply (@BatchExtractFeatures_panics_with_its_image IEEEOps (fun img _ => img)
           models.NewSimpleFeatureExtractor [preprocess.empty_rows]
           [preprocess.empty_rows] preprocess.empty [v]
           "index out of range").
  - apply Forall2_cons; [exact Hv | apply Forall2_nil].
  - vm_compute. reflexivity.
Defined.

(* ===================================================================== *)
(** * More of package handlers: UploadImage                                *)
(* ===================================================================== *)

Module upload.

(** [UploadImageResponse] *)
Record UploadImageResponse : Type := {
  Success : bool;
  Message : string;
  ImageID : string;
  ImagePath : string
}.

Section UploadImage.

Variable float32 : Type.

(** What the handler writes to: the upload directory, as the files
    [utils.SaveUploadedFile] has put there, and the vector store with the
    counter of [uuid]. *)
Record World : Type := {
  saved : list (string * handlers.FileHeader);
  milvus : main.World float32
}.

(** The collaborators of the handler that are its own: package [utils] and
    [config.Server.MaxFileSize].  The extractor, the Milvus client, [uuid]
    and [filepath] are those of the batch inserter. *)
Record Env : Type := {
  IsValidImageFormat : string -> bool;
  MaxFileSize : Z;
  SaveUploadedFile : World -> handlers.FileHeader -> string -> option error;
  LoadImageFromFile : World -> string -> Image + error
}.

Variable store : main.Env float32.
Variable env : Env.

Definition failure (code : Z) (message : string) : Z * UploadImageResponse :=
  (code, {| Success := false; Message := message; ImageID := "";
            ImagePath := "" |}).

(** ** UploadImage: the status and the body given to [c.JSON], and the world
    it leaves. *)
Definition UploadImage (c : handlers.Context) (w : World)
  : (Z * UploadImageResponse) * World :=
  match handlers.FormFile c "image" with
  | inr _ => (failure handlers.StatusBadRequest "没有找到图像文件", w)
  | inl file =>
      if negb (IsValidImageFormat env (handlers.Filename file)) then
        (failure handlers.StatusBadRequest "不支持的图像格式", w)
      else if MaxFileSize env <? handlers.Size file then
        (failure handlers.StatusBadRequest
           ("文件大小超过限制 ("
            ++ extractor.itoa (Z.quot (MaxFileSize env) (1024 * 1024))
            ++ " MB)"), w)
      else
        let '(imageID, m1) := main.uuid_New store (milvus w) in
        let ext := main.filepath_Ext store (handlers.Filename file) in
        let filename := (imageID ++ ext)%string in
        let filePath :=
          main.filepath_Join store (main.UploadPath store) filename in
        let w1 := {| saved := saved w; milvus := m1 |} in
        match SaveUploadedFile env w1 file filePath with
        | Some err =>
            (failure handlers.StatusInternalServerError
               ("保存文件失败: " ++ err), w1)
        | None =>
            let w2 :=
              {| saved := saved w1 ++ [(filePath, file)]; milvus := m1 |} in
            match LoadImageFromFile env w2 filePath with
            | inr err =>
                (failure handlers.StatusInternalServerError
                   ("加载图像失败: " ++ err), w2)
            | inl img =>
                let '(features, err) := main.ExtractFeatures store img in
                match err with
                | Some err =>
                    (failure handlers.StatusInternalServerError
                       ("特征提取失败: " ++ err), w2)
                | None =>
                    let '(failed, m2) :=
                      main.InsertVectors store [imageID] [features]
                        (milvus w2) in
                    let w3 := {| saved := saved w2; milvus := m2 |} in
                    match failed with
                    | Some err =>
                        (failure handlers.StatusInternalServerError
                           ("向量存储失败: " ++ err), w3)
                    | None =>
                        ((handlers.StatusOK,
                          {| Success := true; Message := "图像上传成功";
                             ImageID := imageID; ImagePath := filename |}),
                         w3)
                    end
                end
            end
        end
  end.

End UploadImage.

Arguments saved {float32} _.
Arguments milvus {float32} _.
Arguments IsValidImageFormat {float32} _ _.
Arguments MaxFileSize {float32} _.
Arguments SaveUploadedFile {float32} _ _ _ _.
Arguments LoadImageFromFile {float32} _ _ _.
Arguments UploadImage {float32} _ _ _ _.

End upload.

(* ===================================================================== *)
(** * Facts: what an upload leaves behind                                  *)
(* ===================================================================== *)

Section UploadFacts.

Variable float32 : Type.
Variable store : main.Env float32.
Variable env : upload.Env float32.

Abbreviation UWorld := (upload.World float32).

(** The identifier an upload that starts in [w] takes, and the path it
    saves the file of name [filename] at. *)
Definition upload_id (w : UWorld) : string :=
  main.uuid_String store (main.uuid_calls (upload.milvus w)).

Definition upload_name (w : UWorld) (file : handlers.FileHeader) : string :=
  (upload_id w ++ main.filepath_Ext store (handlers.Filename file))%string.

Definition upload_path (w : UWorld) (file : handlers.FileHeader) : string :=
  main.filepath_Join store (main.UploadPath store) (upload_name w file).


(** X18.  What any other answer of [UploadImage] leaves.  The body names no
    identifier and no path.  On 400 nothing was written.  On 500 the file the
    handler saved is not removed: unless the save itself failed it stays in
    the upload directory under a name the client is not told; and when it is
    the flush that failed, its vector is in the store as well. *)
Theorem UploadImage_failure_leaves_the_file
  (c : handlers.Context) (w : UWorld) :
  let answer := upload.UploadImage store env c w in
  let code := fst (fst answer) in
  let body := snd (fst answer) in
  let w' := snd answer in
  code <> handlers.StatusOK ->
  upload.Success body = false
  /\ upload.ImageID body = ""%string
  /\ upload.ImagePath body = ""%string
  /\ ((code = handlers.StatusBadRequest /\ w' = w)
      \/ (code = handlers.StatusInternalServerError
          /\ exists file,
               handlers.FormFile c "image" = inl file
               /\ ((exists err,
                      upload.Message body = ("保存文件失败: " ++ err)%string
                      /\ upload.saved w' = upload.saved w
                      /\ main.inserted (upload.milvus w')
                         = main.inserted (upload.milvus w))
                   \/ (upload.saved w'
                       = upload.saved w ++ [(upload_path w file, file)]
                       /\ (main.inserted (upload.milvus w')
                           = main.inserted (upload.milvus w)
                           \/ exists features err,
                                upload.Message body
                                = ("向量存储失败: 刷新数据失败: " ++ err)%string
                                /\ main.inserted (upload.milvus w')
                                   = main.inserted (upload.milvus w)
                                     ++ [([upload_id w], [features])]))))).
Proof.
  cbv zeta. unfold upload.UploadImage, upload_path, upload_name, upload_id.
  destruct (handlers.FormFile c "image") as [file|err] eqn:Hfile.
  2: { cbn. intros _. repeat split. left. now split. }
  destruct (upload.IsValidImageFormat env (handlers.Filename file)) eqn:Hvalid;
    cbn [negb].
  2: { cbn. intros _. repeat split. left. now split. }
  destruct (upload.MaxFileSize env <? handlers.Size file) eqn:Hsize.
  { cbn. intros _. repeat split. left. now split. }
  cbn [main.uuid_New].
  destruct (upload.SaveUploadedFile env _ file _) as [err|].
  { cbn. intros _. repeat split. right. split; [reflexivity|].
    exists file. split; [reflexivity|]. left. exists err. now repeat split. }
  cbn [upload.saved upload.milvus].
  destruct (upload.LoadImageFromFile env _ _) as [img|err].
  2: { cbn. intros _. repeat split. right. split; [reflexivity|].
       exists file. split; [reflexivity|]. right. split; [reflexivity|].
       now left. }
  destruct (main.ExtractFeatures store img) as [features [err|]] eqn:Hext.
  { cbn. intros _. repeat split. right. split; [reflexivity|].
    exists file. split; [reflexivity|]. right. split; [reflexivity|].
    now left. }
  unfold main.InsertVectors.
  change (len [main.uuid_String store (main.uuid_calls (upload.milvus w))]
          =? len [features]) with true. cbn [negb]. cbv beta zeta.
  destruct (main.client_Insert store _ _ _) as [err|].
  { cbn. intros _. repeat split. right. split; [reflexivity|].
    exists file. split; [reflexivity|]. right. split; [reflexivity|].
    now left. }
  destruct (main.client_Flush store _) as [err|].
  - cbn. intros _. repeat split. right. split; [reflexivity|].
    exists file. split; [reflexivity|]. right. split; [reflexivity|].
    right. exists features, err. now split.
  - cbn. intros H. now contradiction H.
Qed.

End UploadFacts.

Arguments upload_id {float32} _ _.
Arguments upload_name {float32} _ _ _.
Arguments upload_path {float32} _ _ _.

(** An upload of a small picture under the name [cat.jpg]. *)
Module posted.

Definition file : handlers.FileHeader :=
  {| handlers.Filename := "cat.jpg"; handlers.Size := 2048 |}.

Definition request : handlers.Context :=
  {| handlers.query := [];
     handlers.FormFile :=
       fun name =>
         if String.eqb name "image" then inl file
         else inr "http: no such file"%string |}.

Definition env : upload.Env Z :=
  {| upload.IsValidImageFormat := tree.has_jpg_extension;
     upload.MaxFileSize := 10 * 1024 * 1024;
     upload.SaveUploadedFile := fun _ _ _ => None;
     upload.LoadImageFromFile := fun _ _ => inl demo.picture |}.

Definition world : upload.World Z :=
  {| upload.saved := []; upload.milvus := demo.world |}.

End posted.


Lemma UploadImage_failure_leaves_the_file_witness :
  let answer :=
    upload.UploadImage (demo.env (Some "connection refused"%string))
      posted.env posted.request posted.world in
  fst (fst answer) = handlers.StatusInternalServerError
  /\ upload.ImageID (snd (fst answer)) = ""%string
  /\ upload.saved (snd answer)
     = [("./uploads/3f2a91c0-0000-4000.jpg"%string, posted.file)]
  /\ main.inserted (upload.milvus (snd answer)) = [].
Proof.
  cbv zeta.
  destruct (UploadImage_failure_leaves_the_file Z
              (demo.env (Some "connection refused"%string)) posted.env
              posted.request posted.world) as (_ & Hid & _ & _).
  - vm_compute. discriminate.
  - split; [reflexivity|]. split; [exact Hid|]. split; reflexivity.
Defined.

(* ===================================================================== *)
(** * Facts: the texture of a flat image                                   *)
(* ===================================================================== *)








(* ===================================================================== *)
(** * Facts: the grid of an image of any size, the range of a grey value   *)
(* ===================================================================== *)

(** X20.  The spatial grid of any image at least four pixels wide and
    high.  Cell [(gx, gy)] is the rectangle of [width/4] by [height/4]
    pixels at [(gx * (width/4), gy * (height/4))]: it lies inside the image,
    so the two tests that would cut it at the border never fire, and it
    holds [(width/4) * (height/4)] pixels, never zero.  The 48 components
    are the three means of the 16 cells, row after row. *)
Theorem spatial_grid_of_any_image {FO : FloatOps} (img : Image) :
  let width := Dx (Bounds img) in
  let height := Dy (Bounds img) in
  let cellWidth := Z.quot width 4 in
  let cellHeight := Z.quot height 4 in
  4 <= width -> 4 <= height ->
  (forall gx gy, 0 <= gx < 4 -> 0 <= gy < 4 ->
     models.cell_bounds width height gx gy
     = (gx * cellWidth, (gx + 1) * cellWidth,
        gy * cellHeight, (gy + 1) * cellHeight)
     /\ (gx + 1) * cellWidth <= width
     /\ (gy + 1) * cellHeight <= height
     /\ snd (cell_of img gx gy) = cellWidth * cellHeight
     /\ 0 < cellWidth * cellHeight)
  /\ models.extractSpatialFeatures img
     = flat_map (fun gy => flat_map (fun gx => cell_means (cell_of img gx gy))
                             [0; 1; 2; 3])
                [0; 1; 2; 3].
Proof.
  cbv zeta. intros Hw Hh.
  set (width := Dx (Bounds img)) in *. set (height := Dy (Bounds img)) in *.
  assert (Hcw : 1 <= Z.quot width 4 /\ 4 * Z.quot width 4 <= width).
  { rewrite Z.quot_div_nonneg by lia.
    pose proof (Z.mul_div_le width 4 ltac:(lia)).
    pose proof (Z.div_le_mono 4 width 4 ltac:(lia) Hw) as H1.
    change (4 / 4) with 1 in H1. lia. }
  assert (Hch : 1 <= Z.quot height 4 /\ 4 * Z.quot height 4 <= height).
  { rewrite Z.quot_div_nonneg by lia.
    pose proof (Z.mul_div_le height 4 ltac:(lia)).
    pose proof (Z.div_le_mono 4 height 4 ltac:(lia) Hh) as H1.
    change (4 / 4) with 1 in H1. lia. }
  set (cw := Z.quot width 4) in *. set (ch := Z.quot height 4) in *.
  assert (Hcells : forall gx gy, 0 <= gx < 4 -> 0 <= gy < 4 ->
            models.cell_bounds width height gx gy
            = (gx * cw, (gx + 1) * cw, gy * ch, (gy + 1) * ch)
            /\ (gx + 1) * cw <= width
            /\ (gy + 1) * ch <= height
            /\ snd (cell_of img gx gy) = cw * ch
            /\ 0 < cw * ch).
  { intros gx gy Hgx Hgy.
    assert (Hx : (gx + 1) * cw <= width) by nia.
    assert (Hy : (gy + 1) * ch <= height) by nia.
    assert (Hb : models.cell_bounds width height gx gy
                 = (gx * cw, (gx + 1) * cw, gy * ch, (gy + 1) * ch)).
    { unfold models.cell_bounds. cbv zeta. fold cw ch.
      destruct (Z.ltb_spec width ((gx + 1) * cw)); [lia|].
      destruct (Z.ltb_spec height ((gy + 1) * ch)); [lia|]. reflexivity. }
    split; [exact Hb|]. split; [exact Hx|]. split; [exact Hy|].
    split; [|nia].
    unfold cell_of. fold width height. rewrite Hb, cell_totals_spec.
    cbn [snd]. rewrite length_coords. nia. }
  split; [exact Hcells|].
  apply extractSpatialFeatures_layout. intros gx gy Hgx Hgy.
  destruct (Hcells gx gy Hgx Hgy) as (_ & _ & _ & -> & Hpos). exact Hpos.
Qed.

Lemma spatial_grid_of_any_image_witness :
  models.cell_bounds 226 226 3 3 = (168, 224, 168, 224)
  /\ snd (@cell_of IEEEOps strips.plain 3 3) = 3136.
Proof.
  destruct (@spatial_grid_of_any_image IEEEOps strips.plain) as [Hcells _];
    [cbn; lia | cbn; lia |].
  destruct (Hcells 3 3) as (Hb & _ & _ & Hcount & _); [lia | lia |].
  split; [exact Hb | exact Hcount].
Defined.

(** X21.  In exact arithmetic the grey value of a pixel lies between 0 and
    1 when its colour keeps the contract of [RGBA()] (channels below
    [65536]): the three weights are positive and add up to 1, and each
    8-bit channel is at most 255. *)
Theorem gray_of_in_unit_interval (c : Color) :
  channel_r c < 65536 -> channel_g c < 65536 -> channel_b c < 65536 ->
  (0 <= @models.gray_of RealOps c <= 1)%R.
Proof.
  intros Hr Hg Hb.
  destruct channel_nonneg as (Nr & Ng & Nb).
  pose proof (byte_of_range (channel_r c) (conj (Nr c) Hr)) as [Hr0 Hr1].
  pose proof (byte_of_range (channel_g c) (conj (Ng c) Hg)) as [Hg0 Hg1].
  pose proof (byte_of_range (channel_b c) (conj (Nb c) Hb)) as [Hb0 Hb1].
  unfold models.gray_of, RGBA.
  fold (channel_r c) (channel_g c) (channel_b c).
  fold (byte_of (channel_r c)) (byte_of (channel_g c)) (byte_of (channel_b c)).
  cbn [float32_of_float64 add64 mul64 lit64 float64_of_int div32
       float32_of_int RealOps].
  unfold Q2R. cbn [Qnum Qden].
  apply IZR_le in Hr0, Hr1, Hg0, Hg1, Hb0, Hb1.
  set (r := IZR (byte_of (channel_r c))) in *.
  set (g := IZR (byte_of (channel_g c))) in *.
  set (b := IZR (byte_of (channel_b c))) in *.
  match goal with
  | |- (?lo <= ?x <= ?hi)%R => change ((lo <= x)%R /\ (x <= hi)%R)
  end.
  unfold Rdiv. split; lra.
Qed.

Lemma gray_of_in_unit_interval_witness :
  (0 <= @models.gray_of RealOps demo.pixel <= 1)%R.
Proof.
  apply (gray_of_in_unit_interval demo.pixel); vm_compute; reflexivity.
Defined.
